(** * The numeric t-SNE engine: a shallow embedding and its properties

    The development follows [src/core/math-utils.js], the precomputed
    engine ([PrecomputedTSNE]) and the step-by-step engine ([TSNE],
    [src/core/tsne.js]).

    Numbers.  A JavaScript [number] is modelled as a real number of the
    Standard Library: arithmetic is exact, so every statement that the
    specification makes "within floating tolerance" is stated here with
    an equality.  [Math.exp], [Math.log], [Math.log2], [Math.pow],
    [Math.abs], [Math.max], [Math.sqrt] and [Math.cos] are [exp], [ln],
    [ln x / ln 2], [Rpower], [Rabs], [Rmax], [sqrt] and [cos].  Counters,
    indices and lengths are natural numbers.  An exact exponential is
    positive, while [Math.exp] underflows to zero: where the code guards
    a division by a sum of exponentials, a statement about the guarded
    branch assumes that the exact sum exceeds [1e-12], which keeps the
    computed sum away from zero as well.

    Arrays.  A JavaScript array of numbers is a [list R]; an array of
    arrays is a [list (list R)].  Reads and writes go through [aget],
    [aset], [mget] and [mset].  Inside the bounds these are the
    JavaScript operations.  Outside the bounds JavaScript reads
    [undefined] and a write extends the array, while here a read gives
    [0] and a write does nothing: the statements below therefore carry
    the shapes of the arrays that the code reads, and every array that
    the code writes is either allocated by the code with the size it
    loops over or covered by a shape hypothesis.

    Loops.  [for (let i = lo; i < hi; i++) body] is [for_range lo hi body],
    which threads the variables that the body assigns. *)

From Stdlib Require Import Reals Lra Lia List Bool.
From Stdlib Require String.
From stdpp Require Import base list.
Import ListNotations.
Import String.StringSyntax.
Delimit Scope string_scope with string.

Open Scope R_scope.

(** Comparisons of numbers are decided, as [<], [>] and [===] are. *)
#[global] Instance Rlt_decision : RelDecision Rlt := Rlt_dec.
#[global] Instance Req_decision : EqDecision R := Req_dec_T.

(** ** Arrays *)

Definition aget (v : list R) (j : nat) : R := default 0 (v !! j).

Definition aset (v : list R) (j : nat) (x : R) : list R := <[j := x]> v.

Definition mrow (M : list (list R)) (i : nat) : list R := default [] (M !! i).

Definition mget (M : list (list R)) (i j : nat) : R := aget (mrow M i) j.

Definition mset (M : list (list R)) (i j : nat) (x : R) : list (list R) :=
  alter (fun row => aset row j x) i M.

(** [Array(n).fill(0)] and [Array(n).fill(null).map(() => Array(m).fill(0))]. *)
Definition zeros (n : nat) : list R := replicate n 0.

Definition zeros2 (n m : nat) : list (list R) := replicate n (zeros m).

(** An [n] by [m] array of arrays. *)
Definition shape (n m : nat) (M : list (list R)) : Prop :=
  length M = n /\ forall i row, M !! i = Some row -> length row = m.

(** ** Loops *)

Section Loops.
Context {St : Type}.

Fixpoint for_loop (count i : nat) (body : nat -> St -> St) (s : St) : St :=
  match count with
  | O => s
  | S c => for_loop c (S i) body (body i s)
  end.

Definition for_range (lo hi : nat) (body : nat -> St -> St) (s : St) : St :=
  for_loop (hi - lo) lo body s.
End Loops.

(** The sum [f 0 + ... + f (n-1)], accumulated from the left as
    [sum += f k] does. *)
Fixpoint sumR (f : nat -> R) (n : nat) : R :=
  match n with
  | O => 0
  | S k => sumR f k + f k
  end.

(** The same sum without the term of index [i]. *)
Definition sum_except (i : nat) (f : nat -> R) (n : nat) : R :=
  sumR (fun k => if Nat.eqb k i then 0 else f k) n.

(** ** math-utils.js *)

Definition log2 (x : R) : R := ln x / ln 2.

(** A coordinate that [b] lacks reads as [0] here and as [undefined] in
    the code, which then returns no number: the statements take points
    with the same number of coordinates. *)
Definition squaredEuclideanDistance (a b : list R) : R :=
  for_range 0 (length a)
    (fun i sum => let diff := aget a i - aget b i in sum + diff * diff) 0.

Definition computeDistanceMatrix (X : list (list R)) : list (list R) :=
  let n := length X in
  let D := zeros2 n n in
  for_range 0 n (fun i D =>
    for_range (i + 1) n (fun j D =>
      let dist := squaredEuclideanDistance (mrow X i) (mrow X j) in
      let D := mset D i j dist in
      mset D j i dist) D) D.

Definition shannonEntropy (P : list R) : R :=
  for_range 0 (length P)
    (fun i H => if decide (1e-12 < aget P i)
                then H - aget P i * log2 (aget P i) else H) 0.

Definition entropyToPerplexity (entropy : R) : R := Rpower 2 entropy.

Definition computeConditionalProbabilities
    (distances : list R) (sigma : R) (i : nat) : list R :=
  let n := length distances in
  let twoSigmaSq := 2 * sigma * sigma in
  let P := zeros n in
  let '(P, sum) :=
    for_range 0 n (fun j '(P, sum) =>
      if negb (Nat.eqb j i) then
        let P := aset P j (exp (- aget distances j / twoSigmaSq)) in
        (P, sum + aget P j)
      else (P, sum)) (P, 0) in
  if decide (1e-12 < sum) then
    for_range 0 n (fun j P => aset P j (aget P j / sum)) P
  else P.

(** One entry of the search trace of [findSigma]. *)
Record historyEntry := {
  h_iteration : nat;
  h_sigma : R;
  h_perplexity : R
}.

Record sigmaResult := {
  r_sigma : R;
  r_P : list R;
  r_entropy : R;
  r_perplexity : R;
  r_history : list historyEntry
}.

(** The loop of [findSigma]: [fuel] iterations remain, [iter] is the loop
    counter, the other arguments are the variables of the function.  The
    [return] inside the loop ends it. *)
Fixpoint findSigma_loop (fuel iter : nat) (distances : list R) (i : nat)
    (targetEntropy : R) (returnHistory : bool) (tol : R)
    (sigmaMin sigmaMax sigma : R) (history : list historyEntry) : sigmaResult :=
  match fuel with
  | O =>
      let P := computeConditionalProbabilities distances sigma i in
      let entropy := shannonEntropy P in
      let perplexity := entropyToPerplexity entropy in
      {| r_sigma := sigma; r_P := P; r_entropy := entropy;
         r_perplexity := perplexity; r_history := history |}
  | S fuel' =>
      let P := computeConditionalProbabilities distances sigma i in
      let entropy := shannonEntropy P in
      let perplexity := entropyToPerplexity entropy in
      let history :=
        if returnHistory
        then history ++ [ {| h_iteration := iter; h_sigma := sigma;
                             h_perplexity := perplexity |} ]
        else history in
      let entropyDiff := entropy - targetEntropy in
      if decide (Rabs entropyDiff < tol) then
        {| r_sigma := sigma; r_P := P; r_entropy := entropy;
           r_perplexity := perplexity; r_history := history |}
      else if decide (0 < entropyDiff) then
        findSigma_loop fuel' (S iter) distances i targetEntropy returnHistory tol
          sigmaMin sigma ((sigmaMin + sigma) / 2) history
      else
        let sigma' := (sigma + sigmaMax) / 2 in
        let sigma' := if decide (sigmaMax = 1e10) then sigma' * 2 else sigma' in
        findSigma_loop fuel' (S iter) distances i targetEntropy returnHistory tol
          sigma sigmaMax sigma' history
  end.

Definition findSigma (distanceMatrix : list (list R)) (i : nat)
    (targetPerplexity : R) (returnHistory : bool) (maxIter : nat) (tol : R)
    : sigmaResult :=
  let distances := mrow distanceMatrix i in
  let targetEntropy := log2 targetPerplexity in
  findSigma_loop maxIter 0 distances i targetEntropy returnHistory tol
    1e-10 1e10 1 [].

(** The defaults of the last three parameters of [findSigma]. *)
Definition findSigma_maxIter : nat := 50.
Definition findSigma_tol : R := 1e-5.

Definition computeQMatrix (Y : list (list R)) : list (list R) :=
  let n := length Y in
  let Qunnorm := zeros2 n n in
  let '(Qunnorm, sum) :=
    for_range 0 n (fun i '(Qunnorm, sum) =>
      for_range (i + 1) n (fun j '(Qunnorm, sum) =>
        let distSq := squaredEuclideanDistance (mrow Y i) (mrow Y j) in
        let qij := 1 / (1 + distSq) in
        let Qunnorm := mset Qunnorm i j qij in
        let Qunnorm := mset Qunnorm j i qij in
        (Qunnorm, sum + 2 * qij)) (Qunnorm, sum)) (Qunnorm, 0) in
  let Q := zeros2 n n in
  for_range 0 n (fun i Q =>
    for_range 0 n (fun j Q =>
      if negb (Nat.eqb i j)
      then mset Q i j (Rmax (mget Qunnorm i j / sum) 1e-12)
      else Q) Q) Q.

Definition klDivergence (P Q : list (list R)) : R :=
  let n := length P in
  for_range 0 n (fun i kl =>
    for_range 0 n (fun j kl =>
      if negb (Nat.eqb i j) && bool_decide (1e-12 < mget P i j)
      then kl + mget P i j * ln (mget P i j / mget Q i j)
      else kl) kl) 0.

Definition computeGradient (P Q Y : list (list R)) : list (list R) :=
  let n := length Y in
  let d := length (mrow Y 0) in
  let grad := zeros2 n d in
  for_range 0 n (fun i grad =>
    for_range 0 n (fun j grad =>
      if negb (Nat.eqb i j) then
        let distSq := squaredEuclideanDistance (mrow Y i) (mrow Y j) in
        let qunnorm := 1 / (1 + distSq) in
        let mult := 4 * (mget P i j - mget Q i j) * qunnorm in
        for_range 0 d (fun dim grad =>
          mset grad i dim
            (mget grad i dim + mult * (mget Y i dim - mget Y j dim))) grad
      else grad) grad) grad.

(** [initializeEmbedding]: the [k]-th call of [Math.random()] made by the
    function returns [random k]; the draws are taken row by row. *)
Definition initializeEmbedding (random : nat -> R) (n d : nat) (scale : R)
    : list (list R) :=
  for_range 0 n (fun i Y =>
    let point :=
      for_range 0 d (fun j point =>
        point ++ [ (random (i * d + j)%nat - 0.5) * 2 * scale ]) [] in
    Y ++ [point]) [].

(** [clone2D] and [deepClone] copy the rows; a list is its own copy. *)
Definition clone2D (arr : list (list R)) : list (list R) := map (fun row => row) arr.

Definition euclideanDistance (a b : list R) : R :=
  sqrt (for_range 0 (length a)
          (fun i sum => let diff := aget a i - aget b i in sum + diff * diff) 0).

Definition gaussianPDF (x mu sigma : R) : R :=
  let z := (x - mu) / sigma in
  exp (-0.5 * z * z) / (sigma * sqrt (2 * PI)).

Definition studentTPDF (x : R) : R := 1 / (PI * (1 + x * x)).

(** [computeQMatrixFull] returns [{ Q, Qunnorm }], here the pair. *)
Definition computeQMatrixFull (Y : list (list R))
    : list (list R) * list (list R) :=
  let n := length Y in
  let Qunnorm := zeros2 n n in
  let '(Qunnorm, sum) :=
    for_range 0 n (fun i '(Qunnorm, sum) =>
      for_range (i + 1) n (fun j '(Qunnorm, sum) =>
        let distSq := squaredEuclideanDistance (mrow Y i) (mrow Y j) in
        let qij := 1 / (1 + distSq) in
        let Qunnorm := mset Qunnorm i j qij in
        let Qunnorm := mset Qunnorm j i qij in
        (Qunnorm, sum + 2 * qij)) (Qunnorm, sum)) (Qunnorm, 0) in
  let Q := zeros2 n n in
  let Q :=
    for_range 0 n (fun i Q =>
      for_range 0 n (fun j Q =>
        if negb (Nat.eqb i j)
        then mset Q i j (Rmax (mget Qunnorm i j / sum) 1e-12)
        else Q) Q) Q in
  (Q, Qunnorm).

Definition gradientMagnitude (gradPoint : list R) : R :=
  sqrt (for_range 0 (length gradPoint)
          (fun i sum => sum + aget gradPoint i * aget gradPoint i) 0).

(** [x || d]: the default replaces a missing option and the number zero. *)
Definition or_default_R (x : option R) (d : R) : R :=
  match x with
  | Some v => if decide (v = 0) then d else v
  | None => d
  end.

Definition or_default_nat (x : option nat) (d : nat) : nat :=
  match x with
  | Some v => if Nat.eqb v 0 then d else v
  | None => d
  end.

(** [x ?? d]: the default replaces a missing option only. *)
Definition nullish_R (x : option R) (d : R) : R := default d x.
Definition nullish_nat (x : option nat) (d : nat) : nat := default d x.

(** [deepClone] and the spread [[...arr]]: the copies that a snapshot
    takes.  The live arrays are values here, so a copy is the same list. *)
Definition deepClone {A : Type} (arr : list A) : list A := map (fun x => x) arr.

(** ** The precomputed engine *)

Module PrecomputedTSNE.

Inductive TSNESteps :=
| INTRO | INPUT_DATA | COMPUTE_DISTANCES | COMPUTE_SIGMAS
| COMPUTE_P_CONDITIONAL | SYMMETRIZE_P | EARLY_EXAGGERATION
| INITIALIZE_EMBEDDING | COMPUTE_Q | COMPUTE_GRADIENT | UPDATE_EMBEDDING
| ITERATION_PROGRESS | REMOVE_EXAGGERATION | FINAL_RESULT.

(** The two draws with which the [k]-th call of [gaussianRandom] leaves
    its rejection loops ([while (u === 0) u = Math.random()]). *)
Definition draws := nat -> R * R.

Definition gaussianRandom (rnd : draws) (k : nat) : R :=
  let '(u, v) := rnd k in
  sqrt (-2.0 * ln u) * cos (2.0 * PI * v).

Record options := {
  o_perplexity : option R;
  o_learningRate : option R;
  o_maxIterations : option nat;
  o_targetDim : option nat;
  o_earlyExaggeration : option R;
  o_earlyExaggerationIter : option nat
}.

(** The fields that only the constructor assigns. *)
Record config := {
  perplexity : R;
  learningRate : R;
  maxIterations : nat;
  targetDim : nat;
  earlyExaggeration : R;
  earlyExaggerationIter : nat;
  momentum : R;
  finalMomentum : R;
  momentumSwitchIter : nat
}.

(** The object pushed by [_runIterations] at a captured iteration. *)
Record iterSnapshot := {
  is_iteration : nat;
  is_embedding : list (list R);
  is_Q : list (list R);
  is_gradient : list (list R);
  is_cost : R
}.

(** The [data] object of a snapshot, one shape per call of
    [_addSnapshot] in [run].  A missing number is [Infinity] for
    [minDist], [NaN] for [avgDist] and [undefined] for [finalCost]. *)
Inductive snapshotData :=
| IntroData (n inputDim targetDim : nat) (perplexity : R)
| InputData (points : list (list R)) (labels : list Z) (n dim : nat)
| DistancesData (distanceMatrix : list (list R))
    (minDist : option R) (maxDist : R) (avgDist : option R)
| SigmasData (sigmas : list R) (perplexity : R)
    (searchHistory : list (nat * list historyEntry)) (avgSigma : R)
| PConditionalData (P_conditional : list (list R))
    (exampleRow : nat * list R * R)
| SymmetrizeData (P P_conditional : list (list R))
| ExaggerationData (P_exaggerated P_original : list (list R))
    (exaggerationFactor : R)
| InitializeData (embedding : list (list R)) (targetDim : nat)
| QData (Q embedding : list (list R))
| GradientData (gradient P Q embedding : list (list R))
| UpdateData (embedding gradient : list (list R)) (learningRate : R)
| ProgressData (iterations : list iterSnapshot) (costs : list R)
    (totalIterations : nat)
| RemoveData (iteration : nat) (embedding P : list (list R))
| FinalData (embedding : list (list R)) (finalCost : option R)
    (costs : list R) (labels : list Z).

(** A snapshot.  Its [info] field is [StepInfo[stepType]], a constant
    table of titles, and is not repeated here. *)
Record snapshot := {
  stepId : nat;
  stepType : TSNESteps;
  data : snapshotData;
  s_labels : list Z;
  s_inputData : option (list (list R))
}.

(** The engine object.  A matrix field that the constructor sets to
    [null] starts as the empty list. *)
Record t := {
  cfg : config;
  snapshots : list snapshot;
  stepIndex : nat;
  inputData : option (list (list R));
  labels : option (list Z);
  n : nat;
  distanceMatrix : list (list R);
  sigmas : list R;
  P_conditional : list (list R);
  P : list (list R);
  P_original : list (list R);
  embedding : list (list R);
  Q : list (list R);
  gradient : list (list R);
  velocity : list (list R);
  costs : list R;
  iterationSnapshots : list iterSnapshot
}.

Definition set_snapshots (v : list snapshot) (this : t) : t :=
  {| cfg := cfg this; snapshots := v; stepIndex := stepIndex this; inputData
  := inputData this; labels := labels this; n := n this; distanceMatrix :=
  distanceMatrix this; sigmas := sigmas this; P_conditional := P_conditional
  this; P := P this; P_original := P_original this; embedding := embedding
  this; Q := Q this; gradient := gradient this; velocity := velocity this;
  costs := costs this; iterationSnapshots := iterationSnapshots this |}.

Definition set_stepIndex (v : nat) (this : t) : t :=
  {| cfg := cfg this; snapshots := snapshots this; stepIndex := v; inputData
  := inputData this; labels := labels this; n := n this; distanceMatrix :=
  distanceMatrix this; sigmas := sigmas this; P_conditional := P_conditional
  this; P := P this; P_original := P_original this; embedding := embedding
  this; Q := Q this; gradient := gradient this; velocity := velocity this;
  costs := costs this; iterationSnapshots := iterationSnapshots this |}.

Definition set_inputData (v : option (list (list R))) (this : t) : t :=
  {| cfg := cfg this; snapshots := snapshots this; stepIndex := stepIndex
  this; inputData := v; labels := labels this; n := n this; distanceMatrix
  := distanceMatrix this; sigmas := sigmas this; P_conditional :=
  P_conditional this; P := P this; P_original := P_original this; embedding
  := embedding this; Q := Q this; gradient := gradient this; velocity :=
  velocity this; costs := costs this; iterationSnapshots :=
  iterationSnapshots this |}.

Definition set_labels (v : option (list Z)) (this : t) : t :=
  {| cfg := cfg this; snapshots := snapshots this; stepIndex := stepIndex
  this; inputData := inputData this; labels := v; n := n this;
  distanceMatrix := distanceMatrix this; sigmas := sigmas this;
  P_conditional := P_conditional this; P := P this; P_original := P_original
  this; embedding := embedding this; Q := Q this; gradient := gradient this;
  velocity := velocity this; costs := costs this; iterationSnapshots :=
  iterationSnapshots this |}.

Definition set_n (v : nat) (this : t) : t :=
  {| cfg := cfg this; snapshots := snapshots this; stepIndex := stepIndex
  this; inputData := inputData this; labels := labels this; n := v;
  distanceMatrix := distanceMatrix this; sigmas := sigmas this;
  P_conditional := P_conditional this; P := P this; P_original := P_original
  this; embedding := embedding this; Q := Q this; gradient := gradient this;
  velocity := velocity this; costs := costs this; iterationSnapshots :=
  iterationSnapshots this |}.

Definition set_distanceMatrix (v : list (list R)) (this : t) : t :=
  {| cfg := cfg this; snapshots := snapshots this; stepIndex := stepIndex
  this; inputData := inputData this; labels := labels this; n := n this;
  distanceMatrix := v; sigmas := sigmas this; P_conditional := P_conditional
  this; P := P this; P_original := P_original this; embedding := embedding
  this; Q := Q this; gradient := gradient this; velocity := velocity this;
  costs := costs this; iterationSnapshots := iterationSnapshots this |}.

Definition set_sigmas (v : list R) (this : t) : t :=
  {| cfg := cfg this; snapshots := snapshots this; stepIndex := stepIndex
  this; inputData := inputData this; labels := labels this; n := n this;
  distanceMatrix := distanceMatrix this; sigmas := v; P_conditional :=
  P_conditional this; P := P this; P_original := P_original this; embedding
  := embedding this; Q := Q this; gradient := gradient this; velocity :=
  velocity this; costs := costs this; iterationSnapshots :=
  iterationSnapshots this |}.

Definition set_P_conditional (v : list (list R)) (this : t) : t :=
  {| cfg := cfg this; snapshots := snapshots this; stepIndex := stepIndex
  this; inputData := inputData this; labels := labels this; n := n this;
  distanceMatrix := distanceMatrix this; sigmas := sigmas this;
  P_conditional := v; P := P this; P_original := P_original this; embedding
  := embedding this; Q := Q this; gradient := gradient this; velocity :=
  velocity this; costs := costs this; iterationSnapshots :=
  iterationSnapshots this |}.

Definition set_P (v : list (list R)) (this : t) : t :=
  {| cfg := cfg this; snapshots := snapshots this; stepIndex := stepIndex
  this; inputData := inputData this; labels := labels this; n := n this;
  distanceMatrix := distanceMatrix this; sigmas := sigmas this;
  P_conditional := P_conditional this; P := v; P_original := P_original
  this; embedding := embedding this; Q := Q this; gradient := gradient this;
  velocity := velocity this; costs := costs this; iterationSnapshots :=
  iterationSnapshots this |}.

Definition set_P_original (v : list (list R)) (this : t) : t :=
  {| cfg := cfg this; snapshots := snapshots this; stepIndex := stepIndex
  this; inputData := inputData this; labels := labels this; n := n this;
  distanceMatrix := distanceMatrix this; sigmas := sigmas this;
  P_conditional := P_conditional this; P := P this; P_original := v;
  embedding := embedding this; Q := Q this; gradient := gradient this;
  velocity := velocity this; costs := costs this; iterationSnapshots :=
  iterationSnapshots this |}.

Definition set_embedding (v : list (list R)) (this : t) : t :=
  {| cfg := cfg this; snapshots := snapshots this; stepIndex := stepIndex
  this; inputData := inputData this; labels := labels this; n := n this;
  distanceMatrix := distanceMatrix this; sigmas := sigmas this;
  P_conditional := P_conditional this; P := P this; P_original := P_original
  this; embedding := v; Q := Q this; gradient := gradient this; velocity :=
  velocity this; costs := costs this; iterationSnapshots :=
  iterationSnapshots this |}.

Definition set_Q (v : list (list R)) (this : t) : t :=
  {| cfg := cfg this; snapshots := snapshots this; stepIndex := stepIndex
  this; inputData := inputData this; labels := labels this; n := n this;
  distanceMatrix := distanceMatrix this; sigmas := sigmas this;
  P_conditional := P_conditional this; P := P this; P_original := P_original
  this; embedding := embedding this; Q := v; gradient := gradient this;
  velocity := velocity this; costs := costs this; iterationSnapshots :=
  iterationSnapshots this |}.

Definition set_gradient (v : list (list R)) (this : t) : t :=
  {| cfg := cfg this; snapshots := snapshots this; stepIndex := stepIndex
  this; inputData := inputData this; labels := labels this; n := n this;
  distanceMatrix := distanceMatrix this; sigmas := sigmas this;
  P_conditional := P_conditional this; P := P this; P_original := P_original
  this; embedding := embedding this; Q := Q this; gradient := v; velocity :=
  velocity this; costs := costs this; iterationSnapshots :=
  iterationSnapshots this |}.

Definition set_velocity (v : list (list R)) (this : t) : t :=
  {| cfg := cfg this; snapshots := snapshots this; stepIndex := stepIndex
  this; inputData := inputData this; labels := labels this; n := n this;
  distanceMatrix := distanceMatrix this; sigmas := sigmas this;
  P_conditional := P_conditional this; P := P this; P_original := P_original
  this; embedding := embedding this; Q := Q this; gradient := gradient this;
  velocity := v; costs := costs this; iterationSnapshots :=
  iterationSnapshots this |}.

Definition set_costs (v : list R) (this : t) : t :=
  {| cfg := cfg this; snapshots := snapshots this; stepIndex := stepIndex
  this; inputData := inputData this; labels := labels this; n := n this;
  distanceMatrix := distanceMatrix this; sigmas := sigmas this;
  P_conditional := P_conditional this; P := P this; P_original := P_original
  this; embedding := embedding this; Q := Q this; gradient := gradient this;
  velocity := velocity this; costs := v; iterationSnapshots :=
  iterationSnapshots this |}.

Definition set_iterationSnapshots (v : list iterSnapshot) (this : t) : t :=
  {| cfg := cfg this; snapshots := snapshots this; stepIndex := stepIndex
  this; inputData := inputData this; labels := labels this; n := n this;
  distanceMatrix := distanceMatrix this; sigmas := sigmas this;
  P_conditional := P_conditional this; P := P this; P_original := P_original
  this; embedding := embedding this; Q := Q this; gradient := gradient this;
  velocity := velocity this; costs := costs this; iterationSnapshots := v
  |}.

Definition new (o : options) : t :=
  {| cfg := {| perplexity := or_default_R (o_perplexity o) 30;
               learningRate := or_default_R (o_learningRate o) 200;
               maxIterations := or_default_nat (o_maxIterations o) 500;
               targetDim := or_default_nat (o_targetDim o) 2;
               earlyExaggeration := or_default_R (o_earlyExaggeration o) 4;
               earlyExaggerationIter :=
                 or_default_nat (o_earlyExaggerationIter o) 100;
               momentum := 0.5;
               finalMomentum := 0.8;
               momentumSwitchIter := 250 |};
     snapshots := []; stepIndex := 0;
     inputData := None; labels := None; n := 0;
     distanceMatrix := []; sigmas := [];
     P_conditional := []; P := []; P_original := [];
     embedding := []; Q := []; gradient := []; velocity := [];
     costs := []; iterationSnapshots := [] |}.

Definition _addSnapshot (stepType : TSNESteps) (data : snapshotData)
    (this : t) : t :=
  let this' :=
    set_snapshots
      (snapshots this ++
       [ {| stepId := stepIndex this;
            stepType := stepType;
            data := data;
            s_labels := deepClone (default [] (labels this));
            s_inputData := option_map deepClone (inputData this) |} ])
      this in
  set_stepIndex (stepIndex this + 1)%nat this'.

Definition _getMinNonZeroDist (this : t) : option R :=
  for_range 0 (n this) (fun i min =>
    for_range 0 (n this) (fun j min =>
      if negb (Nat.eqb i j) &&
         match min with
         | None => true
         | Some m => bool_decide (mget (distanceMatrix this) i j < m)
         end
      then Some (mget (distanceMatrix this) i j)
      else min) min) None.

Definition _getMaxDist (this : t) : R :=
  for_range 0 (n this) (fun i max =>
    for_range 0 (n this) (fun j max =>
      if decide (max < mget (distanceMatrix this) i j)
      then mget (distanceMatrix this) i j
      else max) max) 0.

Definition _getAvgDist (this : t) : option R :=
  let '(sum, count) :=
    for_range 0 (n this) (fun i '(sum, count) =>
      for_range (i + 1) (n this) (fun j '(sum, count) =>
        (sum + mget (distanceMatrix this) i j, (count + 1)%nat))
        (sum, count)) (0, 0%nat) in
  if Nat.eqb count 0 then None else Some (sum / INR count).

Definition _computeAllSigmas (this : t)
    : list R * list (nat * list historyEntry) :=
  for_range 0 (n this) (fun i '(sigmas, searchHistory) =>
    let result :=
      findSigma (distanceMatrix this) i (perplexity (cfg this)) true
        findSigma_maxIter findSigma_tol in
    let sigmas := sigmas ++ [r_sigma result] in
    if Nat.ltb i 3
    then (sigmas, searchHistory ++ [(i, r_history result)])
    else (sigmas, searchHistory)) ([], []).

(** The kernel is applied to [dist * dist], the square of an entry of the
    distance matrix.  The guard [sum > 0] fails when there is no other
    point and, in the code, when every kernel value of the row underflows
    to zero; the row is then left as it is. *)
Definition _computeConditionalP (this : t) : list (list R) :=
  let P := zeros2 (n this) (n this) in
  for_range 0 (n this) (fun i P =>
    let sigma := aget (sigmas this) i in
    let sigma2 := 2 * sigma * sigma in
    let '(P, sum) :=
      for_range 0 (n this) (fun j '(P, sum) =>
        if negb (Nat.eqb i j) then
          let dist := mget (distanceMatrix this) i j in
          let P := mset P i j (exp (- dist * dist / sigma2)) in
          (P, sum + mget P i j)
        else (P, sum)) (P, 0) in
    if decide (0 < sum) then
      for_range 0 (n this) (fun j P => mset P i j (mget P i j / sum)) P
    else P) P.

Definition _getExamplePRow (pointIndex : nat) (this : t)
    : nat * list R * R :=
  (pointIndex, deepClone (mrow (P_conditional this) pointIndex),
   aget (sigmas this) pointIndex).

Definition _symmetrizeP (this : t) : list (list R) :=
  let P := zeros2 (n this) (n this) in
  let P :=
    for_range 0 (n this) (fun i P =>
      for_range (i + 1) (n this) (fun j P =>
        let pij :=
          (mget (P_conditional this) i j + mget (P_conditional this) j i)
          / (2 * INR (n this)) in
        let P := mset P i j pij in
        mset P j i pij) P) P in
  let minP := 1e-12 in
  for_range 0 (n this) (fun i P =>
    for_range 0 (n this) (fun j P =>
      mset P i j (Rmax (mget P i j) minP)) P) P.

Definition _applyEarlyExaggeration (this : t) : t :=
  set_P
    (for_range 0 (n this) (fun i P =>
       for_range 0 (n this) (fun j P =>
         mset P i j (mget P i j * earlyExaggeration (cfg this))) P)
       (P this))
    this.

Definition _removeEarlyExaggeration (this : t) : t :=
  set_P
    (for_range 0 (n this) (fun i P =>
       for_range 0 (n this) (fun j P =>
         mset P i j (mget (P_original this) i j)) P)
       (P this))
    this.

(** The calls of [gaussianRandom] are made row by row. *)
Definition _initializeEmbedding (rnd : draws) (this : t) : list (list R) :=
  let scale := 0.0001 in
  map (fun i =>
         map (fun d => gaussianRandom rnd (i * targetDim (cfg this) + d) * scale)
             (seq 0 (targetDim (cfg this))))
      (seq 0 (n this)).

Definition _updateEmbedding (iteration : nat) (this : t) : t :=
  let mom :=
    if Nat.ltb iteration (momentumSwitchIter (cfg this))
    then momentum (cfg this) else finalMomentum (cfg this) in
  let '(velocity, embedding) :=
    for_range 0 (n this) (fun i '(velocity, embedding) =>
      for_range 0 (targetDim (cfg this)) (fun d '(velocity, embedding) =>
        let velocity :=
          mset velocity i d
            (mom * mget velocity i d
             - learningRate (cfg this) * mget (gradient this) i d) in
        let embedding :=
          mset embedding i d (mget embedding i d + mget velocity i d) in
        (velocity, embedding)) (velocity, embedding))
      (velocity this, embedding this) in
  let embedding :=
    for_range 0 (targetDim (cfg this)) (fun d embedding =>
      let mean :=
        for_range 0 (n this) (fun i mean => mean + mget embedding i d) 0 in
      let mean := mean / INR (n this) in
      for_range 0 (n this) (fun i embedding =>
        mset embedding i d (mget embedding i d - mean)) embedding)
      embedding in
  set_embedding embedding (set_velocity velocity this).

Definition captureIterations (this : t) : list nat :=
  [0; 5; 10; 25; 50; 75; 100; 150; 200; 300; 400;
   maxIterations (cfg this) - 1]%nat.

Definition _runIterations (this : t) : t * list iterSnapshot :=
  let this := set_iterationSnapshots [] this in
  for_range 1 (maxIterations (cfg this)) (fun iter '(this, keyIterations) =>
    let this :=
      if Nat.eqb iter (earlyExaggerationIter (cfg this))
      then _removeEarlyExaggeration this else this in
    let this := set_Q (computeQMatrix (embedding this)) this in
    let this :=
      set_gradient (computeGradient (P this) (Q this) (embedding this)) this in
    let this := _updateEmbedding iter this in
    let cost := klDivergence (P this) (Q this) in
    let this := set_costs (costs this ++ [cost]) this in
    if existsb (Nat.eqb iter) (captureIterations this) then
      let snapshot :=
        {| is_iteration := iter;
           is_embedding := deepClone (embedding this);
           is_Q := deepClone (Q this);
           is_gradient := deepClone (gradient this);
           is_cost := cost |} in
      (set_iterationSnapshots (iterationSnapshots this ++ [snapshot]) this,
       keyIterations ++ [snapshot])
    else (this, keyIterations)) (this, []).

(** [new PrecomputedTSNE()]: no option is given. *)
Definition no_options : options :=
  {| o_perplexity := None; o_learningRate := None; o_maxIterations := None;
     o_targetDim := None; o_earlyExaggeration := None;
     o_earlyExaggerationIter := None |}.

(** The body of [run], cut at its comments "Step 0" to "Step 13". *)

Definition step0 (row0 : list R) (this : t) : t :=
  _addSnapshot INTRO
    (IntroData (n this) (length row0) (targetDim (cfg this))
       (perplexity (cfg this))) this.

Definition step1 (inputData : list (list R)) (labels : list Z)
    (row0 : list R) (this : t) : t :=
  _addSnapshot INPUT_DATA
    (InputData (deepClone inputData) (deepClone labels) (n this)
       (length row0)) this.

Definition step2 (inputData : list (list R)) (this : t) : t :=
  let this := set_distanceMatrix (computeDistanceMatrix inputData) this in
  _addSnapshot COMPUTE_DISTANCES
    (DistancesData (deepClone (distanceMatrix this))
       (_getMinNonZeroDist this) (_getMaxDist this) (_getAvgDist this))
    this.

(** [this.sigmas.reduce((a, b) => a + b)] throws on an empty array. *)
Definition step3 (this : t) : option t :=
  let sigmaResult := _computeAllSigmas this in
  let this := set_sigmas (fst sigmaResult) this in
  match sigmas this with
  | [] => None
  | s0 :: rest =>
      Some
        (_addSnapshot COMPUTE_SIGMAS
           (SigmasData (deepClone (sigmas this)) (perplexity (cfg this))
              (snd sigmaResult)
              (fold_left Rplus rest s0 / INR (length (sigmas this))))
           this)
  end.

Definition step4 (this : t) : t :=
  let this := set_P_conditional (_computeConditionalP this) this in
  _addSnapshot COMPUTE_P_CONDITIONAL
    (PConditionalData (deepClone (P_conditional this))
       (_getExamplePRow 0 this)) this.

Definition step5 (this : t) : t :=
  let this := set_P (_symmetrizeP this) this in
  let this := set_P_original (deepClone (P this)) this in
  _addSnapshot SYMMETRIZE_P
    (SymmetrizeData (deepClone (P this)) (deepClone (P_conditional this)))
    this.

Definition step6 (this : t) : t :=
  let this := _applyEarlyExaggeration this in
  _addSnapshot EARLY_EXAGGERATION
    (ExaggerationData (deepClone (P this)) (deepClone (P_original this))
       (earlyExaggeration (cfg this))) this.

Definition step7 (rnd : draws) (this : t) : t :=
  let this := set_embedding (_initializeEmbedding rnd this) this in
  let this := set_velocity (zeros2 (n this) (targetDim (cfg this))) this in
  _addSnapshot INITIALIZE_EMBEDDING
    (InitializeData (deepClone (embedding this)) (targetDim (cfg this)))
    this.

Definition step8 (this : t) : t :=
  let this := set_Q (computeQMatrix (embedding this)) this in
  _addSnapshot COMPUTE_Q
    (QData (deepClone (Q this)) (deepClone (embedding this))) this.

Definition step9 (this : t) : t :=
  let this :=
    set_gradient (computeGradient (P this) (Q this) (embedding this)) this in
  _addSnapshot COMPUTE_GRADIENT
    (GradientData (deepClone (gradient this)) (deepClone (P this))
       (deepClone (Q this)) (deepClone (embedding this))) this.

Definition step10 (this : t) : t :=
  let this := _updateEmbedding 0 this in
  _addSnapshot UPDATE_EMBEDDING
    (UpdateData (deepClone (embedding this)) (deepClone (gradient this))
       (learningRate (cfg this))) this.

Definition step11 (this : t) : t :=
  let '(this, keyIterations) := _runIterations this in
  _addSnapshot ITERATION_PROGRESS
    (ProgressData keyIterations (deepClone (costs this))
       (maxIterations (cfg this))) this.

Definition step12 (this : t) : t :=
  _addSnapshot REMOVE_EXAGGERATION
    (RemoveData (earlyExaggerationIter (cfg this))
       (deepClone
          (match
             find (fun s => Nat.leb (earlyExaggerationIter (cfg this))
                              (is_iteration s))
                  (iterationSnapshots this)
           with
           | Some s => is_embedding s
           | None => embedding this
           end))
       (deepClone (P_original this))) this.

Definition step13 (labels : list Z) (this : t) : t :=
  _addSnapshot FINAL_RESULT
    (FinalData (deepClone (embedding this)) (last (costs this))
       (deepClone (costs this)) (deepClone labels)) this.

(** [run]: [Some this'] when the call returns, with [snapshots this'] the
    returned array; [None] when it throws.  Reading [inputData[0].length]
    of an empty input is a [TypeError]. *)
Definition run (rnd : draws) (inputData : list (list R)) (labels : list Z)
    (this : t) : option t :=
  let this := set_inputData (Some inputData) this in
  let this := set_labels (Some labels) this in
  let this := set_n (length inputData) this in
  let this := set_snapshots [] this in
  match inputData !! 0%nat with
  | None => None
  | Some row0 =>
      let this := step0 row0 this in
      let this := step1 inputData labels row0 this in
      let this := step2 inputData this in
      match step3 this with
      | None => None
      | Some this =>
          let this := step4 this in
          let this := step5 this in
          let this := step6 this in
          let this := step7 rnd this in
          let this := step8 this in
          let this := step9 this in
          let this := step10 this in
          let this := step11 this in
          let this := step12 this in
          let this := step13 labels this in
          Some this
      end
  end.

(** [new PrecomputedTSNE(o).run(inputData, labels)]: a run of a newly
    constructed engine, as [precomputeTSNE] makes it. *)
Definition run_fresh (rnd : draws) (o : options)
    (inputData : list (list R)) (labels : list Z) : option t :=
  run rnd inputData labels (new o).

(** The string that the enumeration [TSNESteps] gives to a step. *)
Definition step_name (s : TSNESteps) : String.string :=
  match s with
  | INTRO => "intro"
  | INPUT_DATA => "input-data"
  | COMPUTE_DISTANCES => "compute-distances"
  | COMPUTE_SIGMAS => "compute-sigmas"
  | COMPUTE_P_CONDITIONAL => "compute-p-conditional"
  | SYMMETRIZE_P => "symmetrize-p"
  | EARLY_EXAGGERATION => "early-exaggeration"
  | INITIALIZE_EMBEDDING => "initialize-embedding"
  | COMPUTE_Q => "compute-q"
  | COMPUTE_GRADIENT => "compute-gradient"
  | UPDATE_EMBEDDING => "update-embedding"
  | ITERATION_PROGRESS => "iteration-progress"
  | REMOVE_EXAGGERATION => "remove-exaggeration"
  | FINAL_RESULT => "final-result"
  end%string.

Definition getSnapshots (this : t) : list snapshot := snapshots this.

(** [this.snapshots.find(s => s.stepType === stepType)]; [None] is
    [undefined]. *)
Definition getSnapshotByType (stepType : String.string) (this : t)
    : option snapshot :=
  find (fun s => String.eqb (step_name (PrecomputedTSNE.stepType s)) stepType)
       (snapshots this).

Definition getSnapshotByIndex (index : nat) (this : t) : option snapshot :=
  snapshots this !! index.

(** [precomputeTSNE(points, labels, options)]: the options of the engine
    it constructs.  [Math.floor((points.length - 1) / 3)] is the floored
    division of integers. *)
Definition precompute_options (points : list (list R)) (o : options)
    : options :=
  {| o_perplexity :=
       Some (Rmin (or_default_R (o_perplexity o) 15)
                  (IZR ((Z.of_nat (length points) - 1) / 3)));
     o_learningRate := Some (or_default_R (o_learningRate o) 200);
     o_maxIterations := Some (or_default_nat (o_maxIterations o) 500);
     o_targetDim := Some (or_default_nat (o_targetDim o) 2);
     o_earlyExaggeration := Some (or_default_R (o_earlyExaggeration o) 4);
     o_earlyExaggerationIter :=
       Some (or_default_nat (o_earlyExaggerationIter o) 100) |}.

(** [precomputeTSNE]: [Some (snapshots, tsne)] when it returns. *)
Definition precomputeTSNE (rnd : draws) (points : list (list R))
    (labels : list Z) (o : options) : option (list snapshot * t) :=
  let tsne := new (precompute_options points o) in
  match run rnd points labels tsne with
  | Some tsne => Some (snapshots tsne, tsne)
  | None => None
  end.

End PrecomputedTSNE.

(** ** The step-by-step engine (tsne.js) *)

Module TSNE.

Record options := {
  o_perplexity : option R;
  o_learningRate : option R;
  o_momentum : option R;
  o_earlyExaggeration : option R;
  o_exaggerationIter : option nat;
  o_maxIter : option nat;
  o_targetDim : option nat
}.

(** The fields of the engine that the methods below read or write. *)
Record t := {
  perplexity : R;
  learningRate : R;
  momentum : R;
  earlyExaggeration : R;
  exaggerationIter : nat;
  maxIter : nat;
  targetDim : nat;
  n : nat;
  D : list (list R);
  sigmas : list R;
  Pcond : list (list R);
  P : list (list R);
  Porig : list (list R);
  Y : list (list R);
  Yprev : list (list R);
  gradient : list (list R);
  iteration : nat;
  exaggerationActive : bool;
  embedHistory : list (list (list R))
}.

Definition set_P (v : list (list R)) (this : t) : t :=
  {| perplexity := perplexity this; learningRate := learningRate this;
  momentum := momentum this; earlyExaggeration := earlyExaggeration this;
  exaggerationIter := exaggerationIter this; maxIter := maxIter this;
  targetDim := targetDim this; n := n this; D := D this; sigmas := sigmas
  this; Pcond := Pcond this; P := v; Porig := Porig this; Y := Y this; Yprev
  := Yprev this; gradient := gradient this; iteration := iteration this;
  exaggerationActive := exaggerationActive this; embedHistory :=
  embedHistory this |}.

Definition set_Porig (v : list (list R)) (this : t) : t :=
  {| perplexity := perplexity this; learningRate := learningRate this;
  momentum := momentum this; earlyExaggeration := earlyExaggeration this;
  exaggerationIter := exaggerationIter this; maxIter := maxIter this;
  targetDim := targetDim this; n := n this; D := D this; sigmas := sigmas
  this; Pcond := Pcond this; P := P this; Porig := v; Y := Y this; Yprev :=
  Yprev this; gradient := gradient this; iteration := iteration this;
  exaggerationActive := exaggerationActive this; embedHistory :=
  embedHistory this |}.

Definition set_Y (v : list (list R)) (this : t) : t :=
  {| perplexity := perplexity this; learningRate := learningRate this;
  momentum := momentum this; earlyExaggeration := earlyExaggeration this;
  exaggerationIter := exaggerationIter this; maxIter := maxIter this;
  targetDim := targetDim this; n := n this; D := D this; sigmas := sigmas
  this; Pcond := Pcond this; P := P this; Porig := Porig this; Y := v; Yprev
  := Yprev this; gradient := gradient this; iteration := iteration this;
  exaggerationActive := exaggerationActive this; embedHistory :=
  embedHistory this |}.

Definition set_Yprev (v : list (list R)) (this : t) : t :=
  {| perplexity := perplexity this; learningRate := learningRate this;
  momentum := momentum this; earlyExaggeration := earlyExaggeration this;
  exaggerationIter := exaggerationIter this; maxIter := maxIter this;
  targetDim := targetDim this; n := n this; D := D this; sigmas := sigmas
  this; Pcond := Pcond this; P := P this; Porig := Porig this; Y := Y this;
  Yprev := v; gradient := gradient this; iteration := iteration this;
  exaggerationActive := exaggerationActive this; embedHistory :=
  embedHistory this |}.

Definition set_exaggerationActive (v : bool) (this : t) : t :=
  {| perplexity := perplexity this; learningRate := learningRate this;
  momentum := momentum this; earlyExaggeration := earlyExaggeration this;
  exaggerationIter := exaggerationIter this; maxIter := maxIter this;
  targetDim := targetDim this; n := n this; D := D this; sigmas := sigmas
  this; Pcond := Pcond this; P := P this; Porig := Porig this; Y := Y this;
  Yprev := Yprev this; gradient := gradient this; iteration := iteration
  this; exaggerationActive := v; embedHistory := embedHistory this |}.

Definition set_embedHistory (v : list (list (list R))) (this : t) : t :=
  {| perplexity := perplexity this; learningRate := learningRate this;
  momentum := momentum this; earlyExaggeration := earlyExaggeration this;
  exaggerationIter := exaggerationIter this; maxIter := maxIter this;
  targetDim := targetDim this; n := n this; D := D this; sigmas := sigmas
  this; Pcond := Pcond this; P := P this; Porig := Porig this; Y := Y this;
  Yprev := Yprev this; gradient := gradient this; iteration := iteration
  this; exaggerationActive := exaggerationActive this; embedHistory := v |}.

Definition set_n (v : nat) (this : t) : t :=
  {| perplexity := perplexity this; learningRate := learningRate this;
  momentum := momentum this; earlyExaggeration := earlyExaggeration this;
  exaggerationIter := exaggerationIter this; maxIter := maxIter this;
  targetDim := targetDim this; n := v; D := D this; sigmas := sigmas this;
  Pcond := Pcond this; P := P this; Porig := Porig this; Y := Y this; Yprev
  := Yprev this; gradient := gradient this; iteration := iteration this;
  exaggerationActive := exaggerationActive this; embedHistory :=
  embedHistory this |}.

Definition set_Pcond (v : list (list R)) (this : t) : t :=
  {| perplexity := perplexity this; learningRate := learningRate this;
  momentum := momentum this; earlyExaggeration := earlyExaggeration this;
  exaggerationIter := exaggerationIter this; maxIter := maxIter this;
  targetDim := targetDim this; n := n this; D := D this; sigmas := sigmas
  this; Pcond := v; P := P this; Porig := Porig this; Y := Y this; Yprev :=
  Yprev this; gradient := gradient this; iteration := iteration this;
  exaggerationActive := exaggerationActive this; embedHistory :=
  embedHistory this |}.

Definition set_gradient (v : list (list R)) (this : t) : t :=
  {| perplexity := perplexity this; learningRate := learningRate this;
  momentum := momentum this; earlyExaggeration := earlyExaggeration this;
  exaggerationIter := exaggerationIter this; maxIter := maxIter this;
  targetDim := targetDim this; n := n this; D := D this; sigmas := sigmas
  this; Pcond := Pcond this; P := P this; Porig := Porig this; Y := Y this;
  Yprev := Yprev this; gradient := v; iteration := iteration this;
  exaggerationActive := exaggerationActive this; embedHistory :=
  embedHistory this |}.

Definition set_iteration (v : nat) (this : t) : t :=
  {| perplexity := perplexity this; learningRate := learningRate this;
  momentum := momentum this; earlyExaggeration := earlyExaggeration this;
  exaggerationIter := exaggerationIter this; maxIter := maxIter this;
  targetDim := targetDim this; n := n this; D := D this; sigmas := sigmas
  this; Pcond := Pcond this; P := P this; Porig := Porig this; Y := Y this;
  Yprev := Yprev this; gradient := gradient this; iteration := v;
  exaggerationActive := exaggerationActive this; embedHistory :=
  embedHistory this |}.

(** The constructor followed by [reset]. *)
Definition new (o : options) : t :=
  {| perplexity := nullish_R (o_perplexity o) 30;
     learningRate := nullish_R (o_learningRate o) 200;
     momentum := nullish_R (o_momentum o) 0.8;
     earlyExaggeration := nullish_R (o_earlyExaggeration o) 4;
     exaggerationIter := nullish_nat (o_exaggerationIter o) 250;
     maxIter := nullish_nat (o_maxIter o) 1000;
     targetDim := nullish_nat (o_targetDim o) 2;
     n := 0; D := []; sigmas := []; Pcond := []; P := []; Porig := [];
     Y := []; Yprev := []; gradient := []; iteration := 0;
     exaggerationActive := false; embedHistory := [] |}.

(** [new TSNE()]: no option is given. *)
Definition no_options : options :=
  {| o_perplexity := None; o_learningRate := None; o_momentum := None;
     o_earlyExaggeration := None; o_exaggerationIter := None;
     o_maxIter := None; o_targetDim := None |}.

Definition _symmetrizeP (this : t) : t :=
  let this := set_P (zeros2 (n this) (n this)) this in
  let this :=
    set_P
      (for_range 0 (n this) (fun i P =>
         for_range (i + 1) (n this) (fun j P =>
           let pij :=
             (mget (Pcond this) i j + mget (Pcond this) j i)
             / (2 * INR (n this)) in
           let P := mset P i j pij in
           mset P j i pij) P) (P this))
      this in
  set_Porig (clone2D (P this)) this.

Definition _applyExaggeration (this : t) : t :=
  let this :=
    set_P
      (for_range 0 (n this) (fun i P =>
         for_range 0 (n this) (fun j P =>
           mset P i j (mget P i j * earlyExaggeration this)) P) (P this))
      this in
  set_exaggerationActive true this.

Definition _removeExaggeration (this : t) : t :=
  let this :=
    set_P
      (for_range 0 (n this) (fun i P =>
         for_range 0 (n this) (fun j P =>
           mset P i j (mget P i j / earlyExaggeration this)) P) (P this))
      this in
  set_exaggerationActive false this.

Definition _initializeEmbedding (random : nat -> R) (this : t) : t :=
  let this :=
    set_Y (initializeEmbedding random (n this) (targetDim this) 0.0001) this in
  let this := set_Yprev (clone2D (Y this)) this in
  set_embedHistory (embedHistory this ++ [clone2D (Y this)]) this.

Definition _updateEmbedding (this : t) : t :=
  let Ynew := zeros2 (n this) (targetDim this) in
  let Ynew :=
    for_range 0 (n this) (fun i Ynew =>
      for_range 0 (targetDim this) (fun d Ynew =>
        let gradStep := learningRate this * mget (gradient this) i d in
        let momentumStep :=
          momentum this * (mget (Y this) i d - mget (Yprev this) i d) in
        mset Ynew i d (mget (Y this) i d - gradStep + momentumStep)) Ynew)
      Ynew in
  let this := set_Yprev (clone2D (Y this)) this in
  let this := set_Y Ynew this in
  if Nat.eqb (iteration this mod 10) 0
  then set_embedHistory (embedHistory this ++ [clone2D (Y this)]) this
  else this.

End TSNE.

(** ** Notions used in the statements *)

(** The Gaussian kernel value of [computeConditionalProbabilities] for the
    entry [j] of a row of squared distances. *)
Definition kernel (distances : list R) (sigma : R) (j : nat) : R :=
  exp (- aget distances j / (2 * sigma * sigma)).

(** The kernel value that [_computeConditionalP] of the precomputed engine
    computes for the entry [i], [j]. *)
Definition engine_kernel (this : PrecomputedTSNE.t) (i j : nat) : R :=
  let sigma := aget (PrecomputedTSNE.sigmas this) i in
  let dist := mget (PrecomputedTSNE.distanceMatrix this) i j in
  exp (- dist * dist / (2 * sigma * sigma)).

(** The mean of column [d] over the first [n] rows. *)
Definition col_mean (n : nat) (M : list (list R)) (d : nat) : R :=
  sumR (fun i => mget M i d) n / INR n.

(** The positions of the precomputed engine before centering, after
    [embedding[i][d] += velocity[i][d]] with the momentum [mom]. *)
Definition moved (this : PrecomputedTSNE.t) (mom : R) (a b : nat) : R :=
  mget (PrecomputedTSNE.embedding this) a b
  + (mom * mget (PrecomputedTSNE.velocity this) a b
     - PrecomputedTSNE.learningRate (PrecomputedTSNE.cfg this)
       * mget (PrecomputedTSNE.gradient this) a b).

(** The momentum that [_updateEmbedding] of the precomputed engine uses at
    an iteration. *)
Definition momentum_at (this : PrecomputedTSNE.t) (iteration : nat) : R :=
  if Nat.ltb iteration
       (PrecomputedTSNE.momentumSwitchIter (PrecomputedTSNE.cfg this))
  then PrecomputedTSNE.momentum (PrecomputedTSNE.cfg this)
  else PrecomputedTSNE.finalMomentum (PrecomputedTSNE.cfg this).

(** The binary search of [findSigma] as a transition system: the bracket
    and the current guess, the test that ends the search, and the update
    of one iteration that does not end it. *)
Record bracket := {
  b_min : R;
  b_max : R;
  b_sigma : R
}.

Definition search_start : bracket :=
  {| b_min := 1e-10; b_max := 1e10; b_sigma := 1 |}.

Definition entropy_at (distances : list R) (i : nat) (sigma : R) : R :=
  shannonEntropy (computeConditionalProbabilities distances sigma i).

Definition search_done (distances : list R) (i : nat) (target : R)
    (b : bracket) : Prop :=
  Rabs (entropy_at distances i (b_sigma b) - target) < 1e-5.

Definition search_step (distances : list R) (i : nat) (target : R)
    (b : bracket) : bracket :=
  if decide (0 < entropy_at distances i (b_sigma b) - target) then
    {| b_min := b_min b; b_max := b_sigma b;
       b_sigma := (b_min b + b_sigma b) / 2 |}
  else
    {| b_min := b_sigma b; b_max := b_max b;
       b_sigma := if decide (b_max b = 1e10)
                  then (b_sigma b + b_max b) / 2 * 2
                  else (b_sigma b + b_max b) / 2 |}.

(** The bracket after [k] iterations that did not end the search. *)
Definition search_iter (distances : list R) (i : nat) (target : R)
    (k : nat) : bracket :=
  Nat.iter k (search_step distances i target) search_start.

(** [records ty this this']: from [this] to [this'] one snapshot of type
    [ty] was pushed with the next step identifier, and the number of
    points and the configuration are unchanged. *)
Definition records (ty : PrecomputedTSNE.TSNESteps)
    (this this' : PrecomputedTSNE.t) : Prop :=
  (exists d l x,
     PrecomputedTSNE.snapshots this'
     = PrecomputedTSNE.snapshots this
       ++ [ {| PrecomputedTSNE.stepId := PrecomputedTSNE.stepIndex this;
               PrecomputedTSNE.stepType := ty;
               PrecomputedTSNE.data := d;
               PrecomputedTSNE.s_labels := l;
               PrecomputedTSNE.s_inputData := x |} ]) /\
  PrecomputedTSNE.stepIndex this' = S (PrecomputedTSNE.stepIndex this) /\
  PrecomputedTSNE.n this' = PrecomputedTSNE.n this /\
  PrecomputedTSNE.cfg this' = PrecomputedTSNE.cfg this.

(** [keeps this this']: no snapshot was pushed, and the number of points
    and the configuration are unchanged. *)
Definition keeps (this this' : PrecomputedTSNE.t) : Prop :=
  PrecomputedTSNE.snapshots this' = PrecomputedTSNE.snapshots this /\
  PrecomputedTSNE.stepIndex this' = PrecomputedTSNE.stepIndex this /\
  PrecomputedTSNE.n this' = PrecomputedTSNE.n this /\
  PrecomputedTSNE.cfg this' = PrecomputedTSNE.cfg this.

(** The step types and identifiers of the snapshots of an engine. *)
Definition step_types (this : PrecomputedTSNE.t)
    : list PrecomputedTSNE.TSNESteps :=
  map PrecomputedTSNE.stepType (PrecomputedTSNE.snapshots this).

Definition step_ids (this : PrecomputedTSNE.t) : list nat :=
  map PrecomputedTSNE.stepId (PrecomputedTSNE.snapshots this).

(** Two sources of draws that differ after the fourth call. *)
Definition draws_a : PrecomputedTSNE.draws := fun _ => (1 / 2, 1 / 4).

Definition draws_b : PrecomputedTSNE.draws :=
  fun k => if Nat.ltb k 4 then (1 / 2, 1 / 4) else (1 / 3, 1 / 5).

(** A decision procedure for [shape]. *)
Definition shapeb (n m : nat) (M : list (list R)) : bool :=
  Nat.eqb (length M) n && forallb (fun row => Nat.eqb (length row) m) M.

(** ** Concrete engines *)

(** A precomputed engine with two points at squared distance [1]. *)
Definition engine2 : PrecomputedTSNE.t :=
  PrecomputedTSNE.set_n 2
    (PrecomputedTSNE.set_distanceMatrix [[0; 1]; [1; 0]]
       (PrecomputedTSNE.set_sigmas [1; 1]
          (PrecomputedTSNE.set_P_conditional [[0; 1]; [1; 0]]
             (PrecomputedTSNE.set_P [[1e-12; 0.25]; [0.25; 1e-12]]
                (PrecomputedTSNE.set_embedding [[1; 2]; [3; 4]]
                   (PrecomputedTSNE.set_velocity [[0; 0]; [0; 0]]
                      (PrecomputedTSNE.set_gradient [[0; 0]; [0; 0]]
                         (PrecomputedTSNE.new PrecomputedTSNE.no_options)))))))).

(** A step-by-step engine with one point on a line: the point moved from
    [0] to [1] in the previous iteration and its gradient is zero. *)
Definition tsne1 : TSNE.t :=
  TSNE.set_n 1
    (TSNE.set_Y [[1]]
       (TSNE.set_Yprev [[0]]
          (TSNE.set_gradient [[0]]
             (TSNE.new
                {| TSNE.o_perplexity := None; TSNE.o_learningRate := None;
                   TSNE.o_momentum := None; TSNE.o_earlyExaggeration := None;
                   TSNE.o_exaggerationIter := None; TSNE.o_maxIter := None;
                   TSNE.o_targetDim := Some 1%nat |})))).

(** A step-by-step engine with two points and a conditional matrix. *)
Definition tsne2 : TSNE.t :=
  TSNE.set_n 2
    (TSNE.set_Pcond [[0; 1]; [1; 0]]
       (TSNE.set_P [[0; 0.25]; [0.25; 0]] (TSNE.new TSNE.no_options))).

(** The same engine configured with the exaggeration factor [0]. *)
Definition tsne2_zero : TSNE.t :=
  TSNE.set_n 2
    (TSNE.set_P [[0; 0.25]; [0.25; 0]]
       (TSNE.new
          {| TSNE.o_perplexity := None; TSNE.o_learningRate := None;
             TSNE.o_momentum := None; TSNE.o_earlyExaggeration := Some 0;
             TSNE.o_exaggerationIter := None; TSNE.o_maxIter := None;
             TSNE.o_targetDim := None |})).

(** ** Notions used in the further statements *)

(** The unnormalised kernel of two points of the embedding. *)
Definition student_kernel (Y : list (list R)) (i j : nat) : R :=
  1 / (1 + squaredEuclideanDistance (mrow Y i) (mrow Y j)).

(** The sum that [computeQMatrix] accumulates: twice the kernel of every
    pair [i < j]. *)
Definition student_total (Y : list (list R)) : R :=
  for_range 0 (length Y) (fun i sum =>
    for_range (i + 1) (length Y) (fun j sum =>
      sum + 2 * student_kernel Y i j) sum) 0.

(** The term that the pair [i], [j] adds to the gradient of point [i] in
    the dimension [dim]. *)
Definition gradient_term (P Q Y : list (list R)) (dim i j : nat) : R :=
  4 * (mget P i j - mget Q i j) * student_kernel Y i j
  * (mget Y i dim - mget Y j dim).

(** The sum of [f i j] over all ordered pairs of distinct indices. *)
Definition pair_sum (f : nat -> nat -> R) (n : nat) : R :=
  sumR (fun i => sum_except i (f i) n) n.

(** The iterations that [_runIterations] captures. *)
Definition captured_iterations (this : PrecomputedTSNE.t) : list nat :=
  List.filter
    (fun k => existsb (Nat.eqb k) (PrecomputedTSNE.captureIterations this))
    (seq 1 (PrecomputedTSNE.maxIterations (PrecomputedTSNE.cfg this) - 1)).

(** Every dimension of the embedding has mean zero. *)
Definition centered (this : PrecomputedTSNE.t) : Prop :=
  forall d, (d < PrecomputedTSNE.targetDim (PrecomputedTSNE.cfg this))%nat ->
    col_mean (PrecomputedTSNE.n this) (PrecomputedTSNE.embedding this) d = 0.

(** The embedding and the velocity have one row per point and one column
    per target dimension. *)
Definition embedding_shaped (this : PrecomputedTSNE.t) : Prop :=
  shape (PrecomputedTSNE.n this)
    (PrecomputedTSNE.targetDim (PrecomputedTSNE.cfg this))
    (PrecomputedTSNE.embedding this) /\
  shape (PrecomputedTSNE.n this)
    (PrecomputedTSNE.targetDim (PrecomputedTSNE.cfg this))
    (PrecomputedTSNE.velocity this).

(** A precomputed engine ready to iterate: the copy of the joint matrix
    is kept and the embedding is centred. *)
Definition engine2_ready : PrecomputedTSNE.t :=
  PrecomputedTSNE.set_P_original [[1e-12; 0.25]; [0.25; 1e-12]]
    (PrecomputedTSNE.set_embedding [[-1; -2]; [1; 2]] engine2).

(** The position of a step in the enumeration [TSNESteps]. *)
Definition step_ordinal (s : PrecomputedTSNE.TSNESteps) : nat :=
  match s with
  | PrecomputedTSNE.INTRO => 0
  | PrecomputedTSNE.INPUT_DATA => 1
  | PrecomputedTSNE.COMPUTE_DISTANCES => 2
  | PrecomputedTSNE.COMPUTE_SIGMAS => 3
  | PrecomputedTSNE.COMPUTE_P_CONDITIONAL => 4
  | PrecomputedTSNE.SYMMETRIZE_P => 5
  | PrecomputedTSNE.EARLY_EXAGGERATION => 6
  | PrecomputedTSNE.INITIALIZE_EMBEDDING => 7
  | PrecomputedTSNE.COMPUTE_Q => 8
  | PrecomputedTSNE.COMPUTE_GRADIENT => 9
  | PrecomputedTSNE.UPDATE_EMBEDDING => 10
  | PrecomputedTSNE.ITERATION_PROGRESS => 11
  | PrecomputedTSNE.REMOVE_EXAGGERATION => 12
  | PrecomputedTSNE.FINAL_RESULT => 13
  end%nat.

(** * Properties *)

(** ** Loops *)

Section LoopFacts.
Context {St : Type}.
Implicit Types (body : nat -> St -> St) (s : St).

Lemma for_loop_snoc body : forall count i s,
  for_loop (S count) i body s
  = body (i + count)%nat (for_loop count i body s).
Proof.
  induction count as [|c IH]; intros i s.
  - simpl. now rewrite Nat.add_0_r.
  - change (for_loop (S (S c)) i body s)
      with (for_loop (S c) (S i) body (body i s)).
    rewrite IH. simpl. do 2 f_equal. lia.
Qed.

Lemma for_range_empty body lo hi s :
  (hi <= lo)%nat -> for_range lo hi body s = s.
Proof.
  intros H. unfold for_range. now replace (hi - lo)%nat with 0%nat by lia.
Qed.

Lemma for_range_last body lo hi s :
  (lo <= hi)%nat ->
  for_range lo (S hi) body s = body hi (for_range lo hi body s).
Proof.
  intros H. unfold for_range.
  replace (S hi - lo)%nat with (S (hi - lo)) by lia.
  rewrite for_loop_snoc. now replace (lo + (hi - lo))%nat with hi by lia.
Qed.

(** The invariant rule: [Inv k] holds before the iteration of index [k]. *)
Lemma for_range_inv (Inv : nat -> St -> Prop) body lo hi s :
  (lo <= hi)%nat ->
  Inv lo s ->
  (forall k s', (lo <= k < hi)%nat -> Inv k s' -> Inv (S k) (body k s')) ->
  Inv hi (for_range lo hi body s).
Proof.
  intros Hle H0 Hstep. induction hi as [|hi IH].
  - assert (lo = 0%nat) as -> by lia. now rewrite for_range_empty.
  - destruct (decide (lo = S hi)) as [->|Hne].
    + now rewrite for_range_empty.
    + rewrite for_range_last by lia. apply Hstep; [lia|].
      apply IH; [lia|]. intros k s' Hk. apply Hstep. lia.
Qed.

(** Two loops whose bodies agree on the indices they run over. *)
Lemma for_range_ext body body' lo hi s :
  (forall k s', (lo <= k < hi)%nat -> body k s' = body' k s') ->
  for_range lo hi body s = for_range lo hi body' s.
Proof.
  intros Hext. destruct (decide (lo <= hi)%nat) as [Hle|Hgt].
  - apply (for_range_inv
             (fun k r => (k <= hi)%nat -> r = for_range lo k body' s));
      [exact Hle| | |lia].
    + intros _. now rewrite for_range_empty.
    + intros k s' Hk IH _. rewrite for_range_last by lia.
      rewrite Hext by lia. f_equal. apply IH. lia.
  - rewrite !for_range_empty by lia. reflexivity.
Qed.
End LoopFacts.

(** ** Sums *)

Lemma sumR_ext (f g : nat -> R) (n : nat) :
  (forall k, (k < n)%nat -> f k = g k) -> sumR f n = sumR g n.
Proof.
  induction n as [|n IH]; intros H; simpl; [reflexivity|].
  rewrite IH, H by (intros; try apply H; lia). reflexivity.
Qed.

Lemma sumR_div (f : nat -> R) (c : R) (n : nat) :
  sumR (fun k => f k / c) n = sumR f n / c.
Proof.
  induction n as [|n IH]; simpl; [unfold Rdiv; ring|].
  rewrite IH. unfold Rdiv. ring.
Qed.

Lemma sumR_minus_const (f : nat -> R) (c : R) (n : nat) :
  sumR (fun k => f k - c) n = sumR f n - INR n * c.
Proof.
  induction n as [|n IH]; [simpl; ring|].
  rewrite S_INR. simpl. rewrite IH. ring.
Qed.

Lemma sumR_nonneg (f : nat -> R) (n : nat) :
  (forall k, (k < n)%nat -> 0 <= f k) -> 0 <= sumR f n.
Proof.
  induction n as [|n IH]; intros H; simpl; [lra|].
  assert (0 <= sumR f n) by (apply IH; intros; apply H; lia).
  assert (0 <= f n) by (apply H; lia). lra.
Qed.

Lemma sumR_term_le (f : nat -> R) (n k : nat) :
  (forall j, (j < n)%nat -> 0 <= f j) -> (k < n)%nat -> f k <= sumR f n.
Proof.
  induction n as [|n IH]; intros H Hk; [lia|]. simpl.
  assert (0 <= f n) by (apply H; lia).
  assert (0 <= sumR f n) by (apply sumR_nonneg; intros; apply H; lia).
  destruct (decide (k = n)) as [->|Hne]; [lra|].
  assert (f k <= sumR f n) by (apply IH; [intros; apply H|]; lia). lra.
Qed.

(** The accumulation [acc += f k] of a loop is [sumR]. *)
Lemma for_range_sum (f : nat -> R) (n : nat) :
  for_range 0 n (fun k acc => acc + f k) 0 = sumR f n.
Proof.
  induction n as [|n IH]; [reflexivity|].
  rewrite for_range_last by lia. rewrite IH. reflexivity.
Qed.

(** ** Arrays *)

Lemma aget_aset (v : list R) (j k : nat) (x : R) :
  aget (aset v j x) k
  = if decide (k = j /\ (j < length v)%nat) then x else aget v k.
Proof.
  unfold aget, aset. rewrite list_lookup_insert.
  repeat case_decide; try reflexivity; exfalso; intuition lia.
Qed.

Lemma length_aset (v : list R) (j : nat) (x : R) :
  length (aset v j x) = length v.
Proof. apply length_insert. Qed.

Lemma aget_zeros (n k : nat) : aget (zeros n) k = 0.
Proof.
  unfold aget, zeros. destruct (replicate n 0 !! k) as [x|] eqn:E; [|reflexivity].
  apply lookup_replicate in E as [-> _]. reflexivity.
Qed.

Lemma length_zeros (n : nat) : length (zeros n) = n.
Proof. apply length_replicate. Qed.

Lemma aget_outside (v : list R) (k : nat) :
  (length v <= k)%nat -> aget v k = 0.
Proof. intros H. unfold aget. now rewrite lookup_ge_None_2. Qed.

Lemma shape_zeros2 (n m : nat) : shape n m (zeros2 n m).
Proof.
  split; [apply length_replicate|].
  intros i row E. apply lookup_replicate in E as [-> _]. apply length_zeros.
Qed.

Lemma mget_zeros2 (n m a b : nat) : mget (zeros2 n m) a b = 0.
Proof.
  unfold mget, mrow, zeros2.
  destruct (replicate n (zeros m) !! a) as [row|] eqn:E; simpl.
  - apply lookup_replicate in E as [-> _]. apply aget_zeros.
  - reflexivity.
Qed.

Lemma shape_row (n m : nat) (M : list (list R)) (i : nat) :
  shape n m M -> (i < n)%nat -> length (mrow M i) = m.
Proof.
  intros [Hn Hm] Hi. unfold mrow.
  destruct (lookup_lt_is_Some_2 M i) as [row E]; [lia|].
  rewrite E. simpl. eauto.
Qed.

Lemma shape_mset (n m : nat) (M : list (list R)) (i j : nat) (x : R) :
  shape n m M -> shape n m (mset M i j x).
Proof.
  intros [Hn Hm]. unfold mset. split; [now rewrite length_alter|].
  intros k row. rewrite list_lookup_alter. case_decide as E.
  - subst k. destruct (M !! i) as [r|] eqn:Hr; simpl; [|discriminate].
    intros [= <-]. rewrite length_aset. eauto.
  - eauto.
Qed.

Lemma mget_mset (n m : nat) (M : list (list R)) (i j a b : nat) (x : R) :
  shape n m M -> (i < n)%nat -> (j < m)%nat ->
  mget (mset M i j x) a b = if decide (a = i /\ b = j) then x else mget M a b.
Proof.
  intros HM Hi Hj. pose proof (shape_row _ _ _ _ HM Hi) as Hrow.
  unfold mget, mrow, mset in *. rewrite list_lookup_alter.
  destruct (decide (i = a)) as [->|Hne].
  - destruct (M !! a) as [r|] eqn:Hr; simpl in *.
    + rewrite aget_aset. repeat case_decide; try reflexivity; exfalso; intuition lia.
    + destruct HM as [Hn _]. apply lookup_ge_None_1 in Hr. lia.
  - case_decide; [exfalso; intuition lia|reflexivity].
Qed.

(** Two arrays of arrays of one shape with the same entries are equal. *)
Lemma shape_ext (n m : nat) (M M' : list (list R)) :
  shape n m M -> shape n m M' ->
  (forall a b, (a < n)%nat -> (b < m)%nat -> mget M a b = mget M' a b) ->
  M = M'.
Proof.
  intros [Hn Hm] [Hn' Hm'] Heq. apply list_eq. intros a.
  destruct (decide (a < n)%nat) as [Ha|Ha].
  - destruct (lookup_lt_is_Some_2 M a) as [r E]; [lia|].
    destruct (lookup_lt_is_Some_2 M' a) as [r' E']; [lia|].
    rewrite E, E'. f_equal. apply list_eq. intros b.
    pose proof (Hm _ _ E) as Hr. pose proof (Hm' _ _ E') as Hr'.
    destruct (decide (b < m)%nat) as [Hb|Hb].
    + specialize (Heq a b Ha Hb). unfold mget, mrow, aget in Heq.
      rewrite E, E' in Heq. simpl in Heq.
      destruct (lookup_lt_is_Some_2 r b) as [x Ex]; [lia|].
      destruct (lookup_lt_is_Some_2 r' b) as [x' Ex']; [lia|].
      rewrite Ex, Ex' in *. simpl in Heq. now subst.
    + rewrite !lookup_ge_None_2 by lia. reflexivity.
  - rewrite !lookup_ge_None_2 by lia. reflexivity.
Qed.

Lemma deepClone_id {A : Type} (arr : list A) : deepClone arr = arr.
Proof. unfold deepClone. apply map_id. Qed.

Lemma clone2D_id (arr : list (list R)) : clone2D arr = arr.
Proof. unfold clone2D. apply map_id. Qed.

(** ** Loops that rewrite the cells of an array of arrays *)

Ltac cases := repeat case_decide; try reflexivity; try (exfalso; intuition lia).

(** [for j < c: M[i][j] = f j M[i][j]]. *)
Lemma row_loop (n m : nat) (M : list (list R)) (i c : nat) (f : nat -> R -> R) :
  shape n m M -> (i < n)%nat -> (c <= m)%nat ->
  let M' := for_range 0 c (fun j M => mset M i j (f j (mget M i j))) M in
  shape n m M' /\
  forall a b, mget M' a b
              = if decide (a = i /\ (b < c)%nat) then f b (mget M a b)
                else mget M a b.
Proof.
  intros HM Hi Hc M'. subst M'.
  pose (Inv := fun (k : nat) (M1 : list (list R)) =>
    shape n m M1 /\
    forall a b, mget M1 a b
                = if decide (a = i /\ (b < k)%nat) then f b (mget M a b)
                  else mget M a b).
  apply (for_range_inv Inv); subst Inv; cbv beta; [lia| |].
  - split; [exact HM|]. intros a b. cases.
  - intros k M1 Hk [HM1 IH]. split; [now apply shape_mset|].
    intros a b. rewrite (mget_mset n m) by (auto; lia).
    rewrite !IH. cases. destruct H as [-> ->]. reflexivity.
Qed.

(** [for i < r: M[i][d] = f i M[i][d]]. *)
Lemma col_loop (n m : nat) (M : list (list R)) (d r : nat) (f : nat -> R -> R) :
  shape n m M -> (d < m)%nat -> (r <= n)%nat ->
  let M' := for_range 0 r (fun i M => mset M i d (f i (mget M i d))) M in
  shape n m M' /\
  forall a b, mget M' a b
              = if decide ((a < r)%nat /\ b = d) then f a (mget M a b)
                else mget M a b.
Proof.
  intros HM Hd Hr M'. subst M'.
  pose (Inv := fun (k : nat) (M1 : list (list R)) =>
    shape n m M1 /\
    forall a b, mget M1 a b
                = if decide ((a < k)%nat /\ b = d) then f a (mget M a b)
                  else mget M a b).
  apply (for_range_inv Inv); subst Inv; cbv beta; [lia| |].
  - split; [exact HM|]. intros a b. cases.
  - intros k M1 Hk [HM1 IH]. split; [now apply shape_mset|].
    intros a b. rewrite (mget_mset n m) by (auto; lia).
    rewrite !IH. cases. destruct H as [-> ->]. reflexivity.
Qed.

(** [for i < r: for j < c: M[i][j] = f i j M[i][j]]. *)
Lemma grid_loop (n m : nat) (M : list (list R)) (r c : nat)
    (f : nat -> nat -> R -> R) :
  shape n m M -> (r <= n)%nat -> (c <= m)%nat ->
  let M' :=
    for_range 0 r (fun i M =>
      for_range 0 c (fun j M => mset M i j (f i j (mget M i j))) M) M in
  shape n m M' /\
  forall a b, mget M' a b
              = if decide ((a < r)%nat /\ (b < c)%nat) then f a b (mget M a b)
                else mget M a b.
Proof.
  intros HM Hr Hc M'. subst M'.
  pose (Inv := fun (k : nat) (M1 : list (list R)) =>
    shape n m M1 /\
    forall a b, mget M1 a b
                = if decide ((a < k)%nat /\ (b < c)%nat) then f a b (mget M a b)
                  else mget M a b).
  apply (for_range_inv Inv); subst Inv; cbv beta; [lia| |].
  - split; [exact HM|]. intros a b. cases.
  - intros k M1 Hk [HM1 IH].
    destruct (row_loop n m M1 k c (f k) HM1) as [HM2 Hget]; [lia|lia|].
    split; [exact HM2|]. intros a b. rewrite Hget, !IH. cases.
    destruct H as [-> _]. reflexivity.
Qed.

(** [for j < c: v[j] = f j v[j]]. *)
Lemma vec_loop (v : list R) (c : nat) (f : nat -> R -> R) :
  (c <= length v)%nat ->
  let v' := for_range 0 c (fun j v => aset v j (f j (aget v j))) v in
  length v' = length v /\
  forall a, aget v' a = if decide (a < c)%nat then f a (aget v a) else aget v a.
Proof.
  intros Hc v'. subst v'.
  pose (Inv := fun (k : nat) (v1 : list R) =>
    length v1 = length v /\
    forall a, aget v1 a
              = if decide (a < k)%nat then f a (aget v a) else aget v a).
  apply (for_range_inv Inv); subst Inv; cbv beta; [lia| |].
  - split; [reflexivity|]. intros a. cases.
  - intros k v1 Hk [Hlen IH]. split; [now rewrite length_aset|].
    intros a. rewrite aget_aset, !IH, Hlen. cases.
    destruct H as [-> _]. reflexivity.
Qed.

Lemma sum_except_S (i : nat) (f : nat -> R) (k : nat) :
  sum_except i f (S k)
  = sum_except i f k + (if Nat.eqb k i then 0 else f k).
Proof. reflexivity. Qed.

(** The first loop of [computeConditionalProbabilities]. *)
Lemma kernel_loop (distances : list R) (sigma : R) (i : nat) :
  let n := length distances in
  let r :=
    for_range 0 n (fun j '(P, sum) =>
      if negb (Nat.eqb j i) then
        let P := aset P j (exp (- aget distances j / (2 * sigma * sigma))) in
        (P, sum + aget P j)
      else (P, sum)) (zeros n, 0) in
  length (fst r) = n /\
  (forall a, aget (fst r) a
             = if decide ((a < n)%nat /\ a <> i) then kernel distances sigma a
               else 0) /\
  snd r = sum_except i (kernel distances sigma) n.
Proof.
  intros n r. subst r.
  pose (Inv := fun (k : nat) (s : list R * R) =>
    length (fst s) = n /\
    (forall a, aget (fst s) a
               = if decide ((a < k)%nat /\ a <> i)
                 then kernel distances sigma a else 0) /\
    snd s = sum_except i (kernel distances sigma) k).
  apply (for_range_inv Inv); subst Inv; cbv beta; [lia| |].
  - simpl. split; [apply length_zeros|]. split; [|reflexivity].
    intros a. rewrite aget_zeros. cases.
  - intros k [P sum] Hk (Hlen & IH & Hsum). simpl in *.
    rewrite sum_except_S. destruct (Nat.eqb_spec k i) as [->|Hne]; simpl.
    + split; [exact Hlen|]. split; [|lra].
      intros a. rewrite IH. cases.
    + split; [now rewrite length_aset|]. split.
      * intros a. rewrite aget_aset, IH, Hlen. cases.
        destruct H as [-> _]. reflexivity.
      * rewrite aget_aset, Hlen, Hsum. cases.
Qed.

(** What [computeConditionalProbabilities] returns, entry by entry. *)
Lemma computeConditionalProbabilities_entries
    (distances : list R) (sigma : R) (i : nat) :
  let n := length distances in
  let ksum := sum_except i (kernel distances sigma) n in
  let P := computeConditionalProbabilities distances sigma i in
  length P = n /\
  forall a, aget P a
            = if decide ((a < n)%nat /\ a <> i) then
                if decide (1e-12 < ksum)
                then kernel distances sigma a / ksum
                else kernel distances sigma a
              else 0.
Proof.
  intros n ksum P. subst P. unfold computeConditionalProbabilities.
  pose proof (kernel_loop distances sigma i) as H. cbv zeta in H.
  fold n in H |- *.
  destruct (for_range 0 n _ (zeros n, 0)) as [P1 sum1].
  simpl in H. destruct H as (Hlen & Hget & Hsum). fold ksum in Hsum. subst sum1.
  case_decide as Hk.
  - destruct (vec_loop P1 n (fun _ x => x / ksum)) as [Hlen' Hget']; [lia|].
    split; [congruence|]. intros a. rewrite Hget', Hget. cases.
    unfold Rdiv. ring.
  - split; [exact Hlen|]. intros a. rewrite Hget. cases.
Qed.

Lemma sum_except_ext (i : nat) (f g : nat -> R) (n : nat) :
  (forall k, (k < n)%nat -> k <> i -> f k = g k) ->
  sum_except i f n = sum_except i g n.
Proof.
  intros H. apply sumR_ext. intros k Hk.
  destruct (Nat.eqb_spec k i); [reflexivity|]. now apply H.
Qed.

Lemma sum_except_div (i : nat) (f : nat -> R) (c : R) (n : nat) :
  sum_except i (fun k => f k / c) n = sum_except i f n / c.
Proof.
  unfold sum_except. rewrite <- sumR_div. apply sumR_ext. intros k _.
  destruct (Nat.eqb k i); [unfold Rdiv; ring|reflexivity].
Qed.

Lemma sum_except_pos (i : nat) (f : nat -> R) (n k : nat) :
  (forall j, 0 < f j) -> (k < n)%nat -> k <> i -> 0 < sum_except i f n.
Proof.
  intros Hf Hk Hne. unfold sum_except.
  set (g := fun j => if Nat.eqb j i then 0 else f j).
  assert (Hg : forall j, (j < n)%nat -> 0 <= g j).
  { intros j _. unfold g. destruct (Nat.eqb j i); [lra|]. left. apply Hf. }
  pose proof (sumR_term_le g n k Hg Hk) as Hle.
  assert (g k = f k) as Hgk.
  { unfold g. destruct (Nat.eqb_spec k i); [contradiction|reflexivity]. }
  specialize (Hf k). lra.
Qed.

(** The kernel loop of one row of [_computeConditionalP]. *)
Lemma engine_kernel_loop (this : PrecomputedTSNE.t) (P0 : list (list R)) (i : nat) :
  let n := PrecomputedTSNE.n this in
  shape n n P0 -> (i < n)%nat ->
  let r :=
    for_range 0 n (fun j '(P, sum) =>
      if negb (Nat.eqb i j) then
        let dist := mget (PrecomputedTSNE.distanceMatrix this) i j in
        let P :=
          mset P i j
            (exp (- dist * dist
                  / (2 * aget (PrecomputedTSNE.sigmas this) i
                     * aget (PrecomputedTSNE.sigmas this) i))) in
        (P, sum + mget P i j)
      else (P, sum)) (P0, 0) in
  shape n n (fst r) /\
  (forall a b, mget (fst r) a b
               = if decide (a = i /\ (b < n)%nat /\ b <> i)
                 then engine_kernel this i b else mget P0 a b) /\
  snd r = sum_except i (engine_kernel this i) n.
Proof.
  intros n HP Hi r. subst r.
  pose (Inv := fun (k : nat) (s : list (list R) * R) =>
    shape n n (fst s) /\
    (forall a b, mget (fst s) a b
                 = if decide (a = i /\ (b < k)%nat /\ b <> i)
                   then engine_kernel this i b else mget P0 a b) /\
    snd s = sum_except i (engine_kernel this i) k).
  apply (for_range_inv Inv); subst Inv; cbv beta; [lia| |].
  - simpl. split; [exact HP|]. split; [|reflexivity]. intros a b. cases.
  - intros k [P sum] Hk (HP1 & IH & Hsum). simpl in *.
    rewrite sum_except_S. rewrite (Nat.eqb_sym i k).
    destruct (Nat.eqb_spec k i) as [->|Hne]; simpl.
    + split; [exact HP1|]. split; [|lra]. intros a b. rewrite IH. cases.
    + split; [now apply shape_mset|]. split.
      * intros a b. rewrite (mget_mset n n) by (auto; lia). rewrite IH. cases.
        destruct H as [_ ->]. reflexivity.
      * rewrite (mget_mset n n) by (auto; lia). rewrite Hsum. cases.
Qed.

(** What [_computeConditionalP] returns, entry by entry. *)
Lemma engine_conditional_entries (this : PrecomputedTSNE.t) :
  let n := PrecomputedTSNE.n this in
  let P := PrecomputedTSNE._computeConditionalP this in
  shape n n P /\
  forall a b, mget P a b
              = if decide ((a < n)%nat /\ (b < n)%nat /\ b <> a) then
                  if decide (0 < sum_except a (engine_kernel this a) n)
                  then engine_kernel this a b
                       / sum_except a (engine_kernel this a) n
                  else engine_kernel this a b
                else 0.
Proof.
  intros n P. subst P. unfold PrecomputedTSNE._computeConditionalP. fold n.
  pose (Inv := fun (k : nat) (P1 : list (list R)) =>
    shape n n P1 /\
    forall a b, mget P1 a b
                = if decide ((a < k)%nat /\ (b < n)%nat /\ b <> a) then
                    if decide (0 < sum_except a (engine_kernel this a) n)
                    then engine_kernel this a b
                         / sum_except a (engine_kernel this a) n
                    else engine_kernel this a b
                  else 0).
  apply (for_range_inv Inv); subst Inv; cbv beta; [lia| |].
  - split; [apply shape_zeros2|]. intros a b. rewrite mget_zeros2. cases.
  - intros k P1 Hk [HP1 IH].
    pose proof (engine_kernel_loop this P1 k HP1) as H. cbv zeta in H.
    fold n in H. specialize (H ltac:(lia)).
    destruct (for_range 0 n _ (P1, 0)) as [P2 sum2].
    simpl in H. destruct H as (HP2 & Hget & ->).
    case_decide as Hpos.
    + destruct (row_loop n n P2 k n
                  (fun _ x => x / sum_except k (engine_kernel this k) n) HP2)
        as [HP3 Hget3]; [lia|lia|].
      split; [exact HP3|]. intros a b. rewrite Hget3, Hget, IH.
      cases; try (destruct H as [-> _]; cases).
      unfold Rdiv. ring.
    + split; [exact HP2|]. intros a b. rewrite Hget, IH.
      cases; destruct H as [-> _]; cases.
Qed.

(** ** The mirrored upper-triangle loop *)

(** [for i < n: for j in i+1 .. n-1: M[i][j] = g i j; M[j][i] = g i j]. *)
Lemma mirror_loop (n : nat) (M : list (list R)) (g : nat -> nat -> R) :
  shape n n M ->
  let M' :=
    for_range 0 n (fun i M =>
      for_range (i + 1) n (fun j M =>
        let pij := g i j in
        let M := mset M i j pij in
        mset M j i pij) M) M in
  shape n n M' /\
  forall a b, mget M' a b
              = if decide ((a < n)%nat /\ (b < n)%nat /\ a <> b)
                then g (Nat.min a b) (Nat.max a b) else mget M a b.
Proof.
  intros HM M'. subst M'.
  pose (Inv := fun (k : nat) (M1 : list (list R)) =>
    shape n n M1 /\
    forall a b, mget M1 a b
                = if decide ((Nat.min a b < k)%nat /\
                             (a < n)%nat /\ (b < n)%nat /\ a <> b)
                  then g (Nat.min a b) (Nat.max a b) else mget M a b).
  assert (Inv n (for_range 0 n (fun i M =>
      for_range (i + 1) n (fun j M =>
        let pij := g i j in
        let M := mset M i j pij in
        mset M j i pij) M) M)) as [HM' Hget].
  { apply (for_range_inv Inv); subst Inv; cbv beta; [lia| |].
    - split; [exact HM|]. intros a b. cases.
    - intros i M1 Hi [HM1 IH].
      pose (Inv2 := fun (j : nat) (M2 : list (list R)) =>
        shape n n M2 /\
        forall a b, mget M2 a b
                    = if decide (((Nat.min a b < i)%nat \/
                                  (Nat.min a b = i /\ (Nat.max a b < j)%nat)) /\
                                 (a < n)%nat /\ (b < n)%nat /\ a <> b)
                      then g (Nat.min a b) (Nat.max a b) else mget M a b).
      assert (Inv2 n (for_range (i + 1) n (fun j M =>
        let pij := g i j in
        let M := mset M i j pij in
        mset M j i pij) M1)) as [HM2 Hget2].
      { apply (for_range_inv Inv2); subst Inv2; cbv beta; [lia| |].
        - split; [exact HM1|]. intros a b. rewrite IH. cases.
        - intros j M2 Hj [HM2 IH2]. cbv zeta.
          split; [now do 2 apply shape_mset|].
          intros a b.
          rewrite (mget_mset n n) by (try apply shape_mset; auto; lia).
          rewrite (mget_mset n n) by (auto; lia).
          rewrite IH2. cases; f_equal; lia. }
      split; [exact HM2|]. intros a b. rewrite Hget2. cases. }
  split; [exact HM'|]. intros a b. rewrite Hget. cases.
Qed.

(** ** Symmetrization *)

(** What [_symmetrizeP] of the precomputed engine returns. *)
Lemma engine_symmetrize_entries (this : PrecomputedTSNE.t) :
  let n := PrecomputedTSNE.n this in
  let Pc := PrecomputedTSNE.P_conditional this in
  let P := PrecomputedTSNE._symmetrizeP this in
  shape n n P /\
  forall a b, mget P a b
              = if decide ((a < n)%nat /\ (b < n)%nat) then
                  Rmax (if decide (a <> b)
                        then (mget Pc a b + mget Pc b a) / (2 * INR n)
                        else 0) 1e-12
                else 0.
Proof.
  intros n Pc P. subst P. unfold PrecomputedTSNE._symmetrizeP. fold n. fold Pc.
  cbv zeta.
  destruct (mirror_loop n (zeros2 n n)
              (fun i j => (mget Pc i j + mget Pc j i) / (2 * INR n))
              (shape_zeros2 n n)) as [H1 G1].
  cbv zeta in H1, G1.
  destruct (grid_loop n n _ n n (fun _ _ x => Rmax x 1e-12) H1) as [H2 G2];
    [lia|lia|].
  cbv zeta in H2, G2.
  split; [exact H2|]. intros a b. rewrite G2, G1, mget_zeros2.
  cases.
  destruct (Nat.le_ge_cases a b) as [Hle|Hle].
  - rewrite Nat.min_l, Nat.max_r by lia. reflexivity.
  - rewrite Nat.min_r, Nat.max_l by lia. do 2 f_equal. ring.
Qed.

(** What [_symmetrizeP] of the step-by-step engine stores in [P]. *)
Lemma tsne_symmetrize_entries (this : TSNE.t) :
  let n := TSNE.n this in
  let Pc := TSNE.Pcond this in
  let P := TSNE.P (TSNE._symmetrizeP this) in
  shape n n P /\
  forall a b, mget P a b
              = if decide ((a < n)%nat /\ (b < n)%nat /\ a <> b)
                then (mget Pc a b + mget Pc b a) / (2 * INR n)
                else 0.
Proof.
  intros n Pc P. subst P. unfold TSNE._symmetrizeP. cbn. fold n. fold Pc.
  destruct (mirror_loop n (zeros2 n n)
              (fun i j => (mget Pc i j + mget Pc j i) / (2 * INR n))
              (shape_zeros2 n n)) as [H1 G1].
  cbv zeta in H1, G1.
  split; [exact H1|]. intros a b. rewrite G1, mget_zeros2.
  cases.
  destruct (Nat.le_ge_cases a b) as [Hle|Hle].
  - rewrite Nat.min_l, Nat.max_r by lia. reflexivity.
  - rewrite Nat.min_r, Nat.max_l by lia. f_equal. ring.
Qed.

(** ** The cost skips the diagonal *)

Lemma klDivergence_off_diagonal (P P' Q : list (list R)) :
  length P = length P' ->
  (forall a b, a <> b -> mget P a b = mget P' a b) ->
  klDivergence P Q = klDivergence P' Q.
Proof.
  intros Hlen Hoff. unfold klDivergence. rewrite Hlen.
  apply for_range_ext. intros i kl _.
  apply for_range_ext. intros j kl' _.
  destruct (Nat.eqb_spec i j) as [->|Hne]; simpl; [reflexivity|].
  rewrite (Hoff i j Hne). reflexivity.
Qed.

(** ** Early exaggeration *)

Lemma engine_apply_entries (this : PrecomputedTSNE.t) :
  let n := PrecomputedTSNE.n this in
  shape n n (PrecomputedTSNE.P this) ->
  let P' := PrecomputedTSNE.P (PrecomputedTSNE._applyEarlyExaggeration this) in
  shape n n P' /\
  forall a b, (a < n)%nat -> (b < n)%nat ->
    mget P' a b
    = mget (PrecomputedTSNE.P this) a b
      * PrecomputedTSNE.earlyExaggeration (PrecomputedTSNE.cfg this).
Proof.
  intros n HP P'. subst P'. unfold PrecomputedTSNE._applyEarlyExaggeration.
  cbn. fold n.
  destruct (grid_loop n n (PrecomputedTSNE.P this) n n
              (fun _ _ x =>
                 x * PrecomputedTSNE.earlyExaggeration (PrecomputedTSNE.cfg this))
              HP) as [H G]; [lia|lia|].
  split; [exact H|]. intros a b Ha Hb. cbv zeta in G. rewrite G. cases.
Qed.

(** Removal copies [P_original] back, whatever [P] holds. *)
Lemma engine_remove_restores (this : PrecomputedTSNE.t) :
  let n := PrecomputedTSNE.n this in
  shape n n (PrecomputedTSNE.P this) ->
  shape n n (PrecomputedTSNE.P_original this) ->
  PrecomputedTSNE.P (PrecomputedTSNE._removeEarlyExaggeration this)
  = PrecomputedTSNE.P_original this.
Proof.
  intros n HP HPo. unfold PrecomputedTSNE._removeEarlyExaggeration.
  cbn. fold n.
  destruct (grid_loop n n (PrecomputedTSNE.P this) n n
              (fun i j _ => mget (PrecomputedTSNE.P_original this) i j)
              HP) as [H G]; [lia|lia|].
  cbv zeta in H, G.
  apply (shape_ext n n); [exact H|exact HPo|].
  intros a b Ha Hb. rewrite G. cases.
Qed.

Lemma tsne_apply_entries (this : TSNE.t) :
  let n := TSNE.n this in
  shape n n (TSNE.P this) ->
  let P' := TSNE.P (TSNE._applyExaggeration this) in
  shape n n P' /\
  forall a b, (a < n)%nat -> (b < n)%nat ->
    mget P' a b = mget (TSNE.P this) a b * TSNE.earlyExaggeration this.
Proof.
  intros n HP P'. subst P'. unfold TSNE._applyExaggeration. cbn. fold n.
  destruct (grid_loop n n (TSNE.P this) n n
              (fun _ _ x => x * TSNE.earlyExaggeration this) HP)
    as [H G]; [lia|lia|].
  split; [exact H|]. intros a b Ha Hb. cbv zeta in G. rewrite G. cases.
Qed.

Lemma tsne_remove_entries (this : TSNE.t) :
  let n := TSNE.n this in
  shape n n (TSNE.P this) ->
  let P' := TSNE.P (TSNE._removeExaggeration this) in
  shape n n P' /\
  forall a b, (a < n)%nat -> (b < n)%nat ->
    mget P' a b = mget (TSNE.P this) a b / TSNE.earlyExaggeration this.
Proof.
  intros n HP P'. subst P'. unfold TSNE._removeExaggeration. cbn. fold n.
  destruct (grid_loop n n (TSNE.P this) n n
              (fun _ _ x => x / TSNE.earlyExaggeration this) HP)
    as [H G]; [lia|lia|].
  split; [exact H|]. intros a b Ha Hb. cbv zeta in G. rewrite G. cases.
Qed.

(** ** The embedding update *)

(** The momentum loop of [_updateEmbedding] of the precomputed engine. *)
Lemma momentum_loop (n m : nat) (V E G : list (list R)) (mom lr : R) :
  shape n m V -> shape n m E ->
  let r :=
    for_range 0 n (fun i '(velocity, embedding) =>
      for_range 0 m (fun d '(velocity, embedding) =>
        let velocity :=
          mset velocity i d (mom * mget velocity i d - lr * mget G i d) in
        let embedding :=
          mset embedding i d (mget embedding i d + mget velocity i d) in
        (velocity, embedding)) (velocity, embedding)) (V, E) in
  shape n m (fst r) /\ shape n m (snd r) /\
  forall a b,
    mget (fst r) a b
    = (if decide ((a < n)%nat /\ (b < m)%nat)
       then mom * mget V a b - lr * mget G a b else mget V a b) /\
    mget (snd r) a b
    = (if decide ((a < n)%nat /\ (b < m)%nat)
       then mget E a b + (mom * mget V a b - lr * mget G a b)
       else mget E a b).
Proof.
  intros HV HE r. subst r.
  pose (Inv := fun (k : nat) (s : list (list R) * list (list R)) =>
    shape n m (fst s) /\ shape n m (snd s) /\
    forall a b,
      mget (fst s) a b
      = (if decide ((a < k)%nat /\ (b < m)%nat)
         then mom * mget V a b - lr * mget G a b else mget V a b) /\
      mget (snd s) a b
      = (if decide ((a < k)%nat /\ (b < m)%nat)
         then mget E a b + (mom * mget V a b - lr * mget G a b)
         else mget E a b)).
  apply (for_range_inv Inv); subst Inv; cbv beta; [lia| |].
  - simpl. split; [exact HV|]. split; [exact HE|]. intros a b. split; cases.
  - intros i [V1 E1] Hi (HV1 & HE1 & IH). simpl in HV1, HE1, IH.
    pose (Inv2 := fun (k : nat) (s : list (list R) * list (list R)) =>
      shape n m (fst s) /\ shape n m (snd s) /\
      forall a b,
        mget (fst s) a b
        = (if decide (((a < i)%nat \/ (a = i /\ (b < k)%nat)) /\ (b < m)%nat)
           then mom * mget V a b - lr * mget G a b else mget V a b) /\
        mget (snd s) a b
        = (if decide (((a < i)%nat \/ (a = i /\ (b < k)%nat)) /\ (b < m)%nat)
           then mget E a b + (mom * mget V a b - lr * mget G a b)
           else mget E a b)).
    assert (Inv2 m (for_range 0 m (fun d '(velocity, embedding) =>
        let velocity :=
          mset velocity i d (mom * mget velocity i d - lr * mget G i d) in
        let embedding :=
          mset embedding i d (mget embedding i d + mget velocity i d) in
        (velocity, embedding)) (V1, E1))) as (HV2 & HE2 & IH2).
    { apply (for_range_inv Inv2); subst Inv2; cbv beta; [lia| |].
      - simpl. split; [exact HV1|]. split; [exact HE1|].
        intros a b. destruct (IH a b) as [-> ->]. split; cases.
      - intros d [V2 E2] Hd (HV2 & HE2 & IH2). simpl in HV2, HE2, IH2.
        cbv zeta. simpl.
        split; [now apply shape_mset|]. split; [now apply shape_mset|].
        intros a b.
        rewrite !(mget_mset n m) by (auto; lia).
        destruct (IH2 a b) as [-> ->]. destruct (IH2 i d) as [-> ->].
        split; cases; destruct H as [-> ->]; reflexivity. }
    split; [exact HV2|]. split; [exact HE2|].
    intros a b. destruct (IH2 a b) as [-> ->]. split; cases.
Qed.

(** The centering loop of [_updateEmbedding] of the precomputed engine. *)
Lemma center_loop (n m : nat) (E : list (list R)) :
  shape n m E ->
  let E' :=
    for_range 0 m (fun d embedding =>
      let mean :=
        for_range 0 n (fun i mean => mean + mget embedding i d) 0 in
      let mean := mean / INR n in
      for_range 0 n (fun i embedding =>
        mset embedding i d (mget embedding i d - mean)) embedding) E in
  shape n m E' /\
  forall a b, mget E' a b
              = if decide ((a < n)%nat /\ (b < m)%nat)
                then mget E a b - col_mean n E b else mget E a b.
Proof.
  intros HE E'. subst E'.
  pose (Inv := fun (k : nat) (E1 : list (list R)) =>
    shape n m E1 /\
    forall a b, mget E1 a b
                = if decide ((a < n)%nat /\ (b < k)%nat)
                  then mget E a b - col_mean n E b else mget E a b).
  assert (Inv m (for_range 0 m (fun d embedding =>
      let mean :=
        for_range 0 n (fun i mean => mean + mget embedding i d) 0 in
      let mean := mean / INR n in
      for_range 0 n (fun i embedding =>
        mset embedding i d (mget embedding i d - mean)) embedding) E))
    as [HE' Hget].
  { apply (for_range_inv Inv); subst Inv; cbv beta; [lia| |].
    - split; [exact HE|]. intros a b. cases.
    - intros d E1 Hd [HE1 IH]. cbv zeta.
      rewrite (for_range_sum (fun i => mget E1 i d)).
      assert (sumR (fun i => mget E1 i d) n / INR n = col_mean n E d) as ->.
      { unfold col_mean. f_equal. apply sumR_ext. intros k Hk.
        rewrite IH. cases. }
      destruct (col_loop n m E1 d n (fun _ x => x - col_mean n E d) HE1)
        as [HE2 G2]; [lia|lia|].
      cbv zeta in HE2, G2. split; [exact HE2|].
      intros a b. rewrite G2, IH. cases. destruct H as [_ ->]. reflexivity. }
  split; [exact HE'|]. intros a b. rewrite Hget. cases.
Qed.

(** ** Bounds on the exponential used at concrete inputs *)

Lemma exp_double (x a : R) : 0 < a -> a < exp x -> a * a < exp (x + x).
Proof. intros Ha H. rewrite exp_plus. nra. Qed.

Lemma exp_50_large : 1e12 < exp 50.
Proof.
  assert (H1 : 2 < exp 1) by (pose proof (exp_ineq1 1); lra).
  pose proof (exp_double 1 2 ltac:(lra) H1) as H2.
  replace (1 + 1) with 2 in H2 by lra.
  pose proof (exp_double 2 (2 * 2) ltac:(lra) H2) as H4.
  replace (2 + 2) with 4 in H4 by lra.
  pose proof (exp_double 4 (2 * 2 * (2 * 2)) ltac:(lra) H4) as H8.
  replace (4 + 4) with 8 in H8 by lra.
  pose proof (exp_double 8 (2 * 2 * (2 * 2) * (2 * 2 * (2 * 2))) ltac:(lra) H8)
    as H16.
  replace (8 + 8) with 16 in H16 by lra.
  pose proof (exp_double 16 65536 ltac:(lra) ltac:(lra)) as H32.
  replace (16 + 16) with 32 in H32 by lra.
  replace 50 with (32 + (16 + 2)) by lra.
  rewrite !exp_plus.
  assert (0 < exp 2) by apply exp_pos.
  assert (0 < exp 16) by apply exp_pos.
  assert (0 < exp 32) by apply exp_pos.
  assert (65536 * 4 < exp 16 * exp 2) by nra.
  assert (0 < exp 16 * exp 2) by nra.
  nra.
Qed.

Lemma exp_neg_50_small : exp (Ropp 50) < 1e-12.
Proof.
  rewrite exp_Ropp. pose proof exp_50_large as H.
  assert (0 < exp 50) by apply exp_pos.
  apply (Rmult_lt_reg_r (exp 50)); [assumption|].
  rewrite Rinv_l by lra. lra.
Qed.

Lemma exp_neg_half_large : 1e-12 < exp (Ropp (1 / 2)).
Proof. pose proof (exp_ineq1 (- (1 / 2))). lra. Qed.

(** ** Conditional probabilities *)

Lemma kernel_pos (distances : list R) (sigma : R) (j : nat) :
  0 < kernel distances sigma j.
Proof. apply exp_pos. Qed.

Lemma engine_kernel_pos (this : PrecomputedTSNE.t) (i j : nat) :
  0 < engine_kernel this i j.
Proof. apply exp_pos. Qed.

Lemma sum_except_term_le (i : nat) (f : nat -> R) (n k : nat) :
  (forall j, 0 < f j) -> (k < n)%nat -> k <> i -> f k <= sum_except i f n.
Proof.
  intros Hf Hk Hne. unfold sum_except.
  set (g := fun j => if Nat.eqb j i then 0 else f j).
  assert (Hg : forall j, (j < n)%nat -> 0 <= g j).
  { intros j _. unfold g. destruct (Nat.eqb j i); [lra|]. left. apply Hf. }
  pose proof (sumR_term_le g n k Hg Hk) as Hle.
  unfold g at 1 in Hle. destruct (Nat.eqb_spec k i); [contradiction|exact Hle].
Qed.


Lemma kernel_row_100 : kernel [0; 100] 1 1 = exp (Ropp 50).
Proof. unfold kernel, aget. simpl. f_equal. lra. Qed.

Lemma kernel_sum_100 : sum_except 0 (kernel [0; 100] 1) 2 = exp (Ropp 50).
Proof.
  unfold sum_except. simpl. rewrite kernel_row_100. lra.
Qed.



(** ** The embedding update of the two engines *)

Lemma engine_update_entries (this : PrecomputedTSNE.t) (iteration : nat) :
  let n := PrecomputedTSNE.n this in
  let m := PrecomputedTSNE.targetDim (PrecomputedTSNE.cfg this) in
  let mom := momentum_at this iteration in
  shape n m (PrecomputedTSNE.velocity this) ->
  shape n m (PrecomputedTSNE.embedding this) ->
  let this' := PrecomputedTSNE._updateEmbedding iteration this in
  shape n m (PrecomputedTSNE.velocity this') /\
  shape n m (PrecomputedTSNE.embedding this') /\
  forall a b, (a < n)%nat -> (b < m)%nat ->
    mget (PrecomputedTSNE.velocity this') a b
    = mom * mget (PrecomputedTSNE.velocity this) a b
      - PrecomputedTSNE.learningRate (PrecomputedTSNE.cfg this)
        * mget (PrecomputedTSNE.gradient this) a b /\
    mget (PrecomputedTSNE.embedding this') a b
    = moved this mom a b - sumR (fun i => moved this mom i b) n / INR n.
Proof.
  intros n m mom HV HE this'. subst this'.
  unfold PrecomputedTSNE._updateEmbedding. fold n. fold m.
  change (if Nat.ltb iteration _ then _ else _) with mom.
  cbv zeta.
  pose proof (momentum_loop n m _ _ (PrecomputedTSNE.gradient this) mom
                (PrecomputedTSNE.learningRate (PrecomputedTSNE.cfg this))
                HV HE) as H.
  cbv zeta in H.
  destruct (for_range 0 n _ (PrecomputedTSNE.velocity this,
                             PrecomputedTSNE.embedding this)) as [V1 E1].
  simpl in H. destruct H as (HV1 & HE1 & Hget).
  destruct (center_loop n m E1 HE1) as [HE2 Hget2]. cbv zeta in HE2, Hget2.
  cbn. split; [exact HV1|]. split; [exact HE2|].
  intros a b Ha Hb. destruct (Hget a b) as [Hv He]. split.
  - rewrite Hv. cases.
  - rewrite Hget2, He. cases. unfold col_mean, moved. do 2 f_equal.
    apply sumR_ext. intros k Hk. destruct (Hget k b) as [_ ->]. cases.
Qed.

Lemma col_mean_centered (n : nat) (M : list (list R)) (f : nat -> R) (d : nat) :
  (1 <= n)%nat ->
  (forall a, (a < n)%nat -> mget M a d = f a - sumR f n / INR n) ->
  col_mean n M d = 0.
Proof.
  intros Hn HM. unfold col_mean.
  rewrite (sumR_ext _ (fun a => f a - sumR f n / INR n)) by exact HM.
  rewrite sumR_minus_const.
  assert (INR n <> 0) by (apply not_0_INR; lia). field. assumption.
Qed.

Lemma tsne_update_entries (this : TSNE.t) :
  let n := TSNE.n this in
  let m := TSNE.targetDim this in
  let this' := TSNE._updateEmbedding this in
  shape n m (TSNE.Y this') /\
  TSNE.Yprev this' = TSNE.Y this /\
  forall a b, (a < n)%nat -> (b < m)%nat ->
    mget (TSNE.Y this') a b
    = mget (TSNE.Y this) a b
      - TSNE.learningRate this * mget (TSNE.gradient this) a b
      + TSNE.momentum this
        * (mget (TSNE.Y this) a b - mget (TSNE.Yprev this) a b).
Proof.
  intros n m this'. subst this'. unfold TSNE._updateEmbedding.
  fold n. fold m. cbv zeta.
  destruct (grid_loop n m (zeros2 n m) n m
              (fun i d _ =>
                 mget (TSNE.Y this) i d
                 - TSNE.learningRate this * mget (TSNE.gradient this) i d
                 + TSNE.momentum this
                   * (mget (TSNE.Y this) i d - mget (TSNE.Yprev this) i d))
              (shape_zeros2 n m)) as [H G]; [lia|lia|].
  cbv zeta in H, G.
  assert (forall a b, (a < n)%nat -> (b < m)%nat ->
            mget (for_range 0 n (fun i Ynew =>
                    for_range 0 m (fun d Ynew0 =>
                      mset Ynew0 i d
                        (mget (TSNE.Y this) i d
                         - TSNE.learningRate this * mget (TSNE.gradient this) i d
                         + TSNE.momentum this
                           * (mget (TSNE.Y this) i d
                              - mget (TSNE.Yprev this) i d))) Ynew)
                    (zeros2 n m)) a b
            = mget (TSNE.Y this) a b
              - TSNE.learningRate this * mget (TSNE.gradient this) a b
              + TSNE.momentum this
                * (mget (TSNE.Y this) a b - mget (TSNE.Yprev this) a b)) as G'.
  { intros a b Ha Hb. rewrite G. cases. }
  destruct (Nat.eqb _ 0); cbn; (split; [exact H|]);
    (split; [apply clone2D_id|exact G']).
Qed.

Lemma shapeb_correct (n m : nat) (M : list (list R)) :
  shapeb n m M = true -> shape n m M.
Proof.
  unfold shapeb. intros H. apply andb_prop in H as [Hn Hm].
  apply Nat.eqb_eq in Hn. split; [exact Hn|].
  intros i row Hrow. rewrite forallb_forall in Hm.
  apply Nat.eqb_eq. apply Hm. apply list_elem_of_In.
  eapply list_elem_of_lookup_2. exact Hrow.
Qed.


(** C6, the claim as amended.  When the kernel sum over the other points is
    at most [1e-12], [computeConditionalProbabilities] skips the
    normalisation and returns the kernel values themselves, with a zero
    self entry; every entry lies between [0] and [1e-12], and nothing is
    raised. *)
Theorem degenerate_row_unnormalized
    (distances : list R) (sigma : R) (i : nat) :
  0 < sigma ->
  sum_except i (kernel distances sigma) (length distances) <= 1e-12 ->
  let n := length distances in
  let P := computeConditionalProbabilities distances sigma i in
  length P = n /\
  forall j, (j < n)%nat ->
    aget P j = (if decide (j = i) then 0 else kernel distances sigma j) /\
    0 <= aget P j <= 1e-12.
Proof.
  intros _ Hsum n P.
  destruct (computeConditionalProbabilities_entries distances sigma i)
    as [Hlen Hget].
  cbv zeta in Hlen, Hget. fold n in Hlen, Hget, Hsum. fold P in Hlen, Hget.
  split; [exact Hlen|]. intros j Hj. rewrite Hget.
  pose proof (kernel_pos distances sigma j) as Hpos.
  cases; try lra.
  pose proof (sum_except_term_le i (kernel distances sigma) n j
                (kernel_pos distances sigma) Hj ltac:(lia)).
  split; [reflexivity|lra].
Qed.

(** C6 at the row [0; 100] with [sigma = 1] and centre [0]. *)
Lemma degenerate_row_unnormalized_witness :
  let n := length [0; 100] in
  let P := computeConditionalProbabilities [0; 100] 1 0 in
  length P = n /\
  forall j, (j < n)%nat ->
    aget P j = (if decide (j = 0%nat) then 0 else kernel [0; 100] 1 j) /\
    0 <= aget P j <= 1e-12.
Proof.
  apply (degenerate_row_unnormalized [0; 100] 1 0).
  - lra.
  - change (length [0; 100]) with 2%nat. rewrite kernel_sum_100.
    pose proof exp_neg_50_small. lra.
Defined.

(** C6, the claim as stated fails: for the row [0; 100] with [sigma = 1] and
    centre [0] the kernel sum is at most [1e-12], and the entry of the other
    point in the returned row is [exp (-50)], not zero. *)
Lemma degenerate_row_not_zero :
  sum_except 0 (kernel [0; 100] 1) (length [0; 100]) <= 1e-12 /\
  aget (computeConditionalProbabilities [0; 100] 1 0) 1 <> 0.
Proof.
  pose proof exp_neg_50_small as Hsmall.
  change (length [0; 100]) with 2%nat. rewrite kernel_sum_100.
  split; [lra|].
  destruct (computeConditionalProbabilities_entries [0; 100] 1 0) as [_ Hget].
  cbv zeta in Hget. change (length [0; 100]) with 2%nat in Hget.
  rewrite kernel_sum_100 in Hget. rewrite (Hget 1%nat), kernel_row_100.
  pose proof (exp_pos (Ropp 50)). cases; lra.
Qed.

(** C2, the claim as amended.  After [_updateEmbedding] of the precomputed
    engine with at least one point, the mean of every dimension of the
    embedding over all points is zero in exact arithmetic.  The update of
    the step-by-step engine does not centre the embedding. *)
Theorem engine_update_centers_embedding
    (this : PrecomputedTSNE.t) (iteration d : nat) :
  let n := PrecomputedTSNE.n this in
  let m := PrecomputedTSNE.targetDim (PrecomputedTSNE.cfg this) in
  shape n m (PrecomputedTSNE.velocity this) ->
  shape n m (PrecomputedTSNE.embedding this) ->
  shape n m (PrecomputedTSNE.gradient this) ->
  (1 <= n)%nat -> (d < m)%nat ->
  col_mean n
    (PrecomputedTSNE.embedding (PrecomputedTSNE._updateEmbedding iteration this))
    d = 0.
Proof.
  intros n m HV HE _ Hn Hd.
  destruct (engine_update_entries this iteration HV HE) as (_ & _ & Hget).
  fold n in Hget. fold m in Hget.
  apply (col_mean_centered n _
           (fun a => moved this (momentum_at this iteration) a d)); [exact Hn|].
  intros a Ha. destruct (Hget a d Ha Hd) as [_ ->]. reflexivity.
Qed.

Lemma engine_update_centers_embedding_witness :
  col_mean 2
    (PrecomputedTSNE.embedding (PrecomputedTSNE._updateEmbedding 0 engine2))
    0 = 0.
Proof.
  apply (engine_update_centers_embedding engine2 0 0);
    try (apply shapeb_correct; reflexivity); simpl; lia.
Defined.

(** C2, the claim as stated fails for the step-by-step engine: the update
    of [tsne1] leaves its single point at [1.8], so the mean of the only
    dimension is not zero. *)
Lemma tsne_update_not_centered :
  col_mean 1 (TSNE.Y (TSNE._updateEmbedding tsne1)) 0 <> 0.
Proof.
  destruct (tsne_update_entries tsne1) as (_ & _ & Hget).
  unfold col_mean, sumR. rewrite (Hget 0%nat 0%nat) by (simpl; lia).
  unfold mget, mrow, aget. simpl. lra.
Qed.

(** C4, the claim as amended.  In the precomputed engine the update of
    iteration [t] sets [velocity = mom * velocity - learningRate * gradient]
    and adds the velocity to the position (which is then centred), where
    [mom] is [0.5] for [t < 250] and [0.8] from [250] on.  The step-by-step
    engine keeps no velocity array and no schedule: its new position is
    [Y - learningRate * gradient + momentum * (Y - Yprev)] with the one
    configured momentum, and [Yprev] becomes the old position. *)
Theorem update_rule
    (o : PrecomputedTSNE.options) (this : PrecomputedTSNE.t) (t : nat)
    (that : TSNE.t) (a b : nat) :
  PrecomputedTSNE.cfg this = PrecomputedTSNE.cfg (PrecomputedTSNE.new o) ->
  shape (PrecomputedTSNE.n this)
    (PrecomputedTSNE.targetDim (PrecomputedTSNE.cfg this))
    (PrecomputedTSNE.velocity this) ->
  shape (PrecomputedTSNE.n this)
    (PrecomputedTSNE.targetDim (PrecomputedTSNE.cfg this))
    (PrecomputedTSNE.embedding this) ->
  shape (PrecomputedTSNE.n this)
    (PrecomputedTSNE.targetDim (PrecomputedTSNE.cfg this))
    (PrecomputedTSNE.gradient this) ->
  (a < PrecomputedTSNE.n this)%nat ->
  (b < PrecomputedTSNE.targetDim (PrecomputedTSNE.cfg this))%nat ->
  shape (TSNE.n that) (TSNE.targetDim that) (TSNE.Y that) ->
  shape (TSNE.n that) (TSNE.targetDim that) (TSNE.Yprev that) ->
  shape (TSNE.n that) (TSNE.targetDim that) (TSNE.gradient that) ->
  (a < TSNE.n that)%nat -> (b < TSNE.targetDim that)%nat ->
  (let mom := if Nat.ltb t 250 then 0.5 else 0.8 in
   let this' := PrecomputedTSNE._updateEmbedding t this in
   let velocity' := mget (PrecomputedTSNE.velocity this') a b in
   velocity'
   = mom * mget (PrecomputedTSNE.velocity this) a b
     - PrecomputedTSNE.learningRate (PrecomputedTSNE.cfg this)
       * mget (PrecomputedTSNE.gradient this) a b /\
   mget (PrecomputedTSNE.embedding this') a b
   = mget (PrecomputedTSNE.embedding this) a b + velocity'
     - sumR (fun i => moved this mom i b) (PrecomputedTSNE.n this)
       / INR (PrecomputedTSNE.n this))
  /\
  (let that' := TSNE._updateEmbedding that in
   mget (TSNE.Y that') a b
   = mget (TSNE.Y that) a b
     - TSNE.learningRate that * mget (TSNE.gradient that) a b
     + TSNE.momentum that * (mget (TSNE.Y that) a b - mget (TSNE.Yprev that) a b)
   /\ TSNE.Yprev that' = TSNE.Y that).
Proof.
  intros Hcfg HV HE _ Ha Hb _ _ _ Ha' Hb'. split.
  - intros mom this' velocity'. subst this' velocity'.
    destruct (engine_update_entries this t HV HE) as (_ & _ & Hget).
    destruct (Hget a b Ha Hb) as [Hv He].
    assert (momentum_at this t = mom) as Hmom.
    { unfold momentum_at. rewrite Hcfg. reflexivity. }
    rewrite Hmom in Hv, He. split; [exact Hv|].
    rewrite He, Hv. unfold moved. ring.
  - intros that'. subst that'.
    destruct (tsne_update_entries that) as (_ & Hprev & Hget).
    split; [now apply Hget|exact Hprev].
Qed.

Lemma update_rule_witness :
  (let mom := if Nat.ltb 0 250 then 0.5 else 0.8 in
   let this' := PrecomputedTSNE._updateEmbedding 0 engine2 in
   let velocity' := mget (PrecomputedTSNE.velocity this') 0 0 in
   velocity'
   = mom * mget (PrecomputedTSNE.velocity engine2) 0 0
     - PrecomputedTSNE.learningRate (PrecomputedTSNE.cfg engine2)
       * mget (PrecomputedTSNE.gradient engine2) 0 0 /\
   mget (PrecomputedTSNE.embedding this') 0 0
   = mget (PrecomputedTSNE.embedding engine2) 0 0 + velocity'
     - sumR (fun i => moved engine2 mom i 0) (PrecomputedTSNE.n engine2)
       / INR (PrecomputedTSNE.n engine2))
  /\
  (let that' := TSNE._updateEmbedding tsne1 in
   mget (TSNE.Y that') 0 0
   = mget (TSNE.Y tsne1) 0 0
     - TSNE.learningRate tsne1 * mget (TSNE.gradient tsne1) 0 0
     + TSNE.momentum tsne1
       * (mget (TSNE.Y tsne1) 0 0 - mget (TSNE.Yprev tsne1) 0 0)
   /\ TSNE.Yprev that' = TSNE.Y tsne1).
Proof.
  apply (update_rule PrecomputedTSNE.no_options engine2 0 tsne1 0 0);
    try reflexivity; try (apply shapeb_correct; reflexivity); simpl; lia.
Defined.

(** C4, the claim as stated fails for the step-by-step engine: a new engine
    with the default options is at iteration [0], before the switch, and
    the update of [tsne1] moves the point by [0.8] times its previous
    displacement, not by [0.5] times. *)
Lemma tsne_momentum_constant :
  TSNE.iteration tsne1 = 0%nat /\
  mget (TSNE.Y (TSNE._updateEmbedding tsne1)) 0 0 - mget (TSNE.Y tsne1) 0 0
  <> 0.5 * (mget (TSNE.Y tsne1) 0 0 - mget (TSNE.Yprev tsne1) 0 0)
     - TSNE.learningRate tsne1 * mget (TSNE.gradient tsne1) 0 0.
Proof.
  split; [reflexivity|].
  destruct (tsne_update_entries tsne1) as (_ & _ & Hget).
  rewrite (Hget 0%nat 0%nat) by (simpl; lia).
  unfold mget, mrow, aget. simpl. lra.
Qed.

(** C5, the claim as amended.  The symmetrization of the precomputed engine
    produces, for [i <> j], the average [(P(j|i) + P(i|j)) / (2N)] floored
    at [1e-12]; its matrix is symmetric and every entry is at least
    [1e-12], hence positive.  The symmetrization of the step-by-step engine
    produces the same averages and a symmetric matrix without any floor,
    and keeps a copy in [Porig]. *)
Theorem symmetrization
    (this : PrecomputedTSNE.t) (that : TSNE.t) (i j : nat) :
  shape (PrecomputedTSNE.n this) (PrecomputedTSNE.n this)
    (PrecomputedTSNE.P_conditional this) ->
  (i < PrecomputedTSNE.n this)%nat -> (j < PrecomputedTSNE.n this)%nat ->
  shape (TSNE.n that) (TSNE.n that) (TSNE.Pcond that) ->
  (i < TSNE.n that)%nat -> (j < TSNE.n that)%nat ->
  (let n := PrecomputedTSNE.n this in
   let Pc := PrecomputedTSNE.P_conditional this in
   let P := PrecomputedTSNE._symmetrizeP this in
   shape n n P /\
   (i <> j ->
    mget P i j = Rmax ((mget Pc i j + mget Pc j i) / (2 * INR n)) 1e-12) /\
   mget P i j = mget P j i /\
   1e-12 <= mget P i j /\ 0 < mget P i j)
  /\
  (let n := TSNE.n that in
   let Pc := TSNE.Pcond that in
   let that' := TSNE._symmetrizeP that in
   shape n n (TSNE.P that') /\
   (i <> j ->
    mget (TSNE.P that') i j = (mget Pc i j + mget Pc j i) / (2 * INR n)) /\
   mget (TSNE.P that') i j = mget (TSNE.P that') j i /\
   TSNE.Porig that' = TSNE.P that').
Proof.
  intros _ Hi Hj _ Hi' Hj'. split.
  - intros n Pc P.
    destruct (engine_symmetrize_entries this) as [Hshape Hget].
    cbv zeta in Hshape, Hget. fold n in Hshape, Hget, Hi, Hj.
    fold Pc in Hget. fold P in Hshape, Hget.
    split; [exact Hshape|]. split; [|split].
    + intros Hne. rewrite Hget. cases.
    + rewrite !Hget. cases. do 2 f_equal. ring.
    + rewrite Hget. case_decide; [|exfalso; intuition lia].
      pose proof (Rmax_r (if decide (i <> j)
                          then (mget Pc i j + mget Pc j i) / (2 * INR n)
                          else 0) 1e-12).
      lra.
  - intros n Pc that'.
    destruct (tsne_symmetrize_entries that) as [Hshape Hget].
    cbv zeta in Hshape, Hget. fold n in Hshape, Hget, Hi', Hj'.
    fold Pc in Hget. fold that' in Hshape, Hget.
    split; [exact Hshape|]. split; [|split].
    + intros Hne. rewrite Hget. cases.
    + rewrite !Hget. cases. f_equal. ring.
    + subst that'. unfold TSNE._symmetrizeP. cbn. apply clone2D_id.
Qed.

Lemma symmetrization_witness :
  (let n := PrecomputedTSNE.n engine2 in
   let Pc := PrecomputedTSNE.P_conditional engine2 in
   let P := PrecomputedTSNE._symmetrizeP engine2 in
   shape n n P /\
   (0%nat <> 1%nat ->
    mget P 0 1 = Rmax ((mget Pc 0 1 + mget Pc 1 0) / (2 * INR n)) 1e-12) /\
   mget P 0 1 = mget P 1 0 /\
   1e-12 <= mget P 0 1 /\ 0 < mget P 0 1)
  /\
  (let n := TSNE.n tsne2 in
   let Pc := TSNE.Pcond tsne2 in
   let that' := TSNE._symmetrizeP tsne2 in
   shape n n (TSNE.P that') /\
   (0%nat <> 1%nat ->
    mget (TSNE.P that') 0 1 = (mget Pc 0 1 + mget Pc 1 0) / (2 * INR n)) /\
   mget (TSNE.P that') 0 1 = mget (TSNE.P that') 1 0 /\
   TSNE.Porig that' = TSNE.P that').
Proof.
  apply (symmetrization engine2 tsne2 0 1);
    try (apply shapeb_correct; reflexivity); simpl; lia.
Defined.

(** C5, the claim as stated fails for the step-by-step engine: after its
    symmetrization the diagonal entry of point [0] is zero, so not every
    entry is positive. *)
Lemma tsne_symmetrize_zero_entry :
  ~ 0 < mget (TSNE.P (TSNE._symmetrizeP tsne2)) 0 0.
Proof.
  destruct (tsne_symmetrize_entries tsne2) as [_ Hget].
  rewrite Hget. cases. lra.
Qed.

(** C7, the claim as amended.  In the precomputed engine, keeping the copy
    [P_original], applying the exaggeration and removing it restores [P]
    exactly, for every factor.  In the step-by-step engine, applying the
    exaggeration and dividing it back out restores [P], in exact
    arithmetic, for every factor other than zero. *)
Theorem exaggeration_round_trip (this : PrecomputedTSNE.t) (that : TSNE.t) :
  shape (PrecomputedTSNE.n this) (PrecomputedTSNE.n this)
    (PrecomputedTSNE.P this) ->
  shape (TSNE.n that) (TSNE.n that) (TSNE.P that) ->
  TSNE.earlyExaggeration that <> 0 ->
  PrecomputedTSNE.P
    (PrecomputedTSNE._removeEarlyExaggeration
       (PrecomputedTSNE._applyEarlyExaggeration
          (PrecomputedTSNE.set_P_original
             (deepClone (PrecomputedTSNE.P this)) this)))
  = PrecomputedTSNE.P this
  /\
  TSNE.P (TSNE._removeExaggeration (TSNE._applyExaggeration that))
  = TSNE.P that.
Proof.
  intros HP HP' Hf. split.
  - set (this0 := PrecomputedTSNE.set_P_original _ this).
    assert (shape (PrecomputedTSNE.n this0) (PrecomputedTSNE.n this0)
              (PrecomputedTSNE.P this0)) as HP0 by exact HP.
    destruct (engine_apply_entries this0 HP0) as [H1 _].
    rewrite engine_remove_restores.
    + subst this0. cbn. apply deepClone_id.
    + exact H1.
    + subst this0. cbn. rewrite deepClone_id. exact HP.
  - destruct (tsne_apply_entries that HP') as [H1 G1].
    destruct (tsne_remove_entries (TSNE._applyExaggeration that) H1)
      as [H2 G2].
    cbn in H2, G2.
    apply (shape_ext (TSNE.n that) (TSNE.n that)); [exact H2|exact HP'|].
    intros a b Ha Hb. rewrite G2, G1 by assumption. cbn. field. exact Hf.
Qed.

Lemma exaggeration_round_trip_witness :
  PrecomputedTSNE.P
    (PrecomputedTSNE._removeEarlyExaggeration
       (PrecomputedTSNE._applyEarlyExaggeration
          (PrecomputedTSNE.set_P_original
             (deepClone (PrecomputedTSNE.P engine2)) engine2)))
  = PrecomputedTSNE.P engine2
  /\
  TSNE.P (TSNE._removeExaggeration (TSNE._applyExaggeration tsne2))
  = TSNE.P tsne2.
Proof.
  apply (exaggeration_round_trip engine2 tsne2);
    try (apply shapeb_correct; reflexivity).
  simpl. lra.
Defined.

(** C7, the claim as stated fails for the factor zero in the step-by-step
    engine, whose constructor accepts it: multiplying by zero and dividing
    by zero does not bring the entry [0.25] back. *)
Lemma tsne_round_trip_zero_factor :
  TSNE.earlyExaggeration tsne2_zero = 0 /\
  mget (TSNE.P (TSNE._removeExaggeration (TSNE._applyExaggeration tsne2_zero)))
    0 1
  <> mget (TSNE.P tsne2_zero) 0 1.
Proof.
  split; [reflexivity|].
  assert (shape (TSNE.n tsne2_zero) (TSNE.n tsne2_zero) (TSNE.P tsne2_zero))
    as HP by (apply shapeb_correct; reflexivity).
  destruct (tsne_apply_entries tsne2_zero HP) as [H1 G1].
  destruct (tsne_remove_entries (TSNE._applyExaggeration tsne2_zero) H1)
    as [_ G2].
  cbn in G2. rewrite G2, G1 by (simpl; lia).
  unfold mget, mrow, aget. simpl. lra.
Qed.

(** C9.  After the symmetrization of the precomputed engine every diagonal
    entry of the joint matrix is exactly [1e-12], and the cost does not
    depend on the diagonal: any matrix with the same entries off the
    diagonal has the same divergence from every [Q]. *)
Theorem diagonal_floor (this : PrecomputedTSNE.t) (i : nat) :
  shape (PrecomputedTSNE.n this) (PrecomputedTSNE.n this)
    (PrecomputedTSNE.P_conditional this) ->
  (i < PrecomputedTSNE.n this)%nat ->
  let P := PrecomputedTSNE._symmetrizeP this in
  mget P i i = 1e-12 /\
  forall (M Q : list (list R)),
    length M = PrecomputedTSNE.n this ->
    (forall a b, a <> b -> mget M a b = mget P a b) ->
    klDivergence M Q = klDivergence P Q.
Proof.
  intros _ Hi P.
  destruct (engine_symmetrize_entries this) as [[Hlen _] Hget].
  fold P in Hlen, Hget. split.
  - rewrite Hget. cases. apply Rmax_right. lra.
  - intros M Q HM Hoff. apply klDivergence_off_diagonal; [congruence|exact Hoff].
Qed.

Lemma diagonal_floor_witness :
  let P := PrecomputedTSNE._symmetrizeP engine2 in
  mget P 0 0 = 1e-12 /\
  forall (M Q : list (list R)),
    length M = PrecomputedTSNE.n engine2 ->
    (forall a b, a <> b -> mget M a b = mget P a b) ->
    klDivergence M Q = klDivergence P Q.
Proof.
  apply (diagonal_floor engine2 0).
  - apply shapeb_correct. reflexivity.
  - simpl. lia.
Defined.

(** ** The bandwidth search *)

(** The loop of [findSigma] started from any bracket. *)
Lemma findSigma_loop_search (distances : list R) (i : nat) (target : R)
    (returnHistory : bool) :
  forall (fuel iter : nat) (b : bracket) (history : list historyEntry),
    let r :=
      findSigma_loop fuel iter distances i target returnHistory 1e-5
        (b_min b) (b_max b) (b_sigma b) history in
    exists k,
      (k <= fuel)%nat /\
      (forall j, (j < k)%nat ->
         ~ search_done distances i target
             (Nat.iter j (search_step distances i target) b)) /\
      ((k < fuel)%nat ->
         search_done distances i target
           (Nat.iter k (search_step distances i target) b)) /\
      r_sigma r = b_sigma (Nat.iter k (search_step distances i target) b) /\
      r_P r = computeConditionalProbabilities distances (r_sigma r) i /\
      r_entropy r = shannonEntropy (r_P r) /\
      r_perplexity r = entropyToPerplexity (r_entropy r) /\
      length (r_history r)
      = (length history
         + if returnHistory then Nat.min (k + 1) fuel else 0)%nat.
Proof.
  induction fuel as [|fuel IH]; intros iter b history r; subst r.
  - exists 0%nat. cbn [findSigma_loop Nat.iter r_sigma r_P r_entropy
                       r_perplexity r_history].
    split; [lia|]. split; [intros j Hj; lia|]. split; [intros Hlt; lia|].
    do 4 (split; [reflexivity|]).
    destruct returnHistory; simpl; lia.
  - cbn [findSigma_loop]. cbv zeta.
    fold (entropy_at distances i (b_sigma b)).
    set (history' := if returnHistory then _ else history).
    assert (length history'
            = (length history + if returnHistory then 1 else 0)%nat) as Hlen.
    { subst history'. destruct returnHistory; [|lia].
      rewrite length_app. reflexivity. }
    destruct (decide (Rabs (entropy_at distances i (b_sigma b) - target) < 1e-5))
      as [Hdone|Hnot].
    + exists 0%nat. cbn [Nat.iter r_sigma r_P r_entropy r_perplexity r_history].
      split; [lia|]. split; [intros j Hj; lia|].
      split; [intros _; exact Hdone|].
      do 4 (split; [reflexivity|]).
      rewrite Hlen. destruct returnHistory; simpl; lia.
    + assert (exists b', search_step distances i target b = b' /\
                findSigma_loop fuel (S iter) distances i target returnHistory
                  1e-5 (b_min b') (b_max b') (b_sigma b') history'
                = (if decide (0 < entropy_at distances i (b_sigma b) - target)
                   then
                     findSigma_loop fuel (S iter) distances i target
                       returnHistory 1e-5 (b_min b) (b_sigma b)
                       ((b_min b + b_sigma b) / 2) history'
                   else
                     findSigma_loop fuel (S iter) distances i target
                       returnHistory 1e-5 (b_sigma b) (b_max b)
                       (if decide (b_max b = 1e10)
                        then (b_sigma b + b_max b) / 2 * 2
                        else (b_sigma b + b_max b) / 2) history'))
        as (b' & Hb' & Heq).
      { eexists. split; [reflexivity|]. unfold search_step.
        destruct (decide (0 < entropy_at distances i (b_sigma b) - target));
          reflexivity. }
      rewrite <- Heq. clear Heq.
      destruct (IH (S iter) b' history') as (k & Hk & Hbefore & Hat & Hrest).
      exists (S k). rewrite !Nat.iter_succ_r, Hb'.
      split; [lia|]. split; [|split; [|split; [apply Hrest|]]].
      * intros j Hj. destruct j as [|j]; [exact Hnot|].
        rewrite Nat.iter_succ_r, Hb'. apply Hbefore. lia.
      * intros Hlt. apply Hat. lia.
      * destruct Hrest as (_ & HP & HH & Hperp & Hhist).
        split; [exact HP|]. split; [exact HH|]. split; [exact Hperp|].
        rewrite Hhist, Hlen. destruct returnHistory; lia.
Qed.

(** C3.  [findSigma] with its default budget and tolerance, on the row of
    point [i] and a target perplexity above one: the search starts from
    the bracket [(1e-10, 1e10)] with the guess [1]; it returns the guess of
    the first of its at most 50 iterations whose entropy is within [1e-5]
    of [log2 T], and the guess reached after 50 iterations when there is
    none; the result carries the probabilities, entropy and perplexity of
    the returned guess, and the trace has one entry per iteration made.
    An iteration with too low an entropy and the upper bound still at
    [1e10] doubles the new midpoint.  The function is total: no input makes
    it fail. *)
Theorem findSigma_search
    (distanceMatrix : list (list R)) (i : nat) (T : R) (returnHistory : bool) :
  (i < length distanceMatrix)%nat ->
  1 < T ->
  let distances := mrow distanceMatrix i in
  let target := log2 T in
  let r :=
    findSigma distanceMatrix i T returnHistory findSigma_maxIter findSigma_tol in
  search_iter distances i target 0
  = {| b_min := 1e-10; b_max := 1e10; b_sigma := 1 |} /\
  (exists k,
     (k <= 50)%nat /\
     (forall j, (j < k)%nat ->
        ~ search_done distances i target (search_iter distances i target j)) /\
     ((k < 50)%nat ->
        search_done distances i target (search_iter distances i target k)) /\
     r_sigma r = b_sigma (search_iter distances i target k) /\
     r_P r = computeConditionalProbabilities distances (r_sigma r) i /\
     r_entropy r = shannonEntropy (r_P r) /\
     r_perplexity r = entropyToPerplexity (r_entropy r) /\
     length (r_history r)
     = if returnHistory then Nat.min (k + 1) 50 else 0%nat) /\
  (forall b,
     ~ search_done distances i target b ->
     entropy_at distances i (b_sigma b) <= target ->
     b_max b = 1e10 ->
     b_sigma (search_step distances i target b)
     = 2 * ((b_sigma b + b_max b) / 2)).
Proof.
  intros _ _ distances target r. split; [reflexivity|]. split.
  - destruct (findSigma_loop_search distances i target returnHistory
                50 0 search_start []) as (k & H).
    exists k. exact H.
  - intros b _ Hlow Hmax. unfold search_step.
    destruct (decide (0 < entropy_at distances i (b_sigma b) - target));
      [lra|].
    simpl. destruct (decide (b_max b = 1e10)); [lra|contradiction].
Qed.

Lemma findSigma_search_witness :
  let distances := mrow [[0; 1]; [1; 0]] 0 in
  let target := log2 2 in
  let r :=
    findSigma [[0; 1]; [1; 0]] 0 2 true findSigma_maxIter findSigma_tol in
  search_iter distances 0 target 0
  = {| b_min := 1e-10; b_max := 1e10; b_sigma := 1 |} /\
  (exists k,
     (k <= 50)%nat /\
     (forall j, (j < k)%nat ->
        ~ search_done distances 0 target (search_iter distances 0 target j)) /\
     ((k < 50)%nat ->
        search_done distances 0 target (search_iter distances 0 target k)) /\
     r_sigma r = b_sigma (search_iter distances 0 target k) /\
     r_P r = computeConditionalProbabilities distances (r_sigma r) 0 /\
     r_entropy r = shannonEntropy (r_P r) /\
     r_perplexity r = entropyToPerplexity (r_entropy r) /\
     length (r_history r)
     = if true then Nat.min (k + 1) 50 else 0%nat) /\
  (forall b,
     ~ search_done distances 0 target b ->
     entropy_at distances 0 (b_sigma b) <= target ->
     b_max b = 1e10 ->
     b_sigma (search_step distances 0 target b)
     = 2 * ((b_sigma b + b_max b) / 2)).
Proof.
  apply (findSigma_search [[0; 1]; [1; 0]] 0 2 true).
  - simpl. lia.
  - lra.
Defined.

(** ** The run of the precomputed engine *)

Section Run.
Import PrecomputedTSNE.

Lemma keeps_refl (this : t) : keeps this this.
Proof. repeat split. Qed.

Lemma keeps_trans (a b c : t) : keeps a b -> keeps b c -> keeps a c.
Proof.
  intros (H1 & H2 & H3 & H4) (G1 & G2 & G3 & G4).
  repeat split; congruence.
Qed.

Lemma keeps_records (ty : TSNESteps) (a b c : t) :
  keeps a b -> records ty b c -> records ty a c.
Proof.
  intros (H1 & H2 & H3 & H4) ((d & l & x & G1) & G2 & G3 & G4).
  split; [|repeat split; congruence].
  exists d, l, x. rewrite G1, H1, H2. reflexivity.
Qed.

Lemma addSnapshot_records (ty : TSNESteps) (d : snapshotData) (this : t) :
  records ty this (_addSnapshot ty d this).
Proof.
  split; [|cbn; repeat split; lia].
  eexists _, _, _. reflexivity.
Qed.

Lemma updateEmbedding_keeps (iteration : nat) (this : t) :
  keeps this (_updateEmbedding iteration this).
Proof.
  unfold _updateEmbedding.
  destruct (for_range 0 (n this) _ (velocity this, embedding this)) as [V E].
  repeat split.
Qed.

Lemma removeEarlyExaggeration_keeps (this : t) :
  keeps this (_removeEarlyExaggeration this).
Proof. repeat split. Qed.

Lemma applyEarlyExaggeration_keeps (this : t) :
  keeps this (_applyEarlyExaggeration this).
Proof. repeat split. Qed.

Lemma runIterations_keeps (this : t) :
  keeps this (fst (_runIterations this)).
Proof.
  unfold _runIterations. cbv zeta.
  set (this0 := set_iterationSnapshots [] this).
  assert (keeps this this0) as H0 by (repeat split).
  change (maxIterations (cfg this0)) with (maxIterations (cfg this)).
  destruct (decide (1 <= maxIterations (cfg this))%nat) as [Hle|Hgt].
  - pose (Inv := fun (k : nat) (s : t * list iterSnapshot) =>
              keeps this (fst s)).
    apply (for_range_inv Inv); subst Inv; cbv beta; [exact Hle|exact H0|].
    intros k [this1 keyIterations] _ H1. simpl in H1.
    assert (keeps this1
              (if Nat.eqb k (earlyExaggerationIter (cfg this1))
               then _removeEarlyExaggeration this1 else this1)) as H2.
    { destruct (Nat.eqb _ _);
        [apply removeEarlyExaggeration_keeps|apply keeps_refl]. }
    set (this2 := if Nat.eqb k _ then _ else this1) in *.
    set (this3 := set_Q (computeQMatrix (embedding this2)) this2).
    set (this4 := set_gradient _ this3).
    pose proof (updateEmbedding_keeps k this4) as H5.
    set (this5 := _updateEmbedding k this4) in *.
    set (this6 := set_costs _ this5).
    assert (keeps this this6) as H6.
    { apply (keeps_trans _ this1); [exact H1|].
      apply (keeps_trans _ this2); [exact H2|].
      apply (keeps_trans _ this5); [|repeat split].
      apply (keeps_trans _ this4); [repeat split|exact H5]. }
    destruct (existsb _ _); simpl; [|exact H6].
    apply (keeps_trans _ this6); [exact H6|repeat split].
  - rewrite for_range_empty by lia. exact H0.
Qed.

Lemma length_computeAllSigmas (this : t) :
  length (fst (_computeAllSigmas this)) = n this.
Proof.
  unfold _computeAllSigmas.
  pose (Inv := fun (k : nat) (s : list R * list (nat * list historyEntry)) =>
            length (fst s) = k).
  apply (for_range_inv Inv); subst Inv; cbv beta; [lia|reflexivity|].
  intros k [sigmas searchHistory] _ H. simpl in H.
  destruct (Nat.ltb k 3); simpl; rewrite length_app; simpl; lia.
Qed.

Lemma step0_records (row0 : list R) (this : t) :
  records INTRO this (step0 row0 this).
Proof. apply addSnapshot_records. Qed.

Lemma step1_records (inputData : list (list R)) (labels : list Z)
    (row0 : list R) (this : t) :
  records INPUT_DATA this (step1 inputData labels row0 this).
Proof. apply addSnapshot_records. Qed.

Lemma step2_records (inputData : list (list R)) (this : t) :
  records COMPUTE_DISTANCES this (step2 inputData this).
Proof.
  unfold step2. cbv zeta.
  eapply keeps_records; [|apply addSnapshot_records]. repeat split.
Qed.

Lemma step3_records (this : t) :
  (1 <= n this)%nat ->
  exists this', step3 this = Some this' /\ records COMPUTE_SIGMAS this this'.
Proof.
  intros Hn. unfold step3. cbv zeta.
  pose proof (length_computeAllSigmas this) as Hlen.
  set (this1 := set_sigmas (fst (_computeAllSigmas this)) this).
  change (sigmas this1) with (fst (_computeAllSigmas this)).
  destruct (fst (_computeAllSigmas this)) as [|s0 rest] eqn:E;
    [simpl in Hlen; lia|].
  eexists. split; [reflexivity|].
  eapply keeps_records; [|apply addSnapshot_records]. repeat split.
Qed.

Lemma step4_records (this : t) : records COMPUTE_P_CONDITIONAL this (step4 this).
Proof.
  unfold step4. cbv zeta.
  eapply keeps_records; [|apply addSnapshot_records]. repeat split.
Qed.

Lemma step5_records (this : t) : records SYMMETRIZE_P this (step5 this).
Proof.
  unfold step5. cbv zeta.
  eapply keeps_records; [|apply addSnapshot_records]. repeat split.
Qed.

Lemma step6_records (this : t) : records EARLY_EXAGGERATION this (step6 this).
Proof.
  unfold step6. cbv zeta.
  eapply keeps_records; [|apply addSnapshot_records].
  apply applyEarlyExaggeration_keeps.
Qed.

Lemma step7_records (rnd : draws) (this : t) :
  records INITIALIZE_EMBEDDING this (step7 rnd this).
Proof.
  unfold step7. cbv zeta.
  eapply keeps_records; [|apply addSnapshot_records]. repeat split.
Qed.

Lemma step8_records (this : t) : records COMPUTE_Q this (step8 this).
Proof.
  unfold step8. cbv zeta.
  eapply keeps_records; [|apply addSnapshot_records]. repeat split.
Qed.

Lemma step9_records (this : t) : records COMPUTE_GRADIENT this (step9 this).
Proof.
  unfold step9. cbv zeta.
  eapply keeps_records; [|apply addSnapshot_records]. repeat split.
Qed.

Lemma step10_records (this : t) : records UPDATE_EMBEDDING this (step10 this).
Proof.
  unfold step10. cbv zeta.
  eapply keeps_records; [|apply addSnapshot_records].
  apply updateEmbedding_keeps.
Qed.

Lemma step11_records (this : t) : records ITERATION_PROGRESS this (step11 this).
Proof.
  unfold step11. pose proof (runIterations_keeps this) as H.
  destruct (_runIterations this) as [this1 keyIterations]. simpl in H.
  eapply keeps_records; [exact H|apply addSnapshot_records].
Qed.

Lemma step12_records (this : t) : records REMOVE_EXAGGERATION this (step12 this).
Proof. apply addSnapshot_records. Qed.

Lemma step13_records (labels : list Z) (this : t) :
  records FINAL_RESULT this (step13 labels this).
Proof. apply addSnapshot_records. Qed.

(** One recorded step extends the two projections of the snapshots. *)
Lemma records_projections (ty : TSNESteps) (this this' : t) :
  records ty this this' ->
  step_types this' = step_types this ++ [ty] /\
  step_ids this' = step_ids this ++ [stepIndex this] /\
  stepIndex this' = S (stepIndex this) /\
  n this' = n this /\ cfg this' = cfg this.
Proof.
  intros ((d & l & x & H) & H2 & H3 & H4). unfold step_types, step_ids.
  rewrite H, !map_app. simpl. auto.
Qed.

(** What a run that returns has recorded, from any engine it starts on. *)
Lemma run_records (rnd : draws) (inputData : list (list R)) (labels : list Z)
    (this : t) :
  (1 <= length inputData)%nat ->
  exists this',
    run rnd inputData labels this = Some this' /\
    step_types this'
    = [INTRO; INPUT_DATA; COMPUTE_DISTANCES; COMPUTE_SIGMAS;
       COMPUTE_P_CONDITIONAL; SYMMETRIZE_P; EARLY_EXAGGERATION;
       INITIALIZE_EMBEDDING; COMPUTE_Q; COMPUTE_GRADIENT; UPDATE_EMBEDDING;
       ITERATION_PROGRESS; REMOVE_EXAGGERATION; FINAL_RESULT] /\
    step_ids this' = seq (stepIndex this) 14.
Proof.
  intros Hlen. unfold run. cbv zeta.
  destruct (lookup_lt_is_Some_2 inputData 0%nat) as [row0 E0]; [lia|].
  rewrite E0.
  set (this0 := set_snapshots [] _).
  assert (step_types this0 = [] /\ step_ids this0 = [] /\
          stepIndex this0 = stepIndex this /\ n this0 = length inputData)
    as (T0 & I0 & S0 & N0) by (repeat split).
  destruct (records_projections _ _ _ (step0_records row0 this0))
    as (T1 & I1 & S1 & N1 & _).
  set (this1 := step0 row0 this0) in *.
  destruct (records_projections _ _ _ (step1_records inputData labels row0 this1))
    as (T2 & I2 & S2 & N2 & _).
  set (this2 := step1 inputData labels row0 this1) in *.
  destruct (records_projections _ _ _ (step2_records inputData this2))
    as (T3 & I3 & S3 & N3 & _).
  set (this3 := step2 inputData this2) in *.
  destruct (step3_records this3) as (this4 & E4 & R4); [lia|].
  rewrite E4.
  destruct (records_projections _ _ _ R4) as (T4 & I4 & S4 & _).
  destruct (records_projections _ _ _ (step4_records this4))
    as (T5 & I5 & S5 & _).
  set (this5 := step4 this4) in *.
  destruct (records_projections _ _ _ (step5_records this5))
    as (T6 & I6 & S6 & _).
  set (this6 := step5 this5) in *.
  destruct (records_projections _ _ _ (step6_records this6))
    as (T7 & I7 & S7 & _).
  set (this7 := step6 this6) in *.
  destruct (records_projections _ _ _ (step7_records rnd this7))
    as (T8 & I8 & S8 & _).
  set (this8 := step7 rnd this7) in *.
  destruct (records_projections _ _ _ (step8_records this8))
    as (T9 & I9 & S9 & _).
  set (this9 := step8 this8) in *.
  destruct (records_projections _ _ _ (step9_records this9))
    as (T10 & I10 & S10 & _).
  set (this10 := step9 this9) in *.
  destruct (records_projections _ _ _ (step10_records this10))
    as (T11 & I11 & S11 & _).
  set (this11 := step10 this10) in *.
  destruct (records_projections _ _ _ (step11_records this11))
    as (T12 & I12 & S12 & _).
  set (this12 := step11 this11) in *.
  destruct (records_projections _ _ _ (step12_records this12))
    as (T13 & I13 & S13 & _).
  set (this13 := step12 this12) in *.
  destruct (records_projections _ _ _ (step13_records labels this13))
    as (T14 & I14 & S14 & _).
  set (this14 := step13 labels this13) in *.
  exists this14. split; [reflexivity|]. split.
  - rewrite T14, T13, T12, T11, T10, T9, T8, T7, T6, T5, T4, T3, T2, T1, T0.
    reflexivity.
  - rewrite I14, I13, I12, I11, I10, I9, I8, I7, I6, I5, I4, I3, I2, I1, I0.
    rewrite S13, S12, S11, S10, S9, S8, S7, S6, S5, S4, S3, S2, S1, S0.
    reflexivity.
Qed.

(** C10, the claim as amended.  For every input with at least one point
    and every configuration, [run] on a newly constructed engine returns
    and has recorded exactly 14 snapshots, whose step types are, in order,
    INTRO to FINAL_RESULT and whose step identifiers are 0 to 13. *)
Theorem run_snapshot_sequence
    (rnd : draws) (o : options) (inputData : list (list R)) (labels : list Z) :
  (1 <= length inputData)%nat ->
  exists this',
    run_fresh rnd o inputData labels = Some this' /\
    length (snapshots this') = 14%nat /\
    step_types this'
    = [INTRO; INPUT_DATA; COMPUTE_DISTANCES; COMPUTE_SIGMAS;
       COMPUTE_P_CONDITIONAL; SYMMETRIZE_P; EARLY_EXAGGERATION;
       INITIALIZE_EMBEDDING; COMPUTE_Q; COMPUTE_GRADIENT; UPDATE_EMBEDDING;
       ITERATION_PROGRESS; REMOVE_EXAGGERATION; FINAL_RESULT] /\
    step_ids this' = [0; 1; 2; 3; 4; 5; 6; 7; 8; 9; 10; 11; 12; 13]%nat.
Proof.
  intros Hlen.
  destruct (run_records rnd inputData labels (new o) Hlen)
    as (this' & Hrun & Htypes & Hids).
  exists this'. split; [exact Hrun|]. split; [|split; [exact Htypes|exact Hids]].
  apply (f_equal (@length _)) in Htypes. unfold step_types in Htypes.
  rewrite length_map in Htypes. exact Htypes.
Qed.

Lemma run_snapshot_sequence_witness :
  exists this',
    run_fresh draws_a no_options [[0; 0; 0]; [1; 0; 0]] [0%Z; 1%Z] = Some this' /\
    length (snapshots this') = 14%nat /\
    step_types this'
    = [INTRO; INPUT_DATA; COMPUTE_DISTANCES; COMPUTE_SIGMAS;
       COMPUTE_P_CONDITIONAL; SYMMETRIZE_P; EARLY_EXAGGERATION;
       INITIALIZE_EMBEDDING; COMPUTE_Q; COMPUTE_GRADIENT; UPDATE_EMBEDDING;
       ITERATION_PROGRESS; REMOVE_EXAGGERATION; FINAL_RESULT] /\
    step_ids this' = [0; 1; 2; 3; 4; 5; 6; 7; 8; 9; 10; 11; 12; 13]%nat.
Proof.
  apply (run_snapshot_sequence draws_a no_options
           [[0; 0; 0]; [1; 0; 0]] [0%Z; 1%Z]).
  simpl. lia.
Defined.

(** C10, the claim as stated fails on the empty input: [run] reads
    [inputData[0].length] before it records anything, which throws. *)
Lemma run_empty_input :
  run_fresh draws_a no_options [] [] = None.
Proof. reflexivity. Qed.

(** ** Determinism *)

Lemma initializeEmbedding_depends (rnd : draws) (a b : t) :
  n a = n b -> cfg a = cfg b ->
  _initializeEmbedding rnd a = _initializeEmbedding rnd b.
Proof. intros Hn Hc. unfold _initializeEmbedding. now rewrite Hn, Hc. Qed.

Lemma step7_same_embedding (rnd1 rnd2 : draws) (this : t) :
  _initializeEmbedding rnd1 this = _initializeEmbedding rnd2 this ->
  step7 rnd1 this = step7 rnd2 this.
Proof. intros H. unfold step7. now rewrite H. Qed.

(** The draws are used by [_initializeEmbedding] only: from one engine
    state, two runs whose draws give the same initial embedding are the
    same computation. *)
Lemma run_same_initial_embedding
    (rnd1 rnd2 : draws) (inputData : list (list R)) (labels : list Z)
    (this : t) :
  _initializeEmbedding rnd1 (set_n (length inputData) this)
  = _initializeEmbedding rnd2 (set_n (length inputData) this) ->
  run rnd1 inputData labels this = run rnd2 inputData labels this.
Proof.
  intros Hinit.
  unfold run. cbv zeta.
  destruct (inputData !! 0%nat) as [row0|]; [|reflexivity].
  set (this0 := set_snapshots [] _).
  assert (n this0 = length inputData /\ cfg this0 = cfg this)
    as [N0 C0] by (split; reflexivity).
  destruct (records_projections _ _ _ (step0_records row0 this0))
    as (_ & _ & _ & N1 & C1).
  set (this1 := step0 row0 this0) in *.
  destruct (records_projections _ _ _ (step1_records inputData labels row0 this1))
    as (_ & _ & _ & N2 & C2).
  set (this2 := step1 inputData labels row0 this1) in *.
  destruct (records_projections _ _ _ (step2_records inputData this2))
    as (_ & _ & _ & N3 & C3).
  set (this3 := step2 inputData this2) in *.
  destruct (step3 this3) as [this4|] eqn:E4; [|reflexivity].
  assert (n this4 = n this3 /\ cfg this4 = cfg this3) as [N4 C4].
  { unfold step3 in E4. cbv zeta in E4.
    destruct (sigmas _) in E4; [discriminate|].
    injection E4 as <-. split; reflexivity. }
  destruct (records_projections _ _ _ (step4_records this4))
    as (_ & _ & _ & N5 & C5).
  set (this5 := step4 this4) in *.
  destruct (records_projections _ _ _ (step5_records this5))
    as (_ & _ & _ & N6 & C6).
  set (this6 := step5 this5) in *.
  destruct (records_projections _ _ _ (step6_records this6))
    as (_ & _ & _ & N7 & C7).
  set (this7 := step6 this6) in *.
  assert (n this7 = n (set_n (length inputData) this)) as N
    by (change (n this7 = length inputData); lia).
  assert (cfg this7 = cfg (set_n (length inputData) this)) as C
    by (change (cfg this7 = cfg this); congruence).
  rewrite (step7_same_embedding rnd1 rnd2 this7); [reflexivity|].
  rewrite (initializeEmbedding_depends rnd1 _ _ N C),
          (initializeEmbedding_depends rnd2 _ _ N C).
  exact Hinit.
Qed.


End Run.

(** * Further properties of the engine *)

(** ** Distances *)

Lemma squaredEuclideanDistance_sum (a b : list R) :
  squaredEuclideanDistance a b
  = sumR (fun i => (aget a i - aget b i) * (aget a i - aget b i)) (length a).
Proof.
  unfold squaredEuclideanDistance.
  apply (for_range_sum
           (fun i => (aget a i - aget b i) * (aget a i - aget b i))).
Qed.

Lemma sumR_zero (n : nat) : sumR (fun _ => 0) n = 0.
Proof. induction n as [|n IH]; simpl; lra. Qed.

Lemma sumR_zero_terms (f : nat -> R) (n : nat) :
  (forall k, (k < n)%nat -> 0 <= f k) -> sumR f n = 0 ->
  forall k, (k < n)%nat -> f k = 0.
Proof.
  intros Hf Hsum k Hk. pose proof (sumR_term_le f n k Hf Hk).
  specialize (Hf k Hk). lra.
Qed.

Lemma squaredEuclideanDistance_sym (a b : list R) :
  length a = length b ->
  squaredEuclideanDistance a b = squaredEuclideanDistance b a.
Proof.
  intros Hlen. rewrite !squaredEuclideanDistance_sum, Hlen. apply sumR_ext.
  intros k _. ring.
Qed.

(** X1.  The squared distance is the sum of the squared differences over the
    coordinates of the first point; it is never negative, it is zero
    between a point and itself, it is zero only when the second point has
    the coordinates of the first, and it is symmetric between points of
    one dimension. *)
Theorem squaredEuclideanDistance_metric (a b : list R) :
  length a = length b ->
  0 <= squaredEuclideanDistance a b /\
  squaredEuclideanDistance a a = 0 /\
  squaredEuclideanDistance a b = squaredEuclideanDistance b a /\
  (squaredEuclideanDistance a b = 0 ->
   forall i, (i < length a)%nat -> aget a i = aget b i) /\
  euclideanDistance a b * euclideanDistance a b
  = squaredEuclideanDistance a b.
Proof.
  intros Hlen.
  assert (0 <= squaredEuclideanDistance a b) as Hpos.
  { rewrite squaredEuclideanDistance_sum. apply sumR_nonneg. intros k _. apply Rle_0_sqr. }
  split; [exact Hpos|]. split; [|split; [|split]].
  - rewrite squaredEuclideanDistance_sum.
    rewrite (sumR_ext _ (fun _ => 0)) by (intros; ring). apply sumR_zero.
  - apply squaredEuclideanDistance_sym. exact Hlen.
  - rewrite squaredEuclideanDistance_sum. intros H0 i Hi.
    pose proof (sumR_zero_terms _ _ ltac:(intros k _; apply Rle_0_sqr) H0 i Hi) as H.
    cbv beta in H. apply Rmult_integral in H. lra.
  - unfold euclideanDistance. apply sqrt_sqrt. exact Hpos.
Qed.

Lemma squaredEuclideanDistance_metric_witness :
  0 <= squaredEuclideanDistance [1; 2] [3; 5] /\
  squaredEuclideanDistance [1; 2] [1; 2] = 0 /\
  squaredEuclideanDistance [1; 2] [3; 5] = squaredEuclideanDistance [3; 5] [1; 2] /\
  (squaredEuclideanDistance [1; 2] [3; 5] = 0 ->
   forall i, (i < length [1; 2])%nat -> aget [1; 2] i = aget [3; 5] i) /\
  euclideanDistance [1; 2] [3; 5] * euclideanDistance [1; 2] [3; 5]
  = squaredEuclideanDistance [1; 2] [3; 5].
Proof.
  apply (squaredEuclideanDistance_metric [1; 2] [3; 5]). reflexivity.
Defined.

(** What [computeDistanceMatrix] returns, entry by entry. *)
Lemma computeDistanceMatrix_entries (X : list (list R)) :
  let n := length X in
  let D := computeDistanceMatrix X in
  shape n n D /\
  forall a b, mget D a b
              = if decide ((a < n)%nat /\ (b < n)%nat /\ a <> b)
                then squaredEuclideanDistance (mrow X (Nat.min a b))
                       (mrow X (Nat.max a b))
                else 0.
Proof.
  intros n D. subst D. unfold computeDistanceMatrix. fold n.
  destruct (mirror_loop n (zeros2 n n)
              (fun i j => squaredEuclideanDistance (mrow X i) (mrow X j))
              (shape_zeros2 n n)) as [H G].
  cbv zeta in H, G. split; [exact H|].
  intros a b. rewrite G, mget_zeros2. reflexivity.
Qed.

(** X2.  The distance matrix of [N] points of one dimension is [N] by [N], its
    diagonal is zero, it is symmetric, its entries are never negative, and
    the entry of two points is their squared distance, although only the
    pairs [i < j] are computed. *)
Theorem computeDistanceMatrix_symmetric
    (X : list (list R)) (d i j : nat) :
  shape (length X) d X ->
  (i < length X)%nat -> (j < length X)%nat ->
  let D := computeDistanceMatrix X in
  shape (length X) (length X) D /\
  mget D i i = 0 /\
  mget D i j = mget D j i /\
  0 <= mget D i j /\
  mget D i j = squaredEuclideanDistance (mrow X i) (mrow X j).
Proof.
  intros HX Hi Hj D.
  destruct (computeDistanceMatrix_entries X) as [H G]. fold D in H, G.
  split; [exact H|]. split; [|split; [|split]].
  - rewrite G. cases.
  - rewrite !G. cases. rewrite Nat.min_comm, Nat.max_comm. reflexivity.
  - rewrite G. cases; try lra.
    rewrite squaredEuclideanDistance_sum. apply sumR_nonneg. intros k _. apply Rle_0_sqr.
  - rewrite G. destruct (decide ((i < length X)%nat /\ (j < length X)%nat /\ i <> j))
      as [(_ & _ & Hne)|Hn].
    + destruct (Nat.le_ge_cases i j).
      * rewrite Nat.min_l, Nat.max_r by lia. reflexivity.
      * rewrite Nat.min_r, Nat.max_l by lia.
        apply squaredEuclideanDistance_sym.
        rewrite !(shape_row (length X) d X) by assumption. reflexivity.
    + assert (i = j) as -> by lia.
      rewrite squaredEuclideanDistance_sum.
      rewrite (sumR_ext _ (fun _ => 0)) by (intros; ring).
      symmetry. apply sumR_zero.
Qed.

Lemma computeDistanceMatrix_symmetric_witness :
  let D := computeDistanceMatrix [[0; 0]; [3; 4]] in
  shape 2 2 D /\
  mget D 0 0 = 0 /\
  mget D 0 1 = mget D 1 0 /\
  0 <= mget D 0 1 /\
  mget D 0 1
  = squaredEuclideanDistance (mrow [[0; 0]; [3; 4]] 0) (mrow [[0; 0]; [3; 4]] 1).
Proof.
  apply (computeDistanceMatrix_symmetric [[0; 0]; [3; 4]] 2 0 1);
    [apply shapeb_correct; reflexivity | simpl; lia | simpl; lia].
Defined.

(** ** Entropy and perplexity *)

Lemma ln_2_pos : 0 < ln 2.
Proof. rewrite <- ln_1. apply ln_increasing; lra. Qed.

Lemma entropyToPerplexity_log2 (T : R) :
  0 < T -> entropyToPerplexity (log2 T) = T.
Proof.
  intros HT. pose proof ln_2_pos as H2.
  unfold entropyToPerplexity, log2, Rpower.
  replace (ln T / ln 2 * ln 2) with (ln T) by (field; lra).
  apply exp_ln. exact HT.
Qed.

(** X3.  Perplexity and entropy convert into one another: [2 ^ log2 T = T] for
    a positive perplexity, and [log2 (2 ^ H) = H] for every entropy. *)
Theorem perplexity_entropy_round_trip (T H : R) :
  0 < T ->
  entropyToPerplexity (log2 T) = T /\ log2 (entropyToPerplexity H) = H.
Proof.
  intros HT. split; [apply entropyToPerplexity_log2; exact HT|].
  pose proof ln_2_pos as H2.
  unfold entropyToPerplexity, log2, Rpower.
  rewrite ln_exp. field. lra.
Qed.

Lemma perplexity_entropy_round_trip_witness :
  entropyToPerplexity (log2 30) = 30 /\ log2 (entropyToPerplexity 5) = 5.
Proof. apply (perplexity_entropy_round_trip 30 5). lra. Defined.

Lemma shannonEntropy_sum (P : list R) :
  shannonEntropy P
  = sumR (fun i => if decide (1e-12 < aget P i)
                   then - (aget P i * log2 (aget P i)) else 0) (length P).
Proof.
  unfold shannonEntropy.
  pose (Inv := fun (k : nat) (H : R) =>
    H = sumR (fun i => if decide (1e-12 < aget P i)
                       then - (aget P i * log2 (aget P i)) else 0) k).
  apply (for_range_inv Inv); subst Inv; cbv beta; [lia|reflexivity|].
  intros k H _ ->. simpl. case_decide; lra.
Qed.

Lemma sumR_const (c : R) (n : nat) : sumR (fun _ => c) n = INR n * c.
Proof.
  induction n as [|n IH]; [simpl; ring|]. rewrite S_INR. simpl. rewrite IH. ring.
Qed.

Lemma log2_le_0 (x : R) : 0 < x -> x <= 1 -> log2 x <= 0.
Proof.
  intros H0 H1. unfold log2. pose proof ln_2_pos.
  assert (ln x <= 0).
  { destruct H1 as [H1| ->]; [|rewrite ln_1; lra].
    left. rewrite <- ln_1. now apply ln_increasing. }
  apply Rmult_le_reg_r with (ln 2); [assumption|].
  unfold Rdiv. rewrite Rmult_assoc, Rinv_l by lra. lra.
Qed.

(** X4.  The entropy of a row is the sum of [- p * log2 p] over its entries
    above [1e-12], the other entries counting for nothing, and it is never
    negative when no entry exceeds one. *)
Theorem shannonEntropy_nonneg (P : list R) :
  (forall i, (i < length P)%nat -> aget P i <= 1) ->
  shannonEntropy P
  = sumR (fun i => if decide (1e-12 < aget P i)
                   then - (aget P i * log2 (aget P i)) else 0) (length P) /\
  0 <= shannonEntropy P.
Proof.
  intros Hle. split; [apply shannonEntropy_sum|].
  rewrite shannonEntropy_sum. apply sumR_nonneg. intros k Hk. cbv beta.
  case_decide as Hp; [|lra].
  pose proof (log2_le_0 (aget P k) ltac:(lra) (Hle k Hk)). nra.
Qed.

Lemma shannonEntropy_nonneg_witness :
  shannonEntropy [0; 0.5; 0.5]
  = sumR (fun i => if decide (1e-12 < aget [0; 0.5; 0.5] i)
                   then - (aget [0; 0.5; 0.5] i * log2 (aget [0; 0.5; 0.5] i))
                   else 0) (length [0; 0.5; 0.5]) /\
  0 <= shannonEntropy [0; 0.5; 0.5].
Proof.
  apply (shannonEntropy_nonneg [0; 0.5; 0.5]).
  intros i Hi. destruct i as [|[|[|i]]]; unfold aget; simpl in *; try lra; lia.
Defined.

Lemma aget_replicate (k i : nat) (c : R) :
  (i < k)%nat -> aget (replicate k c) i = c.
Proof.
  intros Hi. unfold aget. rewrite lookup_replicate_2 by exact Hi. reflexivity.
Qed.

(** X5.  A row that gives the same probability [1/k] to [k] points has entropy
    [log2 k] and perplexity [k]: the perplexity counts the neighbours. *)
Theorem uniform_row_perplexity (k : nat) :
  (1 <= k)%nat -> INR k < 1e12 ->
  shannonEntropy (replicate k (/ INR k)) = log2 (INR k) /\
  entropyToPerplexity (shannonEntropy (replicate k (/ INR k))) = INR k.
Proof.
  intros Hk Hbig.
  assert (0 < INR k) as Hpos by (apply lt_0_INR; lia).
  assert (1e-12 < / INR k) as Hinv.
  { apply (Rmult_lt_reg_r (INR k)); [exact Hpos|].
    rewrite Rinv_l by lra. lra. }
  assert (shannonEntropy (replicate k (/ INR k)) = log2 (INR k)) as HH.
  { rewrite shannonEntropy_sum, length_replicate.
    rewrite (sumR_ext _ (fun _ => - (/ INR k * log2 (/ INR k)))).
    - rewrite sumR_const. unfold log2. rewrite ln_Rinv by exact Hpos.
      field. split; [pose proof ln_2_pos|]; lra.
    - intros i Hi. rewrite aget_replicate by exact Hi.
      case_decide; [reflexivity|contradiction]. }
  split; [exact HH|]. rewrite HH.
  apply entropyToPerplexity_log2. exact Hpos.
Qed.

Lemma uniform_row_perplexity_witness :
  shannonEntropy (replicate 4 (/ INR 4)) = log2 (INR 4) /\
  entropyToPerplexity (shannonEntropy (replicate 4 (/ INR 4))) = INR 4.
Proof.
  apply (uniform_row_perplexity 4); [lia|simpl; lra].
Defined.

(** ** The cost *)

(** X6.  The divergence of a matrix from one that agrees with it off the
    diagonal wherever its entries exceed [1e-12] is zero; in particular
    the divergence of a matrix from itself. *)
Theorem klDivergence_self (P Q : list (list R)) :
  (forall a b, a <> b -> 1e-12 < mget P a b -> mget Q a b = mget P a b) ->
  klDivergence P Q = 0 /\ klDivergence P P = 0.
Proof.
  assert (forall Q', (forall a b, a <> b -> 1e-12 < mget P a b ->
                        mget Q' a b = mget P a b) ->
                     klDivergence P Q' = 0) as Hgen.
  { intros Q' HQ. unfold klDivergence.
    pose (Inv := fun (k : nat) (kl : R) => kl = 0).
    apply (for_range_inv Inv); subst Inv; cbv beta; [lia|reflexivity|].
    intros i kl _ ->.
    pose (Inv2 := fun (k : nat) (kl : R) => kl = 0).
    apply (for_range_inv Inv2); subst Inv2; cbv beta; [lia|reflexivity|].
    intros j kl _ ->.
    destruct (Nat.eqb_spec i j) as [->|Hne]; simpl; [reflexivity|].
    case_bool_decide as Hp; [|reflexivity].
    rewrite (HQ i j Hne Hp).
    replace (mget P i j / mget P i j) with 1 by (field; lra).
    rewrite ln_1. ring. }
  intros HQ. split; [apply Hgen, HQ|apply Hgen; reflexivity].
Qed.

Lemma klDivergence_self_witness :
  klDivergence [[0; 0.5]; [0.5; 0]] [[7; 0.5]; [0.5; 9]] = 0 /\
  klDivergence [[0; 0.5]; [0.5; 0]] [[0; 0.5]; [0.5; 0]] = 0.
Proof.
  apply (klDivergence_self [[0; 0.5]; [0.5; 0]] [[7; 0.5]; [0.5; 9]]).
  intros a b Hne Hp.
  destruct a as [|[|a]], b as [|[|b]]; unfold mget, mrow, aget in *;
    simpl in *; try reflexivity; try lia; try lra.
Defined.

(** ** The low-dimensional similarities *)

(** A loop over a pair whose components do not read one another is the
    pair of the two loops. *)
Lemma for_range_pair {A B : Type} (f : nat -> A -> A) (g : nat -> B -> B)
    (lo hi : nat) (a : A) (b : B) :
  for_range lo hi (fun k '(x, y) => (f k x, g k y)) (a, b)
  = (for_range lo hi f a, for_range lo hi g b).
Proof.
  destruct (decide (lo <= hi)%nat) as [Hle|Hgt].
  - pose (Inv := fun (k : nat) (s : A * B) =>
              s = (for_range lo k f a, for_range lo k g b)).
    apply (for_range_inv Inv); subst Inv; cbv beta; [exact Hle| |].
    + now rewrite !for_range_empty.
    + intros k s Hk ->. rewrite !for_range_last by lia. reflexivity.
  - rewrite !for_range_empty by lia. reflexivity.
Qed.

(** The first loop nest of [computeQMatrix] and [computeQMatrixFull]. *)
Lemma student_loop (Y : list (list R)) :
  let n := length Y in
  let r :=
    for_range 0 n (fun i '(Qunnorm, sum) =>
      for_range (i + 1) n (fun j '(Qunnorm, sum) =>
        let distSq := squaredEuclideanDistance (mrow Y i) (mrow Y j) in
        let qij := 1 / (1 + distSq) in
        let Qunnorm := mset Qunnorm i j qij in
        let Qunnorm := mset Qunnorm j i qij in
        (Qunnorm, sum + 2 * qij)) (Qunnorm, sum)) (zeros2 n n, 0) in
  shape n n (fst r) /\
  (forall a b, mget (fst r) a b
               = if decide ((a < n)%nat /\ (b < n)%nat /\ a <> b)
                 then student_kernel Y (Nat.min a b) (Nat.max a b) else 0) /\
  snd r = student_total Y.
Proof.
  intros n r. subst r.
  rewrite (for_range_ext _
             (fun i '(Qunnorm, sum) =>
                (for_range (i + 1) n (fun j M =>
                   let pij := student_kernel Y i j in
                   let M := mset M i j pij in mset M j i pij) Qunnorm,
                 for_range (i + 1) n (fun j sum =>
                   sum + 2 * student_kernel Y i j) sum))).
  - rewrite for_range_pair. simpl.
    destruct (mirror_loop n (zeros2 n n) (student_kernel Y) (shape_zeros2 n n))
      as [H G].
    cbv zeta in H, G. split; [exact H|]. split; [|reflexivity].
    intros a b. rewrite G, mget_zeros2. reflexivity.
  - intros i [Qunnorm sum] _.
    apply (for_range_pair
             (fun j M => let pij := student_kernel Y i j in
                         let M := mset M i j pij in mset M j i pij)
             (fun j sum => sum + 2 * student_kernel Y i j)).
Qed.

(** [for i < r: for j < c: if (test i j) M[i][j] = f i j M[i][j]]. *)
Lemma guarded_row_loop (n m : nat) (M : list (list R)) (i c : nat)
    (test : nat -> bool) (f : nat -> R -> R) :
  shape n m M -> (i < n)%nat -> (c <= m)%nat ->
  let M' :=
    for_range 0 c (fun j M =>
      if test j then mset M i j (f j (mget M i j)) else M) M in
  shape n m M' /\
  forall a b, mget M' a b
              = if decide (a = i /\ (b < c)%nat /\ test b = true)
                then f b (mget M a b) else mget M a b.
Proof.
  intros HM Hi Hc M'. subst M'.
  pose (Inv := fun (k : nat) (M1 : list (list R)) =>
    shape n m M1 /\
    forall a b, mget M1 a b
                = if decide (a = i /\ (b < k)%nat /\ test b = true)
                  then f b (mget M a b) else mget M a b).
  apply (for_range_inv Inv); subst Inv; cbv beta; [lia| |].
  - split; [exact HM|]. intros a b. cases.
  - intros k M1 Hk [HM1 IH].
    assert (forall a b : nat,
              (if decide (a = i /\ (b < S k)%nat /\ test b = true)
               then f b (mget M a b) else mget M a b)
              = if decide (a = i /\ b = k /\ test k = true)
                then f k (mget M i k) else mget M1 a b) as Hstep.
    { intros a b. rewrite IH.
      destruct (decide (a = i /\ b = k /\ test k = true)) as [(-> & -> & Ht)|Hne].
      - rewrite decide_True by (repeat split; [lia|exact Ht]). reflexivity.
      - destruct (decide (b = k)) as [->|Hbk].
        + rewrite !decide_False; [reflexivity| |]; intros (Ha & Hb & Ht);
            try lia; apply Hne; auto.
        + destruct (decide (a = i /\ (b < k)%nat /\ test b = true))
            as [(Ha & Hb & Ht)|Hn].
          * rewrite decide_True by (repeat split; [exact Ha|lia|exact Ht]).
            reflexivity.
          * rewrite decide_False; [reflexivity|].
            intros (Ha & Hb & Ht). apply Hn. repeat split; [exact Ha|lia|exact Ht]. }
    destruct (test k) eqn:Ek.
    + split; [now apply shape_mset|].
      intros a b. rewrite (mget_mset n m) by (auto; lia).
      rewrite Hstep, (IH i k).
      rewrite (decide_False (P := i = i /\ (k < k)%nat /\ test k = true))
        by (intros (_ & Hlt & _); lia).
      repeat case_decide; try reflexivity; exfalso; intuition congruence.
    + split; [exact HM1|]. intros a b. rewrite Hstep.
      rewrite decide_False; [reflexivity|]. intros (_ & _ & Ht). congruence.
Qed.

Lemma guarded_grid_loop (n m : nat) (M : list (list R)) (r c : nat)
    (test : nat -> nat -> bool) (f : nat -> nat -> R -> R) :
  shape n m M -> (r <= n)%nat -> (c <= m)%nat ->
  let M' :=
    for_range 0 r (fun i M =>
      for_range 0 c (fun j M =>
        if test i j then mset M i j (f i j (mget M i j)) else M) M) M in
  shape n m M' /\
  forall a b, mget M' a b
              = if decide ((a < r)%nat /\ (b < c)%nat /\ test a b = true)
                then f a b (mget M a b) else mget M a b.
Proof.
  intros HM Hr Hc M'. subst M'.
  pose (Inv := fun (k : nat) (M1 : list (list R)) =>
    shape n m M1 /\
    forall a b, mget M1 a b
                = if decide ((a < k)%nat /\ (b < c)%nat /\ test a b = true)
                  then f a b (mget M a b) else mget M a b).
  apply (for_range_inv Inv); subst Inv; cbv beta; [lia| |].
  - split; [exact HM|]. intros a b. cases.
  - intros k M1 Hk [HM1 IH].
    destruct (guarded_row_loop n m M1 k c (test k) (f k) HM1) as [HM2 Hget];
      [lia|lia|].
    split; [exact HM2|]. intros a b. rewrite Hget, !IH.
    destruct (decide (a = k)) as [->|Hak].
    + rewrite (decide_False (P := (k < k)%nat /\ (b < c)%nat /\ test k b = true))
        by lia.
      apply decide_ext. intuition lia.
    + rewrite (decide_False (P := a = k /\ (b < c)%nat /\ test k b = true))
        by (intros (Ha & _); contradiction).
      apply decide_ext. intuition lia.
Qed.

(** The second loop nest: the normalisation with the floor. *)
Lemma floor_loop (n : nat) (U : list (list R)) (sum : R) :
  let Q :=
    for_range 0 n (fun i Q =>
      for_range 0 n (fun j Q =>
        if negb (Nat.eqb i j)
        then mset Q i j (Rmax (mget U i j / sum) 1e-12)
        else Q) Q) (zeros2 n n) in
  shape n n Q /\
  forall a b, mget Q a b
              = if decide ((a < n)%nat /\ (b < n)%nat /\ a <> b)
                then Rmax (mget U a b / sum) 1e-12 else 0.
Proof.
  intros Q. subst Q.
  destruct (guarded_grid_loop n n (zeros2 n n) n n
              (fun i j => negb (Nat.eqb i j))
              (fun i j _ => Rmax (mget U i j / sum) 1e-12)
              (shape_zeros2 n n)) as [H G]; [lia|lia|].
  cbv zeta in H, G. split; [exact H|].
  intros a b. rewrite G, mget_zeros2.
  destruct (Nat.eqb_spec a b); simpl; cases.
Qed.

(** What [computeQMatrix] returns, entry by entry. *)
Lemma computeQMatrix_entries (Y : list (list R)) :
  let n := length Y in
  let Q := computeQMatrix Y in
  shape n n Q /\
  forall a b, mget Q a b
              = if decide ((a < n)%nat /\ (b < n)%nat /\ a <> b)
                then Rmax (student_kernel Y (Nat.min a b) (Nat.max a b)
                           / student_total Y) 1e-12
                else 0.
Proof.
  intros n Q. subst Q. unfold computeQMatrix. fold n.
  pose proof (student_loop Y) as H. cbv zeta in H. fold n in H.
  destruct (for_range 0 n _ (zeros2 n n, 0)) as [U sum].
  simpl in H. destruct H as (HU & GU & ->).
  destruct (floor_loop n U (student_total Y)) as [HQ GQ].
  cbv zeta in HQ, GQ. split; [exact HQ|].
  intros a b. rewrite GQ, GU. cases.
Qed.

(** X7.  The matrix [Q] of [N] points of one dimension is [N] by [N], its
    diagonal is zero, it is symmetric, every entry off the diagonal is at
    least [1e-12], and [computeQMatrixFull] returns the same [Q] beside
    the kernel values [1 / (1 + |y_i - y_j|^2)]. *)
Theorem computeQMatrix_symmetric (Y : list (list R)) (d i j : nat) :
  shape (length Y) d Y ->
  (i < length Y)%nat -> (j < length Y)%nat ->
  let Q := computeQMatrix Y in
  shape (length Y) (length Y) Q /\
  mget Q i i = 0 /\
  mget Q i j = mget Q j i /\
  (i <> j -> 1e-12 <= mget Q i j) /\
  fst (computeQMatrixFull Y) = Q /\
  (i <> j ->
   mget (snd (computeQMatrixFull Y)) i j
   = 1 / (1 + squaredEuclideanDistance (mrow Y i) (mrow Y j))).
Proof.
  intros HY Hi Hj Q.
  destruct (computeQMatrix_entries Y) as [H G]. fold Q in H, G.
  split; [exact H|]. split; [|split; [|split; [|split]]].
  - rewrite G. cases.
  - rewrite !G. cases. rewrite Nat.min_comm, Nat.max_comm. reflexivity.
  - intros Hne. rewrite G. cases. apply Rmax_r.
  - subst Q. unfold computeQMatrixFull, computeQMatrix.
    destruct (for_range 0 (length Y) _ (zeros2 (length Y) (length Y), 0))
      as [U sum].
    reflexivity.
  - intros Hne. unfold computeQMatrixFull.
    pose proof (student_loop Y) as HS. cbv zeta in HS.
    destruct (for_range 0 (length Y) _ (zeros2 (length Y) (length Y), 0))
      as [U sum].
    simpl in HS. destruct HS as (_ & GU & _). simpl. rewrite GU. cases.
    destruct (Nat.le_ge_cases i j).
    + rewrite Nat.min_l, Nat.max_r by lia. reflexivity.
    + rewrite Nat.min_r, Nat.max_l by lia. unfold student_kernel.
      rewrite (squaredEuclideanDistance_sym (mrow Y j) (mrow Y i));
        [reflexivity|].
      rewrite !(shape_row (length Y) d Y) by assumption. reflexivity.
Qed.

Lemma computeQMatrix_symmetric_witness :
  let Q := computeQMatrix [[0; 0]; [3; 4]] in
  shape 2 2 Q /\
  mget Q 0 0 = 0 /\
  mget Q 0 1 = mget Q 1 0 /\
  (0%nat <> 1%nat -> 1e-12 <= mget Q 0 1) /\
  fst (computeQMatrixFull [[0; 0]; [3; 4]]) = Q /\
  (0%nat <> 1%nat ->
   mget (snd (computeQMatrixFull [[0; 0]; [3; 4]])) 0 1
   = 1 / (1 + squaredEuclideanDistance
                (mrow [[0; 0]; [3; 4]] 0) (mrow [[0; 0]; [3; 4]] 1))).
Proof.
  apply (computeQMatrix_symmetric [[0; 0]; [3; 4]] 2 0 1);
    [apply shapeb_correct; reflexivity | simpl; lia | simpl; lia].
Defined.

(** ** The bandwidths *)

Lemma findSigma_loop_positive (distances : list R) (i : nat) (target : R)
    (returnHistory : bool) (tol : R) :
  forall (fuel iter : nat) (sigmaMin sigmaMax sigma : R)
         (history : list historyEntry),
    0 < sigmaMin -> 0 < sigmaMax -> 0 < sigma ->
    let r :=
      findSigma_loop fuel iter distances i target returnHistory tol
        sigmaMin sigmaMax sigma history in
    0 < r_sigma r /\
    r_P r = computeConditionalProbabilities distances (r_sigma r) i /\
    r_entropy r = shannonEntropy (r_P r) /\
    r_perplexity r = entropyToPerplexity (r_entropy r).
Proof.
  induction fuel as [|fuel IH]; intros iter smin smax s history Hmin Hmax Hs r;
    subst r.
  - simpl. auto.
  - cbn [findSigma_loop]. cbv zeta.
    destruct (decide (Rabs _ < tol)); [simpl; auto|].
    destruct (decide (0 < _)).
    + apply IH; lra.
    + apply IH; try lra. destruct (decide (smax = 1e10)); lra.
Qed.

(** The entries of a conditional row lie between zero and one, and the
    entry of the centre is zero. *)
Lemma conditional_row_bounds (distances : list R) (sigma : R) (i j : nat) :
  let P := computeConditionalProbabilities distances sigma i in
  0 <= aget P j <= 1 /\ aget P i = 0.
Proof.
  intros P.
  destruct (computeConditionalProbabilities_entries distances sigma i)
    as [Hlen Hget].
  cbv zeta in Hlen, Hget. fold P in Hlen, Hget. split.
  - rewrite Hget. pose proof (kernel_pos distances sigma j) as Hk.
    destruct (decide ((j < length distances)%nat /\ j <> i)) as [Hj|Hj]; [|lra].
    pose proof (sum_except_term_le i (kernel distances sigma)
                  (length distances) j (kernel_pos distances sigma)
                  ltac:(lia) ltac:(lia)) as Hle.
    destruct (decide (1e-12 < sum_except i (kernel distances sigma)
                                (length distances))) as [Hs|Hs].
    + split.
      * apply Rmult_le_pos; [lra|]. left. apply Rinv_0_lt_compat. lra.
      * apply (Rmult_le_reg_r (sum_except i (kernel distances sigma)
                                 (length distances))); [lra|].
        unfold Rdiv. rewrite Rmult_assoc, Rinv_l by lra. lra.
    + lra.
  - rewrite Hget. cases.
Qed.

Lemma findSigma_sigma_pos
    (distanceMatrix : list (list R)) (i : nat) (T : R)
    (returnHistory : bool) (maxIter : nat) (tol : R) :
  0 < r_sigma (findSigma distanceMatrix i T returnHistory maxIter tol).
Proof.
  unfold findSigma. cbv zeta.
  apply (findSigma_loop_positive (mrow distanceMatrix i) i (log2 T)
           returnHistory tol maxIter 0 1e-10 1e10 1 []); lra.
Qed.

(** X9.  For every row, positive target, budget and tolerance, [findSigma]
    returns a positive bandwidth together with the conditional row, entropy and
    perplexity of that bandwidth; the entries of the row lie between zero
    and one and the entry of the point itself is zero. *)
Theorem findSigma_positive
    (distanceMatrix : list (list R)) (i j : nat) (T : R)
    (returnHistory : bool) (maxIter : nat) (tol : R) :
  (i < length distanceMatrix)%nat -> 0 < T ->
  let r := findSigma distanceMatrix i T returnHistory maxIter tol in
  0 < r_sigma r /\
  r_P r = computeConditionalProbabilities (mrow distanceMatrix i) (r_sigma r) i /\
  r_entropy r = shannonEntropy (r_P r) /\
  r_perplexity r = entropyToPerplexity (r_entropy r) /\
  0 <= aget (r_P r) j <= 1 /\
  aget (r_P r) i = 0.
Proof.
  intros _ _ r. subst r. unfold findSigma. cbv zeta.
  destruct (findSigma_loop_positive (mrow distanceMatrix i) i (log2 T)
              returnHistory tol maxIter 0 1e-10 1e10 1 []
              ltac:(lra) ltac:(lra) ltac:(lra)) as (Hpos & HP & HH & Hperp).
  split; [exact Hpos|]. split; [exact HP|]. split; [exact HH|].
  split; [exact Hperp|]. rewrite HP. apply conditional_row_bounds.
Qed.

Lemma findSigma_positive_witness :
  let r := findSigma [[0; 1]; [1; 0]] 0 2 true 50 1e-5 in
  0 < r_sigma r /\
  r_P r = computeConditionalProbabilities (mrow [[0; 1]; [1; 0]] 0) (r_sigma r) 0 /\
  r_entropy r = shannonEntropy (r_P r) /\
  r_perplexity r = entropyToPerplexity (r_entropy r) /\
  0 <= aget (r_P r) 1 <= 1 /\
  aget (r_P r) 0 = 0.
Proof.
  apply (findSigma_positive [[0; 1]; [1; 0]] 0 1 2 true 50 1e-5);
    [simpl; lia | lra].
Defined.

(** A loop that pushes one value per iteration builds the list of the
    values. *)
Lemma push_loop {A : Type} (f : nat -> A) (n : nat) :
  for_range 0 n (fun k l => l ++ [f k]) [] = map f (seq 0 n).
Proof.
  induction n as [|n IH]; [reflexivity|].
  rewrite for_range_last by lia. rewrite IH, seq_S, map_app. reflexivity.
Qed.

Lemma computeAllSigmas_list (this : PrecomputedTSNE.t) :
  fst (PrecomputedTSNE._computeAllSigmas this)
  = map (fun k =>
           r_sigma (findSigma (PrecomputedTSNE.distanceMatrix this) k
                      (PrecomputedTSNE.perplexity (PrecomputedTSNE.cfg this))
                      true findSigma_maxIter findSigma_tol))
        (seq 0 (PrecomputedTSNE.n this)) /\
  length (snd (PrecomputedTSNE._computeAllSigmas this))
  = Nat.min (PrecomputedTSNE.n this) 3.
Proof.
  unfold PrecomputedTSNE._computeAllSigmas.
  set (sig := fun k => r_sigma (findSigma _ k _ true _ _)).
  pose (Inv := fun (k : nat) (s : list R * list (nat * list historyEntry)) =>
            fst s = map sig (seq 0 k) /\ length (snd s) = Nat.min k 3).
  apply (for_range_inv Inv); subst Inv; cbv beta; [lia|split; reflexivity|].
  intros k [sigmas searchHistory] _ [H1 H2]. simpl in H1, H2.
  rewrite seq_S, map_app. simpl.
  destruct (Nat.ltb_spec k 3); simpl; rewrite ?length_app, H1, ?H2;
    (split; [reflexivity|simpl; lia]).
Qed.

Lemma computeAllSigmas_history (this : PrecomputedTSNE.t) :
  snd (PrecomputedTSNE._computeAllSigmas this)
  = map (fun k =>
           (k, r_history
                 (findSigma (PrecomputedTSNE.distanceMatrix this) k
                    (PrecomputedTSNE.perplexity (PrecomputedTSNE.cfg this))
                    true findSigma_maxIter findSigma_tol)))
        (seq 0 (Nat.min (PrecomputedTSNE.n this) 3)).
Proof.
  unfold PrecomputedTSNE._computeAllSigmas.
  set (hist := fun k => (k, r_history (findSigma _ k _ true _ _))).
  pose (Inv := fun (k : nat) (s : list R * list (nat * list historyEntry)) =>
            snd s = map hist (seq 0 (Nat.min k 3))).
  apply (for_range_inv Inv); subst Inv; cbv beta; [lia|reflexivity|].
  intros k [sigmas searchHistory] _ H. cbn [snd] in H.
  destruct (Nat.ltb_spec k 3) as [Hk|Hk]; cbv zeta; cbn [snd].
  - replace (Nat.min (S k) 3) with (S k) by lia.
    replace (Nat.min k 3) with k in H by lia.
    rewrite seq_S, map_app, H. reflexivity.
  - replace (Nat.min (S k) 3) with 3%nat by lia.
    replace (Nat.min k 3) with 3%nat in H by lia. exact H.
Qed.

(** X10.  [_computeAllSigmas] returns one bandwidth per point, each the positive
    bandwidth that [findSigma] finds for the row of that point with the
    configured perplexity, and keeps the search traces of the first three
    points only: entry [k] of the history carries the point index [k] and
    the trace of the search for point [k], for [k] below [min N 3]. *)
Theorem computeAllSigmas_positive (this : PrecomputedTSNE.t) (k : nat) :
  shape (PrecomputedTSNE.n this) (PrecomputedTSNE.n this)
    (PrecomputedTSNE.distanceMatrix this) ->
  0 < PrecomputedTSNE.perplexity (PrecomputedTSNE.cfg this) ->
  (k < PrecomputedTSNE.n this)%nat ->
  let sigmas := fst (PrecomputedTSNE._computeAllSigmas this) in
  length sigmas = PrecomputedTSNE.n this /\
  aget sigmas k
  = r_sigma (findSigma (PrecomputedTSNE.distanceMatrix this) k
               (PrecomputedTSNE.perplexity (PrecomputedTSNE.cfg this))
               true 50 1e-5) /\
  0 < aget sigmas k /\
  snd (PrecomputedTSNE._computeAllSigmas this)
  = map (fun p =>
           (p, r_history
                 (findSigma (PrecomputedTSNE.distanceMatrix this) p
                    (PrecomputedTSNE.perplexity (PrecomputedTSNE.cfg this))
                    true 50 1e-5)))
        (seq 0 (Nat.min (PrecomputedTSNE.n this) 3)).
Proof.
  intros [HD _] _ Hk sigmas. subst sigmas.
  destruct (computeAllSigmas_list this) as [-> Hhist].
  split; [now rewrite length_map, length_seq|].
  assert (aget (map (fun k0 =>
                       r_sigma (findSigma (PrecomputedTSNE.distanceMatrix this) k0
                          (PrecomputedTSNE.perplexity (PrecomputedTSNE.cfg this))
                          true findSigma_maxIter findSigma_tol))
                  (seq 0 (PrecomputedTSNE.n this))) k
          = r_sigma (findSigma (PrecomputedTSNE.distanceMatrix this) k
                       (PrecomputedTSNE.perplexity (PrecomputedTSNE.cfg this))
                       true 50 1e-5)) as ->.
  { unfold aget. rewrite list_lookup_fmap, lookup_seq_lt by exact Hk.
    reflexivity. }
  split; [reflexivity|]. split; [|apply computeAllSigmas_history].
  apply findSigma_sigma_pos.
Qed.

Lemma computeAllSigmas_positive_witness :
  let sigmas := fst (PrecomputedTSNE._computeAllSigmas engine2) in
  length sigmas = PrecomputedTSNE.n engine2 /\
  aget sigmas 1
  = r_sigma (findSigma (PrecomputedTSNE.distanceMatrix engine2) 1
               (PrecomputedTSNE.perplexity (PrecomputedTSNE.cfg engine2))
               true 50 1e-5) /\
  0 < aget sigmas 1 /\
  snd (PrecomputedTSNE._computeAllSigmas engine2)
  = map (fun p =>
           (p, r_history
                 (findSigma (PrecomputedTSNE.distanceMatrix engine2) p
                    (PrecomputedTSNE.perplexity (PrecomputedTSNE.cfg engine2))
                    true 50 1e-5)))
        (seq 0 (Nat.min (PrecomputedTSNE.n engine2) 3)).
Proof.
  apply (computeAllSigmas_positive engine2 1).
  - apply shapeb_correct. reflexivity.
  - simpl. lra.
  - simpl. lia.
Defined.
Lemma sum_except_S_eta (i : nat) (f : nat -> R) (k : nat) :
  sum_except i f (S k) = sum_except i f k + (if Nat.eqb k i then 0 else f k).
Proof. reflexivity. Qed.
Lemma decide_ext_eq {P : Prop} `{Decision P} (x x' y : R) :
  (P -> x = x') -> (if decide P then x else y) = (if decide P then x' else y).
Proof. intros Hx. destruct (decide P); [now apply Hx|reflexivity]. Qed.

(** ** The gradient *)

Lemma sum_except_zero (i : nat) (f : nat -> R) (n : nat) :
  (forall k, (k < n)%nat -> k <> i -> f k = 0) -> sum_except i f n = 0.
Proof.
  intros H. rewrite (sum_except_ext i f (fun _ => 0)) by exact H.
  unfold sum_except. rewrite (sumR_ext _ (fun _ => 0)); [apply sumR_zero|].
  intros k _. destruct (Nat.eqb k i); reflexivity.
Qed.

(** What [computeGradient] returns, entry by entry. *)
Lemma computeGradient_entries (P Q Y : list (list R)) :
  let n := length Y in
  let d := length (mrow Y 0) in
  let grad := computeGradient P Q Y in
  shape n d grad /\
  forall a b, mget grad a b
              = if decide ((a < n)%nat /\ (b < d)%nat)
                then sum_except a (gradient_term P Q Y b a) n else 0.
Proof.
  intros n d grad. subst grad. unfold computeGradient. fold n. fold d.
  pose (Inv := fun (k : nat) (G : list (list R)) =>
    shape n d G /\
    forall a b, mget G a b
                = if decide ((a < k)%nat /\ (b < d)%nat)
                  then sum_except a (gradient_term P Q Y b a) n else 0).
  apply (for_range_inv Inv); subst Inv; cbv beta; [lia| |].
  - split; [apply shape_zeros2|]. intros a b. rewrite mget_zeros2. cases.
  - intros i G0 Hi [HG0 IH0].
    pose (Inv2 := fun (k : nat) (G : list (list R)) =>
      shape n d G /\
      forall a b, mget G a b
                  = if decide (a = i /\ (b < d)%nat)
                    then sum_except i (gradient_term P Q Y b i) k
                    else mget G0 a b).
    assert (Inv2 n (for_range 0 n (fun j grad =>
        if negb (Nat.eqb i j) then
          let distSq := squaredEuclideanDistance (mrow Y i) (mrow Y j) in
          let qunnorm := 1 / (1 + distSq) in
          let mult := 4 * (mget P i j - mget Q i j) * qunnorm in
          for_range 0 d (fun dim grad =>
            mset grad i dim
              (mget grad i dim + mult * (mget Y i dim - mget Y j dim))) grad
        else grad) G0)) as [HG1 IH1].
    { apply (for_range_inv Inv2); subst Inv2; cbv beta; [lia| |].
      - split; [exact HG0|]. intros a b. rewrite IH0. unfold sum_except. simpl.
        cases.
      - intros j G1 Hj [HG1 IH1].
        destruct (Nat.eqb_spec i j) as [<-|Hne]; simpl.
        + split; [exact HG1|]. intros a b. rewrite IH1, sum_except_S_eta.
          rewrite Nat.eqb_refl. apply decide_ext_eq. intros _. lra.
        + destruct (row_loop n d G1 i d
                      (fun dim x =>
                         x + 4 * (mget P i j - mget Q i j)
                             * (1 / (1 + squaredEuclideanDistance
                                           (mrow Y i) (mrow Y j)))
                             * (mget Y i dim - mget Y j dim)) HG1)
            as [HG2 G2]; [lia|lia|].
          cbv zeta in HG2, G2. split; [exact HG2|].
          intros a b. rewrite G2, IH1, sum_except_S_eta.
          destruct (Nat.eqb_spec j i) as [->|_]; [contradiction|].
          cases. }
    split; [exact HG1|]. intros a b. rewrite IH1, IH0. cases.
    destruct H as [-> _]. reflexivity.
Qed.

Lemma sum_except_outside (i : nat) (f : nat -> R) (n : nat) :
  (n <= i)%nat -> sum_except i f n = sumR f n.
Proof.
  intros H. apply sumR_ext. intros k Hk.
  destruct (Nat.eqb_spec k i); [lia|reflexivity].
Qed.

Lemma sumR_plus (f g : nat -> R) (n : nat) :
  sumR (fun k => f k + g k) n = sumR f n + sumR g n.
Proof. induction n as [|n IH]; simpl; [lra|rewrite IH; lra]. Qed.

Lemma pair_sum_S (f : nat -> nat -> R) (n : nat) :
  pair_sum f (S n)
  = pair_sum f n + sumR (fun i => f i n) n + sumR (f n) n.
Proof.
  unfold pair_sum. cbn [sumR].
  rewrite (sumR_ext (fun i => sum_except i (f i) (S n))
             (fun i => sum_except i (f i) n + f i n)).
  - rewrite sumR_plus. rewrite sum_except_S_eta, Nat.eqb_refl.
    rewrite sum_except_outside by lia. lra.
  - intros i Hi. rewrite sum_except_S_eta.
    destruct (Nat.eqb_spec n i); [lia|reflexivity].
Qed.

(** The order of the two indices does not matter in a sum over pairs. *)
Lemma pair_sum_transpose (f : nat -> nat -> R) (n : nat) :
  pair_sum (fun i j => f j i) n = pair_sum f n.
Proof.
  induction n as [|n IH]; [reflexivity|].
  rewrite !pair_sum_S, IH. cbv beta.
  change (sumR (fun j => f n j) n) with (sumR (f n) n). lra.
Qed.

Lemma pair_sum_ext (f g : nat -> nat -> R) (n : nat) :
  (forall i j, (i < n)%nat -> (j < n)%nat -> i <> j -> f i j = g i j) ->
  pair_sum f n = pair_sum g n.
Proof.
  intros H. apply sumR_ext. intros i Hi. apply sum_except_ext.
  intros j Hj Hne. apply H; auto.
Qed.

Lemma sumR_opp (f : nat -> R) (n : nat) :
  sumR (fun k => - f k) n = - sumR f n.
Proof. induction n as [|n IH]; simpl; [lra|rewrite IH; lra]. Qed.

Lemma pair_sum_antisymmetric (f : nat -> nat -> R) (n : nat) :
  (forall i j, (i < n)%nat -> (j < n)%nat -> i <> j -> f j i = - f i j) ->
  pair_sum f n = 0.
Proof.
  intros H.
  assert (pair_sum (fun i j => f j i) n = - pair_sum f n) as Hneg.
  { rewrite (pair_sum_ext _ (fun i j => - f i j)) by exact H.
    unfold pair_sum. rewrite <- sumR_opp. apply sumR_ext. intros i _.
    unfold sum_except. rewrite <- sumR_opp. apply sumR_ext. intros j _.
    destruct (Nat.eqb j i); lra. }
  rewrite pair_sum_transpose in Hneg. lra.
Qed.

(** X11.  For [N] by [N] matrices [P] and [Q], the gradient of [N] points in
    dimension [d] is [N] by [d]; its entry
    for point [i] and dimension [dim] is the sum over the other points [j]
    of [4 (P_ij - Q_ij) (1 + |y_i - y_j|^2)^-1 (y_i - y_j)]; it vanishes
    where [P] and [Q] agree off the diagonal; and for symmetric [P] and [Q]
    the gradients of all points sum to zero in every dimension. *)
Theorem computeGradient_balance (P Q Y : list (list R)) (d i dim : nat) :
  shape (length Y) d Y ->
  shape (length Y) (length Y) P -> shape (length Y) (length Y) Q ->
  (i < length Y)%nat -> (dim < d)%nat ->
  let n := length Y in
  let grad := computeGradient P Q Y in
  shape n d grad /\
  mget grad i dim = sum_except i (gradient_term P Q Y dim i) n /\
  ((forall a b, a <> b -> mget P a b = mget Q a b) -> mget grad i dim = 0) /\
  ((forall a b, mget P a b = mget P b a) ->
   (forall a b, mget Q a b = mget Q b a) ->
   sumR (fun a => mget grad a dim) n = 0).
Proof.
  intros HY _ _ Hi Hdim n grad.
  assert (length (mrow Y 0) = d) as Hd by (apply (shape_row n d); [exact HY|lia]).
  destruct (computeGradient_entries P Q Y) as [HG G].
  cbv zeta in HG, G. rewrite Hd in HG, G. fold n in HG, G. fold grad in HG, G.
  split; [exact HG|]. split; [|split].
  - rewrite G. cases.
  - intros HPQ. rewrite G. cases. apply sum_except_zero.
    intros k _ Hne. unfold gradient_term. rewrite (HPQ i k) by auto. ring.
  - intros HP HQ.
    rewrite (sumR_ext _ (fun a => sum_except a (gradient_term P Q Y dim a) n)).
    + apply (pair_sum_antisymmetric (gradient_term P Q Y dim)).
      intros a b Ha Hb Hne. unfold gradient_term, student_kernel.
      rewrite (HP b a), (HQ b a).
      rewrite (squaredEuclideanDistance_sym (mrow Y a) (mrow Y b)).
      { ring. }
      rewrite !(shape_row n d Y) by assumption. reflexivity.
    + intros a Ha. rewrite G. cases.
Qed.

Lemma computeGradient_balance_witness :
  let n := length [[0; 0]; [3; 4]] in
  let grad :=
    computeGradient [[0; 0.5]; [0.5; 0]] [[0; 0.25]; [0.25; 0]]
      [[0; 0]; [3; 4]] in
  shape n 2 grad /\
  mget grad 0 1
  = sum_except 0
      (gradient_term [[0; 0.5]; [0.5; 0]] [[0; 0.25]; [0.25; 0]]
         [[0; 0]; [3; 4]] 1 0) n /\
  ((forall a b, a <> b ->
      mget [[0; 0.5]; [0.5; 0]] a b = mget [[0; 0.25]; [0.25; 0]] a b) ->
   mget grad 0 1 = 0) /\
  ((forall a b, mget [[0; 0.5]; [0.5; 0]] a b = mget [[0; 0.5]; [0.5; 0]] b a) ->
   (forall a b, mget [[0; 0.25]; [0.25; 0]] a b
                = mget [[0; 0.25]; [0.25; 0]] b a) ->
   sumR (fun a => mget grad a 1) n = 0).
Proof.
  apply (computeGradient_balance [[0; 0.5]; [0.5; 0]] [[0; 0.25]; [0.25; 0]]
           [[0; 0]; [3; 4]] 2 0 1).
  - apply shapeb_correct. reflexivity.
  - apply shapeb_correct. reflexivity.
  - apply shapeb_correct. reflexivity.
  - simpl. lia.
  - lia.
Defined.

(** ** Total mass of the two similarity matrices *)

Lemma sumR_scale (f : nat -> R) (c : R) (n : nat) :
  sumR (fun k => c * f k) n = c * sumR f n.
Proof. induction n as [|n IH]; simpl; [lra|rewrite IH; lra]. Qed.

Lemma sumR_le (f g : nat -> R) (n : nat) :
  (forall k, (k < n)%nat -> f k <= g k) -> sumR f n <= sumR g n.
Proof.
  induction n as [|n IH]; intros H; simpl; [lra|].
  assert (sumR f n <= sumR g n) by (apply IH; intros; apply H; lia).
  assert (f n <= g n) by (apply H; lia). lra.
Qed.

Lemma pair_sum_plus (f g : nat -> nat -> R) (n : nat) :
  pair_sum (fun i j => f i j + g i j) n = pair_sum f n + pair_sum g n.
Proof.
  unfold pair_sum. rewrite <- sumR_plus. apply sumR_ext. intros i _.
  unfold sum_except. rewrite <- sumR_plus. apply sumR_ext. intros j _.
  destruct (Nat.eqb j i); lra.
Qed.

Lemma pair_sum_div (f : nat -> nat -> R) (c : R) (n : nat) :
  pair_sum (fun i j => f i j / c) n = pair_sum f n / c.
Proof.
  unfold pair_sum. rewrite <- sumR_div. apply sumR_ext. intros i _.
  apply sum_except_div.
Qed.

Lemma pair_sum_le (f g : nat -> nat -> R) (n : nat) :
  (forall i j, (i < n)%nat -> (j < n)%nat -> i <> j -> f i j <= g i j) ->
  pair_sum f n <= pair_sum g n.
Proof.
  intros H. apply sumR_le. intros i Hi. apply sumR_le. intros j Hj.
  destruct (Nat.eqb_spec j i); [lra|]. apply H; auto.
Qed.

Lemma pair_sum_rows (f : nat -> nat -> R) (n : nat) (c : R) :
  (forall i, (i < n)%nat -> sum_except i (f i) n = c) ->
  pair_sum f n = INR n * c.
Proof.
  intros H. unfold pair_sum. rewrite (sumR_ext _ (fun _ => c)) by exact H.
  apply sumR_const.
Qed.

Lemma pair_sum_pos (f : nat -> nat -> R) (n : nat) :
  (forall i j, 0 < f i j) -> (2 <= n)%nat -> 0 < pair_sum f n.
Proof.
  intros Hf Hn. unfold pair_sum.
  assert (forall i, (i < n)%nat -> 0 < sum_except i (f i) n) as Hrow.
  { intros i Hi.
    apply (sum_except_pos i (f i) n (if Nat.eqb i 0 then 1%nat else 0%nat));
      [apply Hf| |]; destruct (Nat.eqb_spec i 0); lia. }
  pose proof (sumR_term_le (fun i => sum_except i (f i) n) n 0%nat
                ltac:(intros j Hj; left; apply Hrow; exact Hj) ltac:(lia)) as H.
  cbv beta in H. specialize (Hrow 0%nat ltac:(lia)). lra.
Qed.

(** An accumulation that starts from [s0]. *)
Lemma for_range_sum_from (f : nat -> R) (lo hi : nat) (s0 : R) :
  (lo <= hi)%nat ->
  for_range lo hi (fun k acc => acc + f k) s0 = s0 + (sumR f hi - sumR f lo).
Proof.
  intros Hle.
  pose (Inv := fun (k : nat) (s : R) => s = s0 + (sumR f k - sumR f lo)).
  apply (for_range_inv Inv); subst Inv; cbv beta; [exact Hle|lra|].
  intros k s _ ->. simpl. lra.
Qed.

(** The sum accumulated over the pairs [i < j] is the sum over all ordered
    pairs when the summand is symmetric. *)
Lemma student_total_pairs (Y : list (list R)) (d : nat) :
  shape (length Y) d Y ->
  student_total Y = pair_sum (student_kernel Y) (length Y).
Proof.
  intros HY. unfold student_total.
  set (n := length Y) in *. set (k := student_kernel Y).
  assert (Hsym : forall i j, (i < n)%nat -> (j < n)%nat -> k i j = k j i).
  { intros i j Hi Hj. unfold k, student_kernel.
    rewrite (squaredEuclideanDistance_sym (mrow Y i) (mrow Y j));
      [reflexivity|].
    rewrite !(shape_row n d Y) by assumption. reflexivity. }
  rewrite (for_range_ext _
             (fun i sum => sum + (sumR (fun j => 2 * k i j) n
                                  - sumR (fun j => 2 * k i j) (i + 1)))).
  2:{ intros i s Hi.
      apply (for_range_sum_from (fun j => 2 * k i j) (i + 1) n s). lia. }
  rewrite (for_range_sum
             (fun i => sumR (fun j => 2 * k i j) n
                       - sumR (fun j => 2 * k i j) (i + 1))).
  clearbody k. clear HY. induction n as [|n IH]; [reflexivity|].
  rewrite pair_sum_S. cbn [sumR].
  rewrite (sumR_ext (fun i => sumR (fun j => 2 * k i j) n + 2 * k i n
                              - sumR (fun j => 2 * k i j) (i + 1))
             (fun i => (sumR (fun j => 2 * k i j) n
                        - sumR (fun j => 2 * k i j) (i + 1)) + 2 * k i n))
    by (intros; lra).
  rewrite sumR_plus, IH by (intros; apply Hsym; lia).
  replace (n + 1)%nat with (S n) by lia. cbn [sumR].
  rewrite sumR_scale.
  rewrite (sumR_ext (k n) (fun i => k i n)) by (intros; apply Hsym; lia).
  lra.
Qed.

Lemma student_kernel_pos (Y : list (list R)) (i j : nat) :
  0 < student_kernel Y i j.
Proof.
  unfold student_kernel.
  assert (0 <= squaredEuclideanDistance (mrow Y i) (mrow Y j)).
  { rewrite squaredEuclideanDistance_sum. apply sumR_nonneg.
    intros k _. apply Rle_0_sqr. }
  apply Rdiv_lt_0_compat; lra.
Qed.

(** X8.  For at least two points of one dimension, the sum by which
    [computeQMatrix] divides is the sum of the kernel values over all
    ordered pairs of distinct points and is positive, the kernel values
    divided by it sum to one over these pairs, and every entry of [Q] is
    that quotient, raised to [1e-12] when it is smaller. *)
Theorem computeQMatrix_normalized (Y : list (list R)) (d i j : nat) :
  shape (length Y) d Y ->
  (2 <= length Y)%nat ->
  (i < length Y)%nat -> (j < length Y)%nat -> i <> j ->
  let n := length Y in
  student_total Y = pair_sum (student_kernel Y) n /\
  0 < student_total Y /\
  pair_sum (fun a b => student_kernel Y a b / student_total Y) n = 1 /\
  mget (computeQMatrix Y) i j
  = Rmax (student_kernel Y i j / student_total Y) 1e-12 /\
  1 <= pair_sum (mget (computeQMatrix Y)) n.
Proof.
  intros HY Hn Hi Hj Hne n.
  pose proof (student_total_pairs Y d HY) as Htot. fold n in Htot.
  pose proof (pair_sum_pos (student_kernel Y) n (student_kernel_pos Y) Hn)
    as Hpos.
  rewrite <- Htot in Hpos.
  assert (pair_sum (fun a b => student_kernel Y a b / student_total Y) n = 1)
    as Hone.
  { rewrite pair_sum_div, <- Htot. field. lra. }
  assert (Hsym : forall a b, (a < n)%nat -> (b < n)%nat ->
            student_kernel Y (Nat.min a b) (Nat.max a b) = student_kernel Y a b).
  { intros a b Ha Hb. destruct (Nat.le_ge_cases a b).
    - rewrite Nat.min_l, Nat.max_r by lia. reflexivity.
    - rewrite Nat.min_r, Nat.max_l by lia. unfold student_kernel.
      rewrite (squaredEuclideanDistance_sym (mrow Y b) (mrow Y a));
        [reflexivity|].
      rewrite !(shape_row n d Y) by assumption. reflexivity. }
  destruct (computeQMatrix_entries Y) as [_ G]. cbv zeta in G. fold n in G.
  split; [exact Htot|]. split; [exact Hpos|]. split; [exact Hone|]. split.
  - rewrite G. cases. rewrite Hsym by assumption. reflexivity.
  - rewrite <- Hone. apply pair_sum_le. intros a b Ha Hb Hab.
    rewrite G. cases. rewrite Hsym by assumption. apply Rmax_l.
Qed.

Lemma computeQMatrix_normalized_witness :
  let n := length [[0; 0]; [3; 4]] in
  student_total [[0; 0]; [3; 4]] = pair_sum (student_kernel [[0; 0]; [3; 4]]) n /\
  0 < student_total [[0; 0]; [3; 4]] /\
  pair_sum (fun a b => student_kernel [[0; 0]; [3; 4]] a b
                       / student_total [[0; 0]; [3; 4]]) n = 1 /\
  mget (computeQMatrix [[0; 0]; [3; 4]]) 0 1
  = Rmax (student_kernel [[0; 0]; [3; 4]] 0 1
          / student_total [[0; 0]; [3; 4]]) 1e-12 /\
  1 <= pair_sum (mget (computeQMatrix [[0; 0]; [3; 4]])) n.
Proof.
  apply (computeQMatrix_normalized [[0; 0]; [3; 4]] 2 0 1);
    try (apply shapeb_correct; reflexivity); simpl; lia.
Defined.

(** X12.  When every conditional row sums to one over the other points, the
    joint matrix of the step-by-step engine sums to one over all ordered
    pairs of distinct points, and the floored joint matrix of the
    precomputed engine sums to at least one. *)
Theorem symmetrization_total_mass (this : PrecomputedTSNE.t) (that : TSNE.t) :
  shape (PrecomputedTSNE.n this) (PrecomputedTSNE.n this)
    (PrecomputedTSNE.P_conditional this) ->
  (1 <= PrecomputedTSNE.n this)%nat ->
  (forall i, (i < PrecomputedTSNE.n this)%nat ->
     sum_except i (mget (PrecomputedTSNE.P_conditional this) i)
       (PrecomputedTSNE.n this) = 1) ->
  shape (TSNE.n that) (TSNE.n that) (TSNE.Pcond that) ->
  (1 <= TSNE.n that)%nat ->
  (forall i, (i < TSNE.n that)%nat ->
     sum_except i (mget (TSNE.Pcond that) i) (TSNE.n that) = 1) ->
  1 <= pair_sum (mget (PrecomputedTSNE._symmetrizeP this))
         (PrecomputedTSNE.n this) /\
  pair_sum (mget (TSNE.P (TSNE._symmetrizeP that))) (TSNE.n that) = 1.
Proof.
  intros _ Hn Hrows _ Hn' Hrows'.
  assert (Havg : forall (Pc : list (list R)) (n : nat), (1 <= n)%nat ->
            (forall i, (i < n)%nat -> sum_except i (mget Pc i) n = 1) ->
            pair_sum (fun a b => (mget Pc a b + mget Pc b a) / (2 * INR n)) n
            = 1).
  { intros Pc n Hn1 Hr. rewrite pair_sum_div, pair_sum_plus.
    rewrite (pair_sum_transpose (mget Pc)).
    rewrite (pair_sum_rows (mget Pc) n 1 Hr).
    assert (0 < INR n) by (apply lt_0_INR; lia). field. lra. }
  split.
  - rewrite <- (Havg (PrecomputedTSNE.P_conditional this) _ Hn Hrows).
    destruct (engine_symmetrize_entries this) as [_ G]. cbv zeta in G.
    apply pair_sum_le. intros a b Ha Hb Hab. rewrite G. cases. apply Rmax_l.
  - rewrite <- (Havg (TSNE.Pcond that) _ Hn' Hrows').
    destruct (tsne_symmetrize_entries that) as [_ G]. cbv zeta in G.
    apply pair_sum_ext. intros a b Ha Hb Hab. rewrite G. cases.
Qed.

Lemma symmetrization_total_mass_witness :
  1 <= pair_sum (mget (PrecomputedTSNE._symmetrizeP engine2))
         (PrecomputedTSNE.n engine2) /\
  pair_sum (mget (TSNE.P (TSNE._symmetrizeP tsne2))) (TSNE.n tsne2) = 1.
Proof.
  apply (symmetrization_total_mass engine2 tsne2);
    try (apply shapeb_correct; reflexivity); try (simpl; lia);
    intros i Hi; destruct i as [|[|i]];
    unfold sum_except, mget, mrow, aget; simpl in *; try lra; lia.
Defined.

(** ** The conditional matrix of the engine and the row function *)

Lemma aget_map (f : R -> R) (v : list R) (j : nat) :
  (j < length v)%nat -> aget (map f v) j = f (aget v j).
Proof.
  intros Hj. unfold aget. rewrite list_lookup_fmap.
  destruct (lookup_lt_is_Some_2 v j Hj) as [x ->]. reflexivity.
Qed.

(** X13.  [_computeConditionalP] applies the kernel to the square of the entry
    of the distance matrix, which already holds squared distances: where
    the bandwidth is positive and the kernel sum of a row exceeds
    [1e-12], the row of the engine is the
    row that [computeConditionalProbabilities] returns for the squares of
    the entries of the distance matrix, not for the entries. *)
Theorem engine_conditional_squares_distances
    (this : PrecomputedTSNE.t) (i j : nat) :
  let n := PrecomputedTSNE.n this in
  let D := PrecomputedTSNE.distanceMatrix this in
  let sigma := aget (PrecomputedTSNE.sigmas this) i in
  shape n n D -> 0 < sigma ->
  (i < n)%nat -> (j < n)%nat ->
  1e-12 < sum_except i (engine_kernel this i) n ->
  engine_kernel this i j
  = kernel (map (fun x => x * x) (mrow D i)) sigma j /\
  mget (PrecomputedTSNE._computeConditionalP this) i j
  = aget (computeConditionalProbabilities
            (map (fun x => x * x) (mrow D i)) sigma i) j.
Proof.
  intros n D sigma HD _ Hi Hj Hsum.
  assert (length (mrow D i) = n) as Hrow by (apply (shape_row n n); assumption).
  assert (forall k, (k < n)%nat ->
            engine_kernel this i k
            = kernel (map (fun x => x * x) (mrow D i)) sigma k) as Hk.
  { intros k Hk. unfold engine_kernel, kernel. cbv zeta.
    rewrite aget_map by lia. fold D. fold sigma. unfold mget.
    f_equal. unfold Rdiv. ring. }
  split; [apply Hk, Hj|].
  destruct (engine_conditional_entries this) as [_ G]. cbv zeta in G.
  fold n in G. rewrite G.
  destruct (computeConditionalProbabilities_entries
              (map (fun x => x * x) (mrow D i)) sigma i) as [_ G'].
  cbv zeta in G'. rewrite length_map, Hrow in G'. rewrite G'.
  assert (sum_except i (kernel (map (fun x => x * x) (mrow D i)) sigma) n
          = sum_except i (engine_kernel this i) n) as ->.
  { apply sum_except_ext. intros k Hk' _. symmetry. apply Hk, Hk'. }
  rewrite <- (Hk j Hj).
  destruct (decide (j = i)) as [->|Hne]; [cases|].
  rewrite !decide_True by (try lra; repeat split; auto). reflexivity.
Qed.

Lemma engine_conditional_squares_distances_witness :
  engine_kernel engine2 0 1
  = kernel (map (fun x => x * x) (mrow (PrecomputedTSNE.distanceMatrix engine2) 0))
      (aget (PrecomputedTSNE.sigmas engine2) 0) 1 /\
  mget (PrecomputedTSNE._computeConditionalP engine2) 0 1
  = aget (computeConditionalProbabilities
            (map (fun x => x * x)
               (mrow (PrecomputedTSNE.distanceMatrix engine2) 0))
            (aget (PrecomputedTSNE.sigmas engine2) 0) 0) 1.
Proof.
  apply (engine_conditional_squares_distances engine2 0 1).
  - apply shapeb_correct. reflexivity.
  - unfold aget. simpl. lra.
  - simpl. lia.
  - simpl. lia.
  - unfold sum_except, engine_kernel, mget, mrow, aget. simpl.
    replace (- (1) * 1 / (2 * 1 * 1)) with (Ropp (1 / 2)) by lra.
    pose proof exp_neg_half_large. lra.
Defined.

(** ** The initial embeddings *)

Lemma mget_map_seq (f : nat -> nat -> R) (n d a b : nat) :
  mget (map (fun i => map (f i) (seq 0 d)) (seq 0 n)) a b
  = if decide ((a < n)%nat /\ (b < d)%nat) then f a b else 0.
Proof.
  unfold mget, mrow, aget. rewrite list_lookup_fmap.
  destruct (decide (a < n)%nat) as [Ha|Ha].
  - rewrite lookup_seq_lt by exact Ha. simpl. rewrite list_lookup_fmap.
    destruct (decide (b < d)%nat) as [Hb|Hb].
    + rewrite lookup_seq_lt by exact Hb. simpl. cases.
    + rewrite lookup_seq_ge by lia. simpl. cases.
  - rewrite lookup_seq_ge by lia. simpl. cases.
Qed.

Lemma shape_map_seq (f : nat -> nat -> R) (n d : nat) :
  shape n d (map (fun i => map (f i) (seq 0 d)) (seq 0 n)).
Proof.
  split; [now rewrite length_map, length_seq|].
  intros i row. rewrite list_lookup_fmap.
  destruct (seq 0 n !! i); simpl; [|discriminate].
  intros [= <-]. now rewrite length_map, length_seq.
Qed.

Lemma initializeEmbedding_map (random : nat -> R) (n d : nat) (scale : R) :
  initializeEmbedding random n d scale
  = map (fun i => map (fun j => (random (i * d + j)%nat - 0.5) * 2 * scale)
                      (seq 0 d)) (seq 0 n).
Proof.
  unfold initializeEmbedding.
  rewrite (for_range_ext _
             (fun i Y =>
                Y ++ [map (fun j => (random (i * d + j)%nat - 0.5) * 2 * scale)
                          (seq 0 d)])).
  - apply (push_loop
             (fun i => map (fun j => (random (i * d + j)%nat - 0.5) * 2 * scale)
                           (seq 0 d))).
  - intros i Y _. cbv zeta. f_equal. f_equal.
    apply (push_loop (fun j => (random (i * d + j)%nat - 0.5) * 2 * scale)).
Qed.

(** X14.  Both engines start from an [N] by [d] embedding filled row by row, one
    draw per coordinate: [initializeEmbedding] maps the [k]-th uniform draw
    [u] to [(u - 0.5) * 2 * scale], which stays within [scale] of zero for
    draws in [0, 1), and [_initializeEmbedding] of the precomputed engine
    multiplies the [k]-th Gaussian draw by [0.0001]. *)
Theorem initial_embedding_layout
    (random : nat -> R) (n d : nat) (scale : R)
    (rnd : PrecomputedTSNE.draws) (this : PrecomputedTSNE.t) (i j : nat) :
  (i < n)%nat -> (j < d)%nat ->
  (forall k, 0 <= random k < 1) -> 0 <= scale ->
  (i < PrecomputedTSNE.n this)%nat ->
  (j < PrecomputedTSNE.targetDim (PrecomputedTSNE.cfg this))%nat ->
  (let Y := initializeEmbedding random n d scale in
   shape n d Y /\
   mget Y i j = (random (i * d + j)%nat - 0.5) * 2 * scale /\
   - scale <= mget Y i j <= scale)
  /\
  (let m := PrecomputedTSNE.targetDim (PrecomputedTSNE.cfg this) in
   let Y := PrecomputedTSNE._initializeEmbedding rnd this in
   shape (PrecomputedTSNE.n this) m Y /\
   mget Y i j = PrecomputedTSNE.gaussianRandom rnd (i * m + j) * 0.0001).
Proof.
  intros Hi Hj Hr Hs Hi' Hj'. split.
  - intros Y. subst Y. rewrite initializeEmbedding_map.
    split; [apply shape_map_seq|]. rewrite mget_map_seq.
    rewrite decide_True by auto. split; [reflexivity|].
    specialize (Hr (i * d + j)%nat). nra.
  - intros m Y. subst Y. unfold PrecomputedTSNE._initializeEmbedding. fold m.
    split; [apply shape_map_seq|].
    rewrite (mget_map_seq
               (fun a b => PrecomputedTSNE.gaussianRandom rnd (a * m + b) * 0.0001)).
    cases.
Qed.

Lemma initial_embedding_layout_witness :
  (let Y := initializeEmbedding (fun _ => 1 / 4) 2 2 0.0001 in
   shape 2 2 Y /\
   mget Y 1 0 = (1 / 4 - 0.5) * 2 * 0.0001 /\
   Ropp 0.0001 <= mget Y 1 0 <= 0.0001)
  /\
  (let m := PrecomputedTSNE.targetDim (PrecomputedTSNE.cfg engine2) in
   let Y := PrecomputedTSNE._initializeEmbedding draws_a engine2 in
   shape (PrecomputedTSNE.n engine2) m Y /\
   mget Y 1 0 = PrecomputedTSNE.gaussianRandom draws_a (1 * m + 0) * 0.0001).
Proof.
  apply (initial_embedding_layout (fun _ => 1 / 4) 2 2 0.0001 draws_a engine2 1 0);
    try (simpl; lia); try lra.
  intros k. lra.
Defined.

(** ** The statistics of the distance snapshot *)




(** ** The iterations of the precomputed engine *)

Section Iterations.
Import PrecomputedTSNE.

Lemma updateEmbedding_frame (iteration : nat) (this : t) :
  let this' := _updateEmbedding iteration this in
  cfg this' = cfg this /\ n this' = n this /\
  P this' = P this /\ P_original this' = P_original this /\
  costs this' = costs this /\
  iterationSnapshots this' = iterationSnapshots this /\
  Q this' = Q this /\ gradient this' = gradient this.
Proof.
  unfold _updateEmbedding.
  destruct (for_range 0 (n this) _ (velocity this, embedding this)) as [V E].
  repeat split.
Qed.

Lemma updateEmbedding_centered (iteration : nat) (this : t) :
  (1 <= n this)%nat -> embedding_shaped this ->
  embedding_shaped (_updateEmbedding iteration this) /\
  centered (_updateEmbedding iteration this).
Proof.
  intros Hn [HE HV].
  destruct (updateEmbedding_frame iteration this) as (Hc & Hn' & _).
  destruct (engine_update_entries this iteration HV HE) as (HV' & HE' & G).
  unfold embedding_shaped, centered. rewrite Hc, Hn'.
  split; [split; assumption|].
  intros d Hd.
  apply (col_mean_centered _ _
           (fun a => moved this (momentum_at this iteration) a d)); [exact Hn|].
  intros a Ha. destruct (G a d Ha Hd) as [_ ->]. reflexivity.
Qed.

Lemma seq_1_S (k : nat) : (1 <= k)%nat -> seq 1 k = seq 1 (k - 1) ++ [k].
Proof.
  intros Hk. replace k with (S (k - 1)) at 1 by lia.
  rewrite seq_S. do 2 f_equal. lia.
Qed.

(** The state of the engine after the loop of [_runIterations]. *)
Lemma runIterations_state (this : t) :
  shape (n this) (n this) (P this) ->
  shape (n this) (n this) (P_original this) ->
  (1 <= n this)%nat -> embedding_shaped this -> centered this ->
  let this' := fst (_runIterations this) in
  let key := snd (_runIterations this) in
  cfg this' = cfg this /\ n this' = n this /\
  P_original this' = P_original this /\
  P this'
  = (if decide (1 <= earlyExaggerationIter (cfg this)
                < maxIterations (cfg this))%nat
     then P_original this else P this) /\
  length (costs this')
  = (length (costs this) + (maxIterations (cfg this) - 1))%nat /\
  iterationSnapshots this' = key /\
  map is_iteration key = captured_iterations this /\
  embedding_shaped this' /\ centered this'.
Proof.
  intros HP HPo Hn Hshape Hcent. cbv zeta.
  unfold _runIterations. cbv zeta.
  set (this0 := set_iterationSnapshots [] this).
  change (maxIterations (cfg this0)) with (maxIterations (cfg this)).
  set (cap := fun k => existsb (Nat.eqb k) (captureIterations this)).
  pose (Inv := fun (k : nat) (s : t * list iterSnapshot) =>
    cfg (fst s) = cfg this /\ n (fst s) = n this /\
    P_original (fst s) = P_original this /\
    P (fst s)
    = (if decide (1 <= earlyExaggerationIter (cfg this) < k)%nat
       then P_original this else P this) /\
    length (costs (fst s)) = (length (costs this) + (k - 1))%nat /\
    iterationSnapshots (fst s) = snd s /\
    map is_iteration (snd s) = List.filter cap (seq 1 (k - 1)) /\
    embedding_shaped (fst s) /\ centered (fst s)).
  destruct (decide (1 <= maxIterations (cfg this))%nat) as [Hle|Hgt].
  2:{ rewrite for_range_empty by lia. simpl.
      rewrite decide_False by lia. unfold captured_iterations.
      replace (maxIterations (cfg this) - 1)%nat with 0%nat by lia.
      repeat split; try assumption; try apply Hshape; lia. }
  apply (for_range_inv Inv); subst Inv; cbv beta; [exact Hle| |].
  - simpl. rewrite decide_False by lia.
    repeat split; try assumption; try apply Hshape; lia.
  - intros k [t1 key1] Hk (Hc & Hn1 & HPo1 & HP1 & Hcost & Hsnap & Hkey & Hsh & Hce).
    simpl in Hc, Hn1, HPo1, HP1, Hcost, Hsnap, Hkey, Hsh, Hce.
    set (t2 := if Nat.eqb k (earlyExaggerationIter (cfg t1))
               then _removeEarlyExaggeration t1 else t1).
    assert (cfg t2 = cfg this /\ n t2 = n this /\
            P_original t2 = P_original this /\
            P t2 = (if decide (1 <= earlyExaggerationIter (cfg this) < S k)%nat
                    then P_original this else P this) /\
            costs t2 = costs t1 /\
            iterationSnapshots t2 = iterationSnapshots t1 /\
            embedding t2 = embedding t1 /\ velocity t2 = velocity t1)
      as (Hc2 & Hn2 & HPo2 & HP2 & Hcost2 & Hsnap2 & HE2 & HV2).
    { subst t2. rewrite Hc.
      destruct (Nat.eqb_spec k (earlyExaggerationIter (cfg this))) as [Heq|Hne].
      - split; [exact Hc|]. split; [exact Hn1|]. split; [exact HPo1|].
        split; [|repeat split].
        rewrite engine_remove_restores.
        + rewrite HPo1. rewrite decide_True by lia. reflexivity.
        + rewrite Hn1, HP1. destruct (decide _); assumption.
        + rewrite Hn1, HPo1. exact HPo.
      - split; [exact Hc|]. split; [exact Hn1|]. split; [exact HPo1|].
        split; [|repeat split].
        rewrite HP1. apply decide_ext. lia. }
    clearbody t2.
    set (t3 := set_Q (computeQMatrix (embedding t2)) t2).
    set (t4 := set_gradient (computeGradient (P t3) (Q t3) (embedding t3)) t3).
    assert (embedding_shaped t4 /\ (1 <= n t4)%nat) as [Hsh4 Hn4].
    { split; [|simpl; lia]. unfold embedding_shaped. simpl.
      rewrite Hc2, Hn2, HE2, HV2. rewrite <- Hc, <- Hn1. exact Hsh. }
    destruct (updateEmbedding_frame k t4)
      as (Hc5 & Hn5 & HP5 & HPo5 & Hcost5 & Hsnap5 & _).
    destruct (updateEmbedding_centered k t4 Hn4 Hsh4) as [Hsh5 Hce5].
    set (t5 := _updateEmbedding k t4) in *. clearbody t5.
    simpl in Hc5, Hn5, HP5, HPo5, Hcost5, Hsnap5.
    set (t6 := set_costs (costs t5 ++ [klDivergence (P t5) (Q t5)]) t5).
    assert (captureIterations t6 = captureIterations this) as Hcap.
    { unfold captureIterations. simpl. rewrite Hc5, Hc2. reflexivity. }
    rewrite Hcap. fold (cap k).
    assert (Hseq : List.filter cap (seq 1 (S k - 1))
                   = List.filter cap (seq 1 (k - 1))
                     ++ (if cap k then [k] else [])).
    { replace (S k - 1)%nat with k by lia.
      rewrite (seq_1_S k) by lia. rewrite List.filter_app. simpl.
      destruct (cap k); reflexivity. }
    assert (Hlen : length (costs t6) = (length (costs this) + (S k - 1))%nat).
    { simpl. rewrite length_app, Hcost5, Hcost2, Hcost. simpl. lia. }
    rewrite Hseq. clear Hseq.
    destruct (cap k); cbn [fst snd].
    + split; [simpl; congruence|]. split; [simpl; congruence|].
      split; [simpl; congruence|]. split; [simpl; congruence|].
      split; [exact Hlen|]. split; [simpl; congruence|].
      split; [rewrite map_app, Hkey; reflexivity|].
      split; [exact Hsh5|exact Hce5].
    + split; [simpl; congruence|]. split; [simpl; congruence|].
      split; [simpl; congruence|]. split; [simpl; congruence|].
      split; [exact Hlen|]. split; [simpl; congruence|].
      split; [rewrite app_nil_r; exact Hkey|].
      split; [exact Hsh5|exact Hce5].
Qed.

End Iterations.

Section RunState.
Import PrecomputedTSNE.

(** The state in which a run that returns leaves the engine. *)
Lemma run_state (rnd : draws) (inputData : list (list R)) (labels : list Z)
    (this : t) :
  (1 <= length inputData)%nat ->
  exists this',
    run rnd inputData labels this = Some this' /\
    cfg this' = cfg this /\ n this' = length inputData /\
    stepIndex this' = (stepIndex this + 14)%nat /\
    length (costs this')
    = (length (costs this) + (maxIterations (cfg this) - 1))%nat /\
    embedding_shaped this' /\ centered this' /\
    map is_iteration (iterationSnapshots this') = captured_iterations this' /\
    shape (n this') (n this') (P_original this') /\
    (forall a b, (a < n this')%nat -> (b < n this')%nat ->
       mget (P_original this') a b = mget (P_original this') b a /\
       1e-12 <= mget (P_original this') a b) /\
    ((1 <= earlyExaggerationIter (cfg this) < maxIterations (cfg this))%nat ->
     P this' = P_original this') /\
    (~ (1 <= earlyExaggerationIter (cfg this) < maxIterations (cfg this))%nat ->
     forall a b, (a < n this')%nat -> (b < n this')%nat ->
       mget (P this') a b
       = mget (P_original this') a b * earlyExaggeration (cfg this)).
Proof.
  intros Hlen. unfold run. cbv zeta.
  destruct (lookup_lt_is_Some_2 inputData 0%nat) as [row0 E0]; [lia|].
  rewrite E0.
  set (this0 := set_snapshots [] _).
  assert (cfg this0 = cfg this /\ n this0 = length inputData /\
          stepIndex this0 = stepIndex this /\ costs this0 = costs this)
    as (C0 & N0 & S0 & K0) by (repeat split).
  clearbody this0.
  destruct (records_projections _ _ _ (step0_records row0 this0))
    as (_ & _ & S1 & N1 & C1).
  assert (costs (step0 row0 this0) = costs this0) as K1 by reflexivity.
  set (this1 := step0 row0 this0) in *. clearbody this1.
  destruct (records_projections _ _ _ (step1_records inputData labels row0 this1))
    as (_ & _ & S2 & N2 & C2).
  assert (costs (step1 inputData labels row0 this1) = costs this1)
    as K2 by reflexivity.
  set (this2 := step1 inputData labels row0 this1) in *. clearbody this2.
  destruct (records_projections _ _ _ (step2_records inputData this2))
    as (_ & _ & S3 & N3 & C3).
  assert (costs (step2 inputData this2) = costs this2) as K3 by reflexivity.
  set (this3 := step2 inputData this2) in *. clearbody this3.
  destruct (step3_records this3) as (this4 & E4 & R4); [lia|].
  rewrite E4.
  destruct (records_projections _ _ _ R4) as (_ & _ & S4 & N4 & C4).
  assert (costs this4 = costs this3) as K4.
  { unfold step3 in E4. cbv zeta in E4.
    destruct (sigmas _) in E4; [discriminate|].
    injection E4 as <-. reflexivity. }
  clear E4 R4.
  destruct (records_projections _ _ _ (step4_records this4))
    as (_ & _ & S5 & N5 & C5).
  assert (costs (step4 this4) = costs this4) as K5 by reflexivity.
  set (this5 := step4 this4) in *. clearbody this5.
  (* step 5: the joint matrix and its copy *)
  destruct (records_projections _ _ _ (step5_records this5))
    as (_ & _ & S6 & N6 & C6).
  assert (costs (step5 this5) = costs this5) as K6 by reflexivity.
  assert (P (step5 this5) = _symmetrizeP this5 /\
          P_original (step5 this5) = _symmetrizeP this5) as [P6 Po6].
  { split; [reflexivity|]. cbn. apply deepClone_id. }
  destruct (engine_symmetrize_entries this5) as [Hsym Gsym].
  cbv zeta in Hsym, Gsym.
  set (this6 := step5 this5) in *. clearbody this6.
  (* step 6: the exaggeration *)
  destruct (records_projections _ _ _ (step6_records this6))
    as (_ & _ & S7 & N7 & C7).
  assert (costs (step6 this6) = costs this6) as K7 by reflexivity.
  assert (shape (n this6) (n this6) (P this6)) as HP6
    by (rewrite N6, P6; exact Hsym).
  destruct (engine_apply_entries this6 HP6) as [HP7 GP7].
  assert (P (step6 this6) = P (_applyEarlyExaggeration this6) /\
          P_original (step6 this6) = P_original this6) as [P7 Po7]
    by (split; reflexivity).
  set (this7 := step6 this6) in *. clearbody this7.
  (* step 7: the initial embedding *)
  destruct (records_projections _ _ _ (step7_records rnd this7))
    as (_ & _ & S8 & N8 & C8).
  assert (costs (step7 rnd this7) = costs this7 /\
          P (step7 rnd this7) = P this7 /\
          P_original (step7 rnd this7) = P_original this7 /\
          embedding (step7 rnd this7) = _initializeEmbedding rnd this7 /\
          velocity (step7 rnd this7)
          = zeros2 (n this7) (targetDim (cfg this7)))
    as (K8 & P8 & Po8 & E8 & V8) by (repeat split).
  set (this8 := step7 rnd this7) in *. clearbody this8.
  destruct (records_projections _ _ _ (step8_records this8))
    as (_ & _ & S9 & N9 & C9).
  assert (costs (step8 this8) = costs this8 /\ P (step8 this8) = P this8 /\
          P_original (step8 this8) = P_original this8 /\
          embedding (step8 this8) = embedding this8 /\
          velocity (step8 this8) = velocity this8)
    as (K9 & P9 & Po9 & E9 & V9) by (repeat split).
  set (this9 := step8 this8) in *. clearbody this9.
  destruct (records_projections _ _ _ (step9_records this9))
    as (_ & _ & S10 & N10 & C10).
  assert (costs (step9 this9) = costs this9 /\ P (step9 this9) = P this9 /\
          P_original (step9 this9) = P_original this9 /\
          embedding (step9 this9) = embedding this9 /\
          velocity (step9 this9) = velocity this9)
    as (K10 & P10 & Po10 & E10 & V10) by (repeat split).
  set (this10 := step9 this9) in *. clearbody this10.
  (* step 10: the first update *)
  assert (embedding_shaped this10) as Hsh10.
  { unfold embedding_shaped.
    rewrite E10, E9, E8, V10, V9, V8, N10, N9, N8, C10, C9, C8.
    split; [|apply shape_zeros2].
    unfold _initializeEmbedding. apply shape_map_seq. }
  destruct (records_projections _ _ _ (step10_records this10))
    as (_ & _ & S11 & N11 & C11).
  destruct (updateEmbedding_frame 0 this10)
    as (Hc11 & Hn11 & HP11 & HPo11 & Hk11 & _).
  destruct (updateEmbedding_centered 0 this10 ltac:(lia) Hsh10)
    as [Hsh11 Hce11].
  assert (costs (step10 this10) = costs (_updateEmbedding 0 this10) /\
          P (step10 this10) = P (_updateEmbedding 0 this10) /\
          P_original (step10 this10) = P_original (_updateEmbedding 0 this10) /\
          embedding (step10 this10) = embedding (_updateEmbedding 0 this10) /\
          velocity (step10 this10) = velocity (_updateEmbedding 0 this10))
    as (K11 & P11 & Po11 & E11 & V11) by (repeat split).
  assert (embedding_shaped (step10 this10) /\ centered (step10 this10))
    as [Hsh11' Hce11'].
  { unfold embedding_shaped, centered in *.
    rewrite E11, V11, N11, C11.
    rewrite Hc11, Hn11 in Hsh11, Hce11. split; assumption. }
  set (this11 := step10 this10) in *. clearbody this11.
  (* step 11: the iterations *)
  assert (P_original this11 = _symmetrizeP this5) as HPo
    by congruence.
  assert (n this11 = n this5) as Hn115 by congruence.
  assert (shape (n this11) (n this11) (P_original this11)) as HshPo
    by (rewrite HPo, Hn115; exact Hsym).
  assert (P this11 = P (_applyEarlyExaggeration this6)) as HPx by congruence.
  assert (n this11 = n this6) as Hn116 by congruence.
  assert (shape (n this11) (n this11) (P this11)) as HshP
    by (rewrite HPx, Hn116; exact HP7).
  destruct (runIterations_state this11 HshP HshPo ltac:(lia) Hsh11' Hce11')
    as (Hc12 & Hn12 & HPo12 & HP12 & Hk12 & Hsn12 & Hkey12 & Hsh12 & Hce12).
  destruct (records_projections _ _ _ (step11_records this11))
    as (_ & _ & S12 & N12 & C12).
  assert (costs (step11 this11) = costs (fst (_runIterations this11)) /\
          P (step11 this11) = P (fst (_runIterations this11)) /\
          P_original (step11 this11)
          = P_original (fst (_runIterations this11)) /\
          embedding (step11 this11) = embedding (fst (_runIterations this11)) /\
          velocity (step11 this11) = velocity (fst (_runIterations this11)) /\
          iterationSnapshots (step11 this11)
          = iterationSnapshots (fst (_runIterations this11)))
    as (K12 & P12 & Po12 & E12 & V12 & I12).
  { unfold step11. destruct (_runIterations this11). repeat split. }
  set (this12 := step11 this11) in *. clearbody this12.
  destruct (records_projections _ _ _ (step12_records this12))
    as (_ & _ & S13 & N13 & C13).
  assert (costs (step12 this12) = costs this12 /\
          P (step12 this12) = P this12 /\
          P_original (step12 this12) = P_original this12 /\
          embedding (step12 this12) = embedding this12 /\
          velocity (step12 this12) = velocity this12 /\
          iterationSnapshots (step12 this12) = iterationSnapshots this12)
    as (K13 & P13 & Po13 & E13 & V13 & I13) by (repeat split).
  set (this13 := step12 this12) in *. clearbody this13.
  destruct (records_projections _ _ _ (step13_records labels this13))
    as (_ & _ & S14 & N14 & C14).
  assert (costs (step13 labels this13) = costs this13 /\
          P (step13 labels this13) = P this13 /\
          P_original (step13 labels this13) = P_original this13 /\
          embedding (step13 labels this13) = embedding this13 /\
          velocity (step13 labels this13) = velocity this13 /\
          iterationSnapshots (step13 labels this13)
          = iterationSnapshots this13)
    as (K14 & P14 & Po14 & E14 & V14 & I14) by (repeat split).
  set (this14 := step13 labels this13) in *. clearbody this14.
  assert (cfg this14 = cfg this) as Hcfg by congruence.
  assert (cfg this11 = cfg this) as Hcfg11 by congruence.
  assert (n this14 = length inputData) as Hn by congruence.
  assert (n this11 = length inputData) as Hn11i by congruence.
  assert (P_original this14 = P_original this11) as HPo14 by congruence.
  exists this14. split; [reflexivity|]. split; [exact Hcfg|].
  split; [exact Hn|]. split; [lia|]. split.
  { rewrite K14, K13, K12, Hk12, Hcfg11. f_equal. congruence. }
  split.
  { unfold embedding_shaped in *. rewrite E14, E13, E12, V14, V13, V12.
    rewrite Hcfg, Hn. rewrite Hc12, Hn12, Hcfg11, Hn11i in Hsh12. exact Hsh12. }
  split.
  { unfold centered in *. rewrite E14, E13, E12, Hcfg, Hn.
    rewrite Hc12, Hn12, Hcfg11, Hn11i in Hce12. exact Hce12. }
  split.
  { rewrite I14, I13, I12, Hsn12, Hkey12. unfold captured_iterations,
      captureIterations. rewrite Hcfg, Hcfg11. reflexivity. }
  split; [rewrite HPo14, Hn, <- Hn11i; exact HshPo|].
  split.
  { intros a b Ha Hb. rewrite HPo14, HPo, !Gsym.
    assert (n this14 = n this5) as Hn5 by congruence.
    rewrite Hn5 in Ha, Hb. split.
    - cases; do 2 f_equal; ring.
    - rewrite decide_True by auto. apply Rmax_r. }
  split.
  { intros Hiter. rewrite P14, P13, P12, HP12, Hcfg11.
    rewrite decide_True by exact Hiter. congruence. }
  intros Hiter a b Ha Hb. rewrite P14, P13, P12, HP12, Hcfg11.
  rewrite decide_False by exact Hiter. rewrite HPx, HPo14, HPo.
  rewrite GP7 by congruence.
  assert (cfg this6 = cfg this) as -> by congruence.
  f_equal. rewrite P6. reflexivity.
Qed.

End RunState.

Section RunFacts.
Import PrecomputedTSNE.

Lemma engine2_ready_centered : centered engine2_ready.
Proof.
  intros d Hd. simpl in Hd.
  destruct d as [|[|d]]; [| |lia];
    unfold col_mean, sumR, mget, mrow, aget; simpl; lra.
Qed.

Lemma engine2_ready_shaped : embedding_shaped engine2_ready.
Proof. split; apply shapeb_correct; reflexivity. Qed.

(** X17.  [_runIterations] runs the iterations [1] to [maxIterations - 1]: it
    appends one cost per iteration, captures exactly the iterations of
    its list that lie in that range (iteration [0] of the list is never
    reached), stores the captured objects in [iterationSnapshots] as
    well, copies [P_original] back into [P] if and only if the
    exaggeration cutoff lies in the range, and leaves the embedding
    centred. *)
Theorem runIterations_effect (this : t) :
  shape (n this) (n this) (P this) ->
  shape (n this) (n this) (P_original this) ->
  (1 <= n this)%nat -> embedding_shaped this -> centered this ->
  let this' := fst (_runIterations this) in
  let keyIterations := snd (_runIterations this) in
  length (costs this')
  = (length (costs this) + (maxIterations (cfg this) - 1))%nat /\
  iterationSnapshots this' = keyIterations /\
  map is_iteration keyIterations = captured_iterations this /\
  (forall k, In k (map is_iteration keyIterations) ->
     (1 <= k < maxIterations (cfg this))%nat) /\
  P this'
  = (if decide (1 <= earlyExaggerationIter (cfg this)
                < maxIterations (cfg this))%nat
     then P_original this else P this) /\
  P_original this' = P_original this /\
  centered this'.
Proof.
  intros HP HPo Hn Hsh Hce.
  destruct (runIterations_state this HP HPo Hn Hsh Hce)
    as (_ & _ & HPo' & HP' & Hcost & Hsnap & Hkey & _ & Hce').
  cbv zeta. split; [exact Hcost|]. split; [exact Hsnap|].
  split; [exact Hkey|]. split; [|auto].
  intros k Hk. rewrite Hkey in Hk. unfold captured_iterations in Hk.
  apply List.filter_In in Hk as [Hk _]. apply in_seq in Hk. lia.
Qed.

Lemma runIterations_effect_witness :
  let this' := fst (_runIterations engine2_ready) in
  let keyIterations := snd (_runIterations engine2_ready) in
  length (costs this')
  = (length (costs engine2_ready)
     + (maxIterations (cfg engine2_ready) - 1))%nat /\
  iterationSnapshots this' = keyIterations /\
  map is_iteration keyIterations = captured_iterations engine2_ready /\
  (forall k, In k (map is_iteration keyIterations) ->
     (1 <= k < maxIterations (cfg engine2_ready))%nat) /\
  P this'
  = (if decide (1 <= earlyExaggerationIter (cfg engine2_ready)
                < maxIterations (cfg engine2_ready))%nat
     then P_original engine2_ready else P engine2_ready) /\
  P_original this' = P_original engine2_ready /\
  centered this'.
Proof.
  apply (runIterations_effect engine2_ready).
  - apply shapeb_correct. reflexivity.
  - apply shapeb_correct. reflexivity.
  - simpl. lia.
  - exact engine2_ready_shaped.
  - exact engine2_ready_centered.
Defined.

(** With the default configuration the captured iterations are these
    eleven. *)
Lemma captured_iterations_default (this : t) :
  cfg this = cfg (new no_options) ->
  captured_iterations this
  = [5; 10; 25; 50; 75; 100; 150; 200; 300; 400; 499]%nat.
Proof.
  intros H. unfold captured_iterations, captureIterations. rewrite H.
  vm_compute. reflexivity.
Qed.

(** X18.  A run on at least one point, all points having the same number
    of coordinates, returns, and then the embedding of the engine has one
    row per input point and one column per target dimension, and the mean
    of every dimension over all points is zero. *)
Theorem run_embedding_centered
    (rnd : draws) (inputData : list (list R)) (labels : list Z)
    (this : t) (inputDim d : nat) :
  shape (length inputData) inputDim inputData ->
  (1 <= length inputData)%nat ->
  (d < targetDim (cfg this))%nat ->
  exists this',
    run rnd inputData labels this = Some this' /\
    n this' = length inputData /\
    shape (length inputData) (targetDim (cfg this)) (embedding this') /\
    col_mean (length inputData) (embedding this') d = 0.
Proof.
  intros _ Hlen Hd.
  destruct (run_state rnd inputData labels this Hlen)
    as (this' & Hrun & Hc & Hn & _ & _ & [Hsh _] & Hce & _).
  exists this'. split; [exact Hrun|].
  rewrite Hc, Hn in Hsh. split; [exact Hn|]. split; [exact Hsh|].
  specialize (Hce d). rewrite Hc, Hn in Hce. apply Hce, Hd.
Qed.

Lemma run_embedding_centered_witness :
  exists this',
    run draws_a [[0; 0; 0]; [1; 0; 0]] [0%Z; 1%Z] (new no_options)
    = Some this' /\
    n this' = length [[0; 0; 0]; [1; 0; 0]] /\
    shape (length [[0; 0; 0]; [1; 0; 0]]) (targetDim (cfg (new no_options)))
      (embedding this') /\
    col_mean (length [[0; 0; 0]; [1; 0; 0]]) (embedding this') 1 = 0.
Proof.
  apply (run_embedding_centered draws_a [[0; 0; 0]; [1; 0; 0]] [0%Z; 1%Z]
           (new no_options) 3 1);
    [apply shapeb_correct; reflexivity | simpl; lia | simpl; lia].
Defined.

(** X19.  After a run on at least one point, all points having the same
    number of coordinates, [P_original] is the symmetric joint
    matrix with every entry at least [1e-12]; [P] equals it when the
    exaggeration cutoff is below [maxIterations], and otherwise the
    exaggeration is never removed: [P] still holds [P_original] times the
    factor. *)
Theorem run_exaggeration_removal
    (rnd : draws) (inputData : list (list R)) (labels : list Z)
    (this : t) (inputDim a b : nat) :
  shape (length inputData) inputDim inputData ->
  (1 <= length inputData)%nat ->
  (a < length inputData)%nat -> (b < length inputData)%nat ->
  exists this',
    run rnd inputData labels this = Some this' /\
    mget (P_original this') a b = mget (P_original this') b a /\
    1e-12 <= mget (P_original this') a b /\
    ((1 <= earlyExaggerationIter (cfg this) < maxIterations (cfg this))%nat ->
     P this' = P_original this') /\
    ((maxIterations (cfg this) <= earlyExaggerationIter (cfg this))%nat ->
     mget (P this') a b
     = mget (P_original this') a b * earlyExaggeration (cfg this)).
Proof.
  intros _ Hlen Ha Hb.
  destruct (run_state rnd inputData labels this Hlen)
    as (this' & Hrun & Hc & Hn & _ & _ & _ & _ & _ & _ & Hsym & Hrem & Hkeep).
  exists this'. split; [exact Hrun|].
  rewrite Hn in Hsym, Hkeep.
  destruct (Hsym a b Ha Hb) as [H1 H2].
  split; [exact H1|]. split; [exact H2|]. split.
  - exact Hrem.
  - intros Hle. apply Hkeep; [lia|exact Ha|exact Hb].
Qed.

Lemma run_exaggeration_removal_witness :
  exists this',
    run draws_a [[0; 0; 0]; [1; 0; 0]] [0%Z; 1%Z] (new no_options)
    = Some this' /\
    mget (P_original this') 0 1 = mget (P_original this') 1 0 /\
    1e-12 <= mget (P_original this') 0 1 /\
    ((1 <= earlyExaggerationIter (cfg (new no_options))
      < maxIterations (cfg (new no_options)))%nat ->
     P this' = P_original this') /\
    ((maxIterations (cfg (new no_options))
      <= earlyExaggerationIter (cfg (new no_options)))%nat ->
     mget (P this') 0 1
     = mget (P_original this') 0 1 * earlyExaggeration (cfg (new no_options))).
Proof.
  apply (run_exaggeration_removal draws_a [[0; 0; 0]; [1; 0; 0]] [0%Z; 1%Z]
           (new no_options) 3 0 1);
    [apply shapeb_correct; reflexivity | simpl; lia | simpl; lia
    | simpl; lia].
Defined.

(** X20.  [run] resets the snapshot list but neither the step counter nor the
    cost history: a second run on the same engine records 14 snapshots
    numbered 14 to 27, and the cost history then holds the costs of both
    runs. *)
Theorem run_twice_accumulates
    (rnd1 rnd2 : draws) (o : options)
    (inputData1 inputData2 : list (list R)) (labels1 labels2 : list Z) :
  (1 <= length inputData1)%nat -> (1 <= length inputData2)%nat ->
  exists this1 this2,
    run rnd1 inputData1 labels1 (new o) = Some this1 /\
    run rnd2 inputData2 labels2 this1 = Some this2 /\
    length (snapshots this2) = 14%nat /\
    step_ids this2 = seq 14 14 /\
    length (costs this1) = (maxIterations (cfg (new o)) - 1)%nat /\
    length (costs this2) = (2 * (maxIterations (cfg (new o)) - 1))%nat.
Proof.
  intros H1 H2.
  destruct (run_state rnd1 inputData1 labels1 (new o) H1)
    as (this1 & Hrun1 & Hc1 & _ & Hs1 & Hk1 & _).
  destruct (run_state rnd2 inputData2 labels2 this1 H2)
    as (this2 & Hrun2 & Hc2 & _ & Hs2 & Hk2 & _).
  destruct (run_records rnd2 inputData2 labels2 this1 H2)
    as (this2' & Hrun2' & Htypes & Hids).
  rewrite Hrun2 in Hrun2'. injection Hrun2' as <-.
  exists this1, this2. split; [exact Hrun1|]. split; [exact Hrun2|].
  split; [|split; [|split]].
  - apply (f_equal (@length _)) in Htypes. unfold step_types in Htypes.
    rewrite length_map in Htypes. exact Htypes.
  - rewrite Hids, Hs1. reflexivity.
  - rewrite Hk1. reflexivity.
  - rewrite Hk2, Hk1, Hc1. simpl. lia.
Qed.

Lemma run_twice_accumulates_witness :
  exists this1 this2,
    run draws_a [[0; 0; 0]; [1; 0; 0]] [0%Z; 1%Z] (new no_options)
    = Some this1 /\
    run draws_b [[0; 0; 0]; [1; 0; 0]; [0; 1; 0]] [0%Z; 1%Z; 1%Z] this1
    = Some this2 /\
    length (snapshots this2) = 14%nat /\
    step_ids this2 = seq 14 14 /\
    length (costs this1) = (maxIterations (cfg (new no_options)) - 1)%nat /\
    length (costs this2)
    = (2 * (maxIterations (cfg (new no_options)) - 1))%nat.
Proof.
  apply (run_twice_accumulates draws_a draws_b no_options
           [[0; 0; 0]; [1; 0; 0]] [[0; 0; 0]; [1; 0; 0]; [0; 1; 0]]
           [0%Z; 1%Z] [0%Z; 1%Z; 1%Z]); simpl; lia.
Defined.

End RunFacts.

Section Callers.
Import PrecomputedTSNE.

Lemma or_default_R_nonzero (x : option R) (d : R) :
  d <> 0 -> or_default_R x d <> 0.
Proof.
  intros Hd. unfold or_default_R. destruct x as [v|]; [|exact Hd].
  destruct (decide (v = 0)); assumption.
Qed.

Lemma or_default_R_idem (x : option R) (d : R) :
  d <> 0 -> or_default_R (Some (or_default_R x d)) d = or_default_R x d.
Proof.
  intros Hd. pose proof (or_default_R_nonzero x d Hd) as H.
  unfold or_default_R at 1. destruct (decide _); [contradiction|reflexivity].
Qed.

Lemma or_default_nat_idem (x : option nat) (d : nat) :
  d <> 0%nat ->
  or_default_nat (Some (or_default_nat x d)) d = or_default_nat x d.
Proof.
  intros Hd.
  assert (or_default_nat x d <> 0%nat) as H.
  { unfold or_default_nat. destruct x as [v|]; [|exact Hd].
    destruct (Nat.eqb_spec v 0); assumption. }
  unfold or_default_nat at 1.
  destruct (Nat.eqb_spec (or_default_nat x d) 0); [contradiction|reflexivity].
Qed.

(** X21.  [precomputeTSNE] clamps the requested perplexity (15 when none is
    given) to [floor((N - 1) / 3)].  From four points on the engine gets
    that minimum, so that three times its perplexity is at most [N - 1].
    For one to three points the clamp is zero, which the constructor
    replaces by its default: the engine then runs with perplexity 30.  The
    other options reach the engine as given, and on at least one point the
    call returns the 14 snapshots of the engine. *)
Theorem precompute_perplexity
    (rnd : draws) (points : list (list R)) (labels : list Z) (o : options) :
  0 < or_default_R (o_perplexity o) 15 ->
  (1 <= length points)%nat ->
  let requested := or_default_R (o_perplexity o) 15 in
  let tsne := new (precompute_options points o) in
  ((length points <= 3)%nat -> perplexity (cfg tsne) = 30) /\
  ((4 <= length points)%nat ->
   perplexity (cfg tsne)
   = Rmin requested (IZR ((Z.of_nat (length points) - 1) / 3)) /\
   0 < perplexity (cfg tsne) /\
   3 * perplexity (cfg tsne) <= INR (length points) - 1) /\
  learningRate (cfg tsne) = learningRate (cfg (new o)) /\
  maxIterations (cfg tsne) = maxIterations (cfg (new o)) /\
  targetDim (cfg tsne) = targetDim (cfg (new o)) /\
  earlyExaggeration (cfg tsne) = earlyExaggeration (cfg (new o)) /\
  earlyExaggerationIter (cfg tsne) = earlyExaggerationIter (cfg (new o)) /\
  exists result,
    precomputeTSNE rnd points labels o = Some (snapshots result, result) /\
    length (snapshots result) = 14%nat.
Proof.
  intros Hp Hn requested tsne. fold requested in Hp.
  split; [|split].
  - intros Hle. subst tsne. cbn.
    assert (((Z.of_nat (length points) - 1) / 3)%Z = 0%Z) as ->.
    { apply Z.div_small. lia. }
    fold requested. rewrite Rmin_right by lra.
    rewrite decide_True by reflexivity. reflexivity.
  - intros Hge. subst tsne. cbn. fold requested.
    set (q := ((Z.of_nat (length points) - 1) / 3)%Z).
    assert (1 <= q)%Z as Hq.
    { subst q. apply Z.div_le_lower_bound; lia. }
    assert (3 * q <= Z.of_nat (length points) - 1)%Z as Hq3.
    { subst q. apply Z.mul_div_le. lia. }
    assert (1 <= IZR q) as HqR by (apply IZR_le in Hq; exact Hq).
    assert (3 * IZR q <= INR (length points) - 1) as Hq3R.
    { apply IZR_le in Hq3. rewrite mult_IZR, minus_IZR, <- INR_IZR_INZ in Hq3.
      exact Hq3. }
    assert (0 < Rmin requested (IZR q)) as Hmin
      by (apply Rmin_glb_lt; lra).
    rewrite decide_False by lra.
    split; [reflexivity|]. split; [exact Hmin|].
    pose proof (Rmin_r requested (IZR q)). lra.
  - subst tsne. unfold new, precompute_options.
    cbn [cfg perplexity learningRate maxIterations targetDim earlyExaggeration
         earlyExaggerationIter o_perplexity o_learningRate o_maxIterations
         o_targetDim o_earlyExaggeration o_earlyExaggerationIter].
    rewrite !or_default_R_idem by lra.
    rewrite !or_default_nat_idem by lia.
    do 5 (split; [reflexivity|]).
    unfold precomputeTSNE. cbv zeta.
    destruct (run_records rnd points labels (new (precompute_options points o)) Hn)
      as (result & Hrun & Htypes & _).
    rewrite Hrun. exists result. split; [reflexivity|].
    apply (f_equal (@length _)) in Htypes. unfold step_types in Htypes.
    rewrite length_map in Htypes. exact Htypes.
Qed.

Lemma precompute_perplexity_witness :
  let points := [[0; 0; 0]; [1; 0; 0]; [0; 1; 0]; [0; 0; 1]; [1; 1; 1]] in
  let requested := or_default_R (o_perplexity no_options) 15 in
  let tsne := new (precompute_options points no_options) in
  ((length points <= 3)%nat -> perplexity (cfg tsne) = 30) /\
  ((4 <= length points)%nat ->
   perplexity (cfg tsne)
   = Rmin requested (IZR ((Z.of_nat (length points) - 1) / 3)) /\
   0 < perplexity (cfg tsne) /\
   3 * perplexity (cfg tsne) <= INR (length points) - 1) /\
  learningRate (cfg tsne) = learningRate (cfg (new no_options)) /\
  maxIterations (cfg tsne) = maxIterations (cfg (new no_options)) /\
  targetDim (cfg tsne) = targetDim (cfg (new no_options)) /\
  earlyExaggeration (cfg tsne) = earlyExaggeration (cfg (new no_options)) /\
  earlyExaggerationIter (cfg tsne)
  = earlyExaggerationIter (cfg (new no_options)) /\
  exists result,
    precomputeTSNE draws_a points [0%Z; 0%Z; 1%Z; 1%Z; 1%Z] no_options
    = Some (snapshots result, result) /\
    length (snapshots result) = 14%nat.
Proof.
  apply (precompute_perplexity draws_a
           [[0; 0; 0]; [1; 0; 0]; [0; 1; 0]; [0; 0; 1]; [1; 1; 1]]
           [0%Z; 0%Z; 1%Z; 1%Z; 1%Z] no_options).
  - simpl. lra.
  - simpl. lia.
Defined.

Lemma map_eq_cons_inv {A B : Type} (f : A -> B) (l : list A) (y : B)
    (ys : list B) :
  map f l = y :: ys -> exists x l', l = x :: l' /\ f x = y /\ map f l' = ys.
Proof.
  destruct l as [|x l']; simpl; [discriminate|].
  intros [= H1 H2]. eauto.
Qed.

(** X22.  After a run on a new engine, [getSnapshotByIndex k] is the snapshot
    with step identifier [k] for [k < 14] and nothing beyond, and
    [getSnapshotByType] with the name of a step of the enumeration returns
    the snapshot of that step, whose identifier is the position of the
    step in the enumeration. *)
Theorem snapshot_lookup
    (rnd : draws) (o : options) (inputData : list (list R)) (labels : list Z)
    (ty : TSNESteps) (k : nat) :
  (1 <= length inputData)%nat ->
  exists this',
    run_fresh rnd o inputData labels = Some this' /\
    getSnapshots this' = snapshots this' /\
    (exists s, getSnapshotByType (step_name ty) this' = Some s /\
               stepType s = ty /\ stepId s = step_ordinal ty /\
               getSnapshotByIndex (step_ordinal ty) this' = Some s) /\
    ((k < 14)%nat ->
     exists s, getSnapshotByIndex k this' = Some s /\ stepId s = k) /\
    ((14 <= k)%nat -> getSnapshotByIndex k this' = None).
Proof.
  intros Hlen. unfold run_fresh.
  destruct (run_records rnd inputData labels (new o) Hlen)
    as (this' & Hrun & Htypes & Hids).
  exists this'. split; [exact Hrun|]. split; [reflexivity|].
  unfold step_types in Htypes. unfold step_ids in Hids.
  change (stepIndex (new o)) with 0%nat in Hids.
  unfold getSnapshotByType, getSnapshotByIndex.
  destruct (snapshots this') as [|s0 [|s1 [|s2 [|s3 [|s4 [|s5 [|s6 [|s7 [|s8
    [|s9 [|s10 [|s11 [|s12 [|s13 [|s14 rest]]]]]]]]]]]]]]];
    try discriminate Htypes.
  simpl in Htypes, Hids.
  injection Htypes as T0 T1 T2 T3 T4 T5 T6 T7 T8 T9 T10 T11 T12 T13.
  injection Hids as I0 I1 I2 I3 I4 I5 I6 I7 I8 I9 I10 I11 I12 I13.
  split; [|split].
  - destruct ty; simpl;
      rewrite ?T0, ?T1, ?T2, ?T3, ?T4, ?T5, ?T6, ?T7, ?T8, ?T9, ?T10, ?T11,
        ?T12, ?T13; simpl; eexists; (split; [reflexivity|]); auto.
  - intros Hk.
    do 14 (destruct k as [|k]; [simpl; eexists; split; [reflexivity|assumption]|]).
    lia.
  - intros Hk. apply lookup_ge_None_2. simpl. lia.
Qed.

Lemma snapshot_lookup_witness :
  exists this',
    run_fresh draws_a no_options [[0; 0; 0]; [1; 0; 0]] [0%Z; 1%Z] = Some this' /\
    getSnapshots this' = snapshots this' /\
    (exists s, getSnapshotByType (step_name COMPUTE_Q) this' = Some s /\
               stepType s = COMPUTE_Q /\ stepId s = step_ordinal COMPUTE_Q /\
               getSnapshotByIndex (step_ordinal COMPUTE_Q) this' = Some s) /\
    ((3 < 14)%nat ->
     exists s, getSnapshotByIndex 3 this' = Some s /\ stepId s = 3%nat) /\
    ((14 <= 3)%nat -> getSnapshotByIndex 3 this' = None).
Proof.
  apply (snapshot_lookup draws_a no_options [[0; 0; 0]; [1; 0; 0]] [0%Z; 1%Z]
           COMPUTE_Q 3).
  simpl. lia.
Defined.

End Callers.

(** ** The first update of the step-by-step engine *)

(** X23.  [_initializeEmbedding] sets [Yprev] to a copy of the new embedding, so
    the first update that follows, with an [N] by [d] gradient, has no
    momentum term: it is the plain gradient step
    [Y - learningRate * gradient]. *)
Theorem tsne_first_update
    (random : nat -> R) (this : TSNE.t) (a b : nat) :
  shape (TSNE.n this) (TSNE.targetDim this) (TSNE.gradient this) ->
  (a < TSNE.n this)%nat -> (b < TSNE.targetDim this)%nat ->
  let that := TSNE._initializeEmbedding random this in
  TSNE.Yprev that = TSNE.Y that /\
  shape (TSNE.n this) (TSNE.targetDim this) (TSNE.Y that) /\
  TSNE.embedHistory that = TSNE.embedHistory this ++ [TSNE.Y that] /\
  mget (TSNE.Y (TSNE._updateEmbedding that)) a b
  = mget (TSNE.Y that) a b
    - TSNE.learningRate this * mget (TSNE.gradient this) a b.
Proof.
  intros _ Ha Hb that.
  assert (TSNE.Yprev that = TSNE.Y that) as Hprev
    by (subst that; cbn; apply clone2D_id).
  split; [exact Hprev|]. split; [|split].
  - subst that. cbn. rewrite initializeEmbedding_map. apply shape_map_seq.
  - subst that. cbn. rewrite clone2D_id. reflexivity.
  - destruct (tsne_update_entries that) as (_ & _ & G).
    rewrite (G a b) by (subst that; cbn; assumption).
    rewrite Hprev. subst that. cbn. ring.
Qed.

Lemma tsne_first_update_witness :
  let that := TSNE._initializeEmbedding (fun _ => 1 / 4) tsne1 in
  TSNE.Yprev that = TSNE.Y that /\
  shape (TSNE.n tsne1) (TSNE.targetDim tsne1) (TSNE.Y that) /\
  TSNE.embedHistory that = TSNE.embedHistory tsne1 ++ [TSNE.Y that] /\
  mget (TSNE.Y (TSNE._updateEmbedding that)) 0 0
  = mget (TSNE.Y that) 0 0
    - TSNE.learningRate tsne1 * mget (TSNE.gradient tsne1) 0 0.
Proof.
  apply (tsne_first_update (fun _ => 1 / 4) tsne1 0 0);
    [apply shapeb_correct; reflexivity | simpl; lia | simpl; lia].
Defined.

(** ** The average distance *)

(** A sum accumulated over the pairs [i < j] is half the sum over all
    ordered pairs when the summand is symmetric. *)
Lemma triangle_sum (g : nat -> nat -> R) (n : nat) :
  (forall i j, (i < n)%nat -> (j < n)%nat -> g i j = g j i) ->
  for_range 0 n (fun i sum =>
    for_range (i + 1) n (fun j sum => sum + g i j) sum) 0
  = pair_sum g n / 2.
Proof.
  intros Hsym.
  rewrite (for_range_ext _
             (fun i sum => sum + (sumR (g i) n - sumR (g i) (i + 1)))).
  2:{ intros i s Hi. apply (for_range_sum_from (g i) (i + 1) n s). lia. }
  rewrite (for_range_sum (fun i => sumR (g i) n - sumR (g i) (i + 1))).
  induction n as [|n IH]; [unfold pair_sum; simpl; lra|].
  rewrite pair_sum_S. cbn [sumR].
  rewrite (sumR_ext (fun i => sumR (g i) n + g i n - sumR (g i) (i + 1))
             (fun i => (sumR (g i) n - sumR (g i) (i + 1)) + g i n))
    by (intros; lra).
  rewrite sumR_plus, IH by (intros; apply Hsym; lia).
  replace (n + 1)%nat with (S n) by lia. cbn [sumR].
  rewrite (sumR_ext (g n) (fun i => g i n)) by (intros; apply Hsym; lia).
  lra.
Qed.

Lemma triangle_count (n : nat) :
  (2 * for_range 0 n (fun i count =>
         for_range (i + 1) n (fun j count => (count + 1)%nat) count) 0%nat
   = n * (n - 1))%nat.
Proof.
  assert (Hinner : forall i c, (i < n)%nat ->
            for_range (i + 1) n (fun j count => (count + 1)%nat) c
            = (c + (n - (i + 1)))%nat).
  { intros i c Hi.
    pose (Inv := fun (k : nat) (s : nat) => s = (c + (k - (i + 1)))%nat).
    apply (for_range_inv Inv); subst Inv; cbv beta; lia. }
  pose (Inv := fun (k : nat) (c : nat) =>
            (2 * c + k * (k + 1) = 2 * k * n)%nat).
  assert (Inv n (for_range 0 n (fun i count =>
            for_range (i + 1) n (fun j count => (count + 1)%nat) count) 0%nat))
    as H.
  { apply (for_range_inv Inv); subst Inv; cbv beta; [lia|lia|].
    intros k c Hk Hc. rewrite Hinner by lia. nia. }
  unfold Inv in H. destruct n as [|n]; [reflexivity|].
  replace (S n - 1)%nat with n by lia. nia.
Qed.

(** X16.  [_getAvgDist] is not a number for fewer than two points; for a
    symmetric distance matrix of [N >= 2] points it is the mean of the
    entries over the [N (N - 1)] ordered pairs of distinct points, counted
    over the [N (N - 1) / 2] pairs [i < j]. *)
Theorem average_distance (this : PrecomputedTSNE.t) :
  let n := PrecomputedTSNE.n this in
  let D := PrecomputedTSNE.distanceMatrix this in
  shape n n D ->
  (forall i j, (i < n)%nat -> (j < n)%nat -> mget D i j = mget D j i) ->
  ((n <= 1)%nat -> PrecomputedTSNE._getAvgDist this = None) /\
  ((2 <= n)%nat ->
   PrecomputedTSNE._getAvgDist this
   = Some (pair_sum (mget D) n / (INR n * (INR n - 1)))).
Proof.
  intros n D _ Hsym. unfold PrecomputedTSNE._getAvgDist. fold n. fold D.
  rewrite (for_range_ext _
             (fun i '(sum, count) =>
                (for_range (i + 1) n (fun j sum => sum + mget D i j) sum,
                 for_range (i + 1) n (fun j count => (count + 1)%nat) count))).
  2:{ intros i [sum count] _.
      apply (for_range_pair (fun j sum => sum + mget D i j)
               (fun j count => (count + 1)%nat)). }
  rewrite (for_range_pair
             (fun i sum => for_range (i + 1) n (fun j sum => sum + mget D i j) sum)
             (fun i count =>
                for_range (i + 1) n (fun j count => (count + 1)%nat) count)).
  rewrite (triangle_sum (mget D) n Hsym).
  pose proof (triangle_count n) as Hcount.
  set (count := for_range 0 n _ 0%nat) in *.
  split.
  - intros Hn. assert (count = 0%nat) as -> by nia. reflexivity.
  - intros Hn. destruct (Nat.eqb_spec count 0) as [H0|_]; [nia|].
    f_equal.
    assert (2 * INR count = INR n * (INR n - 1)) as HR.
    { apply (f_equal INR) in Hcount. rewrite !mult_INR in Hcount.
      rewrite minus_INR in Hcount by lia. simpl in Hcount. lra. }
    assert (0 < INR n) by (apply lt_0_INR; lia).
    assert (1 < INR n) by (apply (lt_INR 1); lia).
    assert (INR count <> 0) by nra.
    rewrite <- HR. field. assumption.
Qed.

Lemma average_distance_witness :
  let n := PrecomputedTSNE.n engine2 in
  let D := PrecomputedTSNE.distanceMatrix engine2 in
  ((n <= 1)%nat -> PrecomputedTSNE._getAvgDist engine2 = None) /\
  ((2 <= n)%nat ->
   PrecomputedTSNE._getAvgDist engine2
   = Some (pair_sum (mget D) n / (INR n * (INR n - 1)))).
Proof.
  apply (average_distance engine2).
  - apply shapeb_correct. reflexivity.
  - intros i j Hi Hj. simpl in Hi, Hj.
    destruct i as [|[|i]], j as [|[|j]]; try lia; reflexivity.
Defined.

(** ** The two densities *)

(** X24.  The Student density is even, never negative and largest at zero,
    where it is [1 / PI]; for a positive deviation the Gaussian density is
    symmetric about its mean, never negative and largest at the mean,
    where it is [1 / (sigma * sqrt (2 PI))], a positive number.  Away from
    the peak the bounds are not strict: far out a density may be computed
    as zero. *)
Theorem density_symmetry (x mu sigma t : R) :
  0 < sigma ->
  studentTPDF (- x) = studentTPDF x /\
  0 <= studentTPDF x <= studentTPDF 0 /\
  studentTPDF 0 = 1 / PI /\
  gaussianPDF (mu + t) mu sigma = gaussianPDF (mu - t) mu sigma /\
  0 <= gaussianPDF x mu sigma <= gaussianPDF mu mu sigma /\
  gaussianPDF mu mu sigma = 1 / (sigma * sqrt (2 * PI)) /\
  0 < gaussianPDF mu mu sigma.
Proof.
  intros Hs. pose proof PI_RGT_0 as Hpi.
  assert (0 <= x * x) as Hx by apply Rle_0_sqr.
  assert (0 < sigma * sqrt (2 * PI)) as Hden.
  { apply Rmult_lt_0_compat; [exact Hs|]. apply sqrt_lt_R0. lra. }
  assert (gaussianPDF mu mu sigma = 1 / (sigma * sqrt (2 * PI))) as Hpeak.
  { unfold gaussianPDF. cbv zeta. f_equal.
    replace (mu - mu) with 0 by lra. unfold Rdiv. rewrite Rmult_0_l.
    replace (-0.5 * 0 * 0) with 0 by lra. apply exp_0. }
  split; [|split; [|split; [|split; [|split; [|split]]]]].
  - unfold studentTPDF. f_equal. ring.
  - unfold studentTPDF. split.
    + left. apply Rdiv_lt_0_compat; [lra|nra].
    + unfold Rdiv. rewrite !Rmult_1_l.
      apply Rinv_le_contravar; nra.
  - unfold studentTPDF. f_equal. ring.
  - unfold gaussianPDF. cbv zeta. f_equal. f_equal. field. lra.
  - rewrite Hpeak. unfold gaussianPDF. cbv zeta. split.
    + left. apply Rdiv_lt_0_compat; [apply exp_pos|exact Hden].
    + unfold Rdiv. apply Rmult_le_compat_r.
      * left. apply Rinv_0_lt_compat. exact Hden.
      * set (z := (x - mu) * / sigma).
        assert (-0.5 * z * z <= 0) as Hz.
        { pose proof (Rle_0_sqr z) as Hsq. unfold Rsqr in Hsq. nra. }
        destruct Hz as [Hz|Hz].
        -- left. rewrite <- exp_0. apply exp_increasing. exact Hz.
        -- rewrite Hz, exp_0. right. reflexivity.
  - exact Hpeak.
  - rewrite Hpeak. apply Rdiv_lt_0_compat; [lra|exact Hden].
Qed.

Lemma density_symmetry_witness :
  studentTPDF (- (2)) = studentTPDF 2 /\
  0 <= studentTPDF 2 <= studentTPDF 0 /\
  studentTPDF 0 = 1 / PI /\
  gaussianPDF (1 + 3) 1 2 = gaussianPDF (1 - 3) 1 2 /\
  0 <= gaussianPDF 2 1 2 <= gaussianPDF 1 1 2 /\
  gaussianPDF 1 1 2 = 1 / (2 * sqrt (2 * PI)) /\
  0 < gaussianPDF 1 1 2.
Proof. apply (density_symmetry 2 1 2 3). lra. Defined.

(** * Further properties: magnitude, constructors and the final snapshot *)

(** ** The magnitude of a gradient *)

Lemma gradientMagnitude_sum (g : list R) :
  gradientMagnitude g
  = sqrt (sumR (fun k => aget g k * aget g k) (length g)).
Proof.
  unfold gradientMagnitude. f_equal.
  apply (for_range_sum (fun k => aget g k * aget g k)).
Qed.

(** X25.  The magnitude of a gradient vector is never negative, its square is
    the sum of the squares of the coordinates, it bounds the absolute
    value of every coordinate, it is zero only for the zero vector, and it
    is the distance of the vector from the origin. *)
Theorem gradientMagnitude_bounds (g : list R) (i : nat) :
  (i < length g)%nat ->
  0 <= gradientMagnitude g /\
  gradientMagnitude g * gradientMagnitude g
  = sumR (fun k => aget g k * aget g k) (length g) /\
  Rabs (aget g i) <= gradientMagnitude g /\
  (gradientMagnitude g = 0 -> aget g i = 0) /\
  gradientMagnitude g = euclideanDistance g (replicate (length g) 0).
Proof.
  intros Hi. rewrite gradientMagnitude_sum.
  set (S := sumR (fun k => aget g k * aget g k) (length g)).
  assert (0 <= S) as HS.
  { apply sumR_nonneg. intros k _. apply Rle_0_sqr. }
  assert (aget g i * aget g i <= S) as Hle.
  { apply (sumR_term_le (fun k => aget g k * aget g k) (length g) i);
      [intros k _; apply Rle_0_sqr | exact Hi]. }
  split; [apply sqrt_pos|]. split; [apply sqrt_sqrt; exact HS|].
  split; [|split].
  - rewrite <- sqrt_Rsqr_abs. apply sqrt_le_1_alt. exact Hle.
  - intros H0. apply sqrt_eq_0 in H0; [|exact HS].
    assert (aget g i * aget g i = 0) as Hz.
    { pose proof (Rle_0_sqr (aget g i)) as Hsq. unfold Rsqr in Hsq. lra. }
    apply Rmult_integral in Hz. lra.
  - unfold euclideanDistance. f_equal. subst S. cbv zeta.
    rewrite (for_range_sum
               (fun k => (aget g k - aget (replicate (length g) 0) k)
                         * (aget g k - aget (replicate (length g) 0) k))).
    apply sumR_ext. intros k Hk. rewrite aget_replicate by exact Hk. ring.
Qed.

Lemma gradientMagnitude_bounds_witness :
  0 <= gradientMagnitude [3; 4] /\
  gradientMagnitude [3; 4] * gradientMagnitude [3; 4]
  = sumR (fun k => aget [3; 4] k * aget [3; 4] k) (length [3; 4]) /\
  Rabs (aget [3; 4] 1) <= gradientMagnitude [3; 4] /\
  (gradientMagnitude [3; 4] = 0 -> aget [3; 4] 1 = 0) /\
  gradientMagnitude [3; 4]
  = euclideanDistance [3; 4] (replicate (length [3; 4]) 0).
Proof. apply (gradientMagnitude_bounds [3; 4] 1). simpl. lia. Defined.

(** ** The constructors *)

Lemma or_default_nat_pos (x : option nat) (d : nat) :
  (1 <= d)%nat -> (1 <= or_default_nat x d)%nat.
Proof.
  intros Hd. unfold or_default_nat. destruct x as [v|]; [|exact Hd].
  destruct (Nat.eqb_spec v 0); lia.
Qed.

(** X26.  The constructor of the precomputed engine fills its options with
    [||]: a missing option and an option given as zero both get the
    default, so no configured value of the engine is ever zero, and a
    value that is not zero is kept.  The constructor of the step-by-step
    engine fills them with [??]: whatever is given is kept, zero
    included. *)
Theorem constructor_defaults
    (o : PrecomputedTSNE.options) (o' : TSNE.options) :
  let c := PrecomputedTSNE.cfg (PrecomputedTSNE.new o) in
  (PrecomputedTSNE.perplexity c <> 0 /\
   PrecomputedTSNE.learningRate c <> 0 /\
   PrecomputedTSNE.earlyExaggeration c <> 0 /\
   (1 <= PrecomputedTSNE.maxIterations c)%nat /\
   (1 <= PrecomputedTSNE.targetDim c)%nat /\
   (1 <= PrecomputedTSNE.earlyExaggerationIter c)%nat) /\
  (PrecomputedTSNE.o_earlyExaggeration o = Some 0 ->
   PrecomputedTSNE.earlyExaggeration c = 4) /\
  (PrecomputedTSNE.o_maxIterations o = Some 0%nat ->
   PrecomputedTSNE.maxIterations c = 500%nat) /\
  (forall v, PrecomputedTSNE.o_earlyExaggeration o = Some v -> v <> 0 ->
     PrecomputedTSNE.earlyExaggeration c = v) /\
  (forall v, PrecomputedTSNE.o_maxIterations o = Some v -> v <> 0%nat ->
     PrecomputedTSNE.maxIterations c = v) /\
  (forall v, TSNE.o_earlyExaggeration o' = Some v ->
     TSNE.earlyExaggeration (TSNE.new o') = v) /\
  (forall v, TSNE.o_maxIter o' = Some v -> TSNE.maxIter (TSNE.new o') = v) /\
  (TSNE.o_earlyExaggeration o' = None ->
   TSNE.earlyExaggeration (TSNE.new o') = 4).
Proof.
  intros c. subst c. cbn [PrecomputedTSNE.cfg PrecomputedTSNE.new
    PrecomputedTSNE.perplexity PrecomputedTSNE.learningRate
    PrecomputedTSNE.earlyExaggeration PrecomputedTSNE.maxIterations
    PrecomputedTSNE.targetDim PrecomputedTSNE.earlyExaggerationIter].
  split.
  { repeat split;
      first [apply or_default_R_nonzero; lra | apply or_default_nat_pos; lia]. }
  split; [intros ->; unfold or_default_R; rewrite decide_True by reflexivity;
          reflexivity|].
  split; [intros ->; reflexivity|].
  split; [intros v -> Hv; unfold or_default_R;
          rewrite decide_False by exact Hv; reflexivity|].
  split; [intros v -> Hv; unfold or_default_nat;
          destruct (Nat.eqb_spec v 0); [contradiction|reflexivity]|].
  split; [intros v Hv; cbn; rewrite Hv; reflexivity|].
  split; [intros v Hv; cbn; rewrite Hv; reflexivity|].
  intros Hv. cbn. rewrite Hv. reflexivity.
Qed.

(** ** The final snapshot *)

Section FinalSnapshot.
Import PrecomputedTSNE.

(** A run that returns ends with the call that records the final
    result. *)
Lemma run_ends_with_step13 (rnd : draws) (inputData : list (list R))
    (labels : list Z) (this this' : t) :
  run rnd inputData labels this = Some this' ->
  exists before, this' = step13 labels before.
Proof.
  unfold run. cbv zeta.
  destruct (inputData !! 0%nat) as [row0|]; [|discriminate].
  destruct (step3 _) as [this4|]; [|discriminate].
  intros [= <-]. eexists. reflexivity.
Qed.

(** X27.  The last snapshot of a run on a new engine is the final result with
    step identifier 13: it carries the embedding and the cost history in
    which the run leaves the engine, and the labels of the call.  The
    history has one cost per iteration from [1] to [maxIterations - 1],
    so the final cost is undefined exactly when [maxIterations] is 1. *)
Theorem run_final_snapshot
    (rnd : draws) (o : options) (inputData : list (list R))
    (labels : list Z) :
  (1 <= length inputData)%nat ->
  exists this' s,
    run_fresh rnd o inputData labels = Some this' /\
    last (snapshots this') = Some s /\
    stepType s = FINAL_RESULT /\
    stepId s = 13%nat /\
    data s
    = FinalData (embedding this') (last (costs this')) (costs this') labels /\
    length (costs this') = (maxIterations (cfg (new o)) - 1)%nat /\
    (last (costs this') = None <-> maxIterations (cfg (new o)) = 1%nat).
Proof.
  intros Hlen. unfold run_fresh.
  destruct (run_state rnd inputData labels (new o) Hlen)
    as (this' & Hrun & _ & _ & Hidx & Hcosts & _).
  destruct (run_ends_with_step13 _ _ _ _ _ Hrun) as [before ->].
  assert (stepIndex before = 13%nat) as Hbefore.
  { change (stepIndex (step13 labels before)) with (stepIndex before + 1)%nat
      in Hidx.
    change (stepIndex (new o)) with 0%nat in Hidx. lia. }
  change (costs (step13 labels before)) with (costs before) in *.
  change (length (costs (new o))) with 0%nat in Hcosts.
  exists (step13 labels before).
  eexists. split; [exact Hrun|].
  change (costs (step13 labels before)) with (costs before).
  change (embedding (step13 labels before)) with (embedding before).
  split.
  { unfold step13, _addSnapshot. cbn [snapshots set_stepIndex set_snapshots].
    apply last_snoc. }
  cbn [stepType stepId data].
  split; [reflexivity|]. split; [exact Hbefore|].
  split.
  { rewrite !deepClone_id. reflexivity. }
  split; [lia|].
  pose proof (or_default_nat_pos (o_maxIterations o) 500 ltac:(lia)) as Hpos.
  change (maxIterations (cfg (new o)))
    with (or_default_nat (o_maxIterations o) 500) in *.
  destruct (costs before) as [|c cs] eqn:E.
  - simpl in Hcosts. split; [intros _; lia|reflexivity].
  - split.
    + intros Hnone. exfalso.
      destruct (last_is_Some (c :: cs)) as [_ Hsome].
      destruct Hsome as [x Hx]; [discriminate|]. congruence.
    + intros H1. simpl in Hcosts. lia.
Qed.

Lemma run_final_snapshot_witness :
  exists this' s,
    run_fresh draws_a no_options [[0; 0]; [3; 4]] [0%Z; 1%Z] = Some this' /\
    last (snapshots this') = Some s /\
    stepType s = FINAL_RESULT /\
    stepId s = 13%nat /\
    data s
    = FinalData (embedding this') (last (costs this')) (costs this')
        [0%Z; 1%Z] /\
    length (costs this') = (maxIterations (cfg (new no_options)) - 1)%nat /\
    (last (costs this') = None
     <-> maxIterations (cfg (new no_options)) = 1%nat).
Proof.
  apply (run_final_snapshot draws_a no_options [[0; 0]; [3; 4]] [0%Z; 1%Z]).
  simpl. lia.
Defined.

End FinalSnapshot.

(** ** Determinism *)

Section Determinism.
Import PrecomputedTSNE.

(** [run] overwrites every field of the engine before it reads it, except
    the configuration, the step counter and the cost history: a value left
    in another field by an earlier use of the engine has no effect.  The
    proofs push the stale value through the steps that do not touch the
    field, up to the step that overwrites it. *)

Ltac enter S :=
  unfold run; cbv zeta;
  destruct (_ !! 0%nat) as [row0|]; [|reflexivity];
  match goal with
  | |- context [set_snapshots [] (?a (?b (?c (S ?t))))] =>
      change (set_snapshots [] (a (b (c (S t)))))
        with (S (set_snapshots [] (a (b (c t)))));
      let this0 := fresh "this0" in
      set (this0 := set_snapshots [] (a (b (c t)))); clearbody this0
  end.

Ltac pass f S :=
  match goal with
  | |- context [f (S ?t)] =>
      change (f (S t)) with (S (f t));
      let t' := fresh "this'" in
      set (t' := f t); clearbody t'; clear t
  end.

Ltac pass3 S :=
  match goal with
  | |- context [step3 (S ?t)] =>
      replace (step3 (S t)) with (option_map S (step3 t))
        by (unfold step3; cbv zeta;
            change (_computeAllSigmas (S t)) with (_computeAllSigmas t);
            cbn [sigmas set_sigmas];
            destruct (fst (_computeAllSigmas t)); reflexivity);
      let t' := fresh "this'" in
      destruct (step3 t) as [t'|]; [|reflexivity]; cbn [option_map]; clear t
  end.

Ltac absorb f S :=
  match goal with
  | |- context [f (S ?t)] => change (f (S t)) with (f t); reflexivity
  end.

Lemma run_forgets_start (rnd : draws) (inputData : list (list R))
    (labels : list Z) (this : t)
    (s : list snapshot) (x : option (list (list R))) (l : option (list Z))
    (k : nat) :
  run rnd inputData labels
    (set_snapshots s (set_inputData x (set_labels l (set_n k this))))
  = run rnd inputData labels this.
Proof.
  unfold run. cbv zeta.
  destruct (inputData !! 0%nat) as [row0|]; reflexivity.
Qed.

Lemma run_forgets_distanceMatrix (rnd : draws) (inputData : list (list R))
    (labels : list Z) (w : list (list R)) (this : t) :
  run rnd inputData labels (set_distanceMatrix w this)
  = run rnd inputData labels this.
Proof.
  enter (set_distanceMatrix w).
  pass (step0 row0) (set_distanceMatrix w).
  pass (step1 inputData labels row0) (set_distanceMatrix w).
  absorb (step2 inputData) (set_distanceMatrix w).
Qed.

Lemma run_forgets_sigmas (rnd : draws) (inputData : list (list R))
    (labels : list Z) (w : list R) (this : t) :
  run rnd inputData labels (set_sigmas w this)
  = run rnd inputData labels this.
Proof.
  enter (set_sigmas w).
  pass (step0 row0) (set_sigmas w).
  pass (step1 inputData labels row0) (set_sigmas w).
  pass (step2 inputData) (set_sigmas w).
  absorb step3 (set_sigmas w).
Qed.

Lemma run_forgets_P_conditional (rnd : draws) (inputData : list (list R))
    (labels : list Z) (w : list (list R)) (this : t) :
  run rnd inputData labels (set_P_conditional w this)
  = run rnd inputData labels this.
Proof.
  enter (set_P_conditional w).
  pass (step0 row0) (set_P_conditional w).
  pass (step1 inputData labels row0) (set_P_conditional w).
  pass (step2 inputData) (set_P_conditional w).
  pass3 (set_P_conditional w).
  absorb step4 (set_P_conditional w).
Qed.

Lemma run_forgets_P (rnd : draws) (inputData : list (list R))
    (labels : list Z) (w : list (list R)) (this : t) :
  run rnd inputData labels (set_P w this) = run rnd inputData labels this.
Proof.
  enter (set_P w).
  pass (step0 row0) (set_P w).
  pass (step1 inputData labels row0) (set_P w).
  pass (step2 inputData) (set_P w).
  pass3 (set_P w).
  pass step4 (set_P w).
  absorb step5 (set_P w).
Qed.

Lemma run_forgets_P_original (rnd : draws) (inputData : list (list R))
    (labels : list Z) (w : list (list R)) (this : t) :
  run rnd inputData labels (set_P_original w this)
  = run rnd inputData labels this.
Proof.
  enter (set_P_original w).
  pass (step0 row0) (set_P_original w).
  pass (step1 inputData labels row0) (set_P_original w).
  pass (step2 inputData) (set_P_original w).
  pass3 (set_P_original w).
  pass step4 (set_P_original w).
  absorb step5 (set_P_original w).
Qed.

Lemma run_forgets_embedding (rnd : draws) (inputData : list (list R))
    (labels : list Z) (w : list (list R)) (this : t) :
  run rnd inputData labels (set_embedding w this)
  = run rnd inputData labels this.
Proof.
  enter (set_embedding w).
  pass (step0 row0) (set_embedding w).
  pass (step1 inputData labels row0) (set_embedding w).
  pass (step2 inputData) (set_embedding w).
  pass3 (set_embedding w).
  pass step4 (set_embedding w).
  pass step5 (set_embedding w).
  pass step6 (set_embedding w).
  absorb (step7 rnd) (set_embedding w).
Qed.

Lemma run_forgets_velocity (rnd : draws) (inputData : list (list R))
    (labels : list Z) (w : list (list R)) (this : t) :
  run rnd inputData labels (set_velocity w this)
  = run rnd inputData labels this.
Proof.
  enter (set_velocity w).
  pass (step0 row0) (set_velocity w).
  pass (step1 inputData labels row0) (set_velocity w).
  pass (step2 inputData) (set_velocity w).
  pass3 (set_velocity w).
  pass step4 (set_velocity w).
  pass step5 (set_velocity w).
  pass step6 (set_velocity w).
  absorb (step7 rnd) (set_velocity w).
Qed.

Lemma run_forgets_Q (rnd : draws) (inputData : list (list R))
    (labels : list Z) (w : list (list R)) (this : t) :
  run rnd inputData labels (set_Q w this) = run rnd inputData labels this.
Proof.
  enter (set_Q w).
  pass (step0 row0) (set_Q w).
  pass (step1 inputData labels row0) (set_Q w).
  pass (step2 inputData) (set_Q w).
  pass3 (set_Q w).
  pass step4 (set_Q w).
  pass step5 (set_Q w).
  pass step6 (set_Q w).
  pass (step7 rnd) (set_Q w).
  absorb step8 (set_Q w).
Qed.

Lemma run_forgets_gradient (rnd : draws) (inputData : list (list R))
    (labels : list Z) (w : list (list R)) (this : t) :
  run rnd inputData labels (set_gradient w this)
  = run rnd inputData labels this.
Proof.
  enter (set_gradient w).
  pass (step0 row0) (set_gradient w).
  pass (step1 inputData labels row0) (set_gradient w).
  pass (step2 inputData) (set_gradient w).
  pass3 (set_gradient w).
  pass step4 (set_gradient w).
  pass step5 (set_gradient w).
  pass step6 (set_gradient w).
  pass (step7 rnd) (set_gradient w).
  pass step8 (set_gradient w).
  absorb step9 (set_gradient w).
Qed.

Lemma step10_keeps_iterationSnapshots (w : list iterSnapshot) (this : t) :
  step10 (set_iterationSnapshots w this)
  = set_iterationSnapshots w (step10 this).
Proof.
  unfold step10, _updateEmbedding. cbv zeta.
  cbn [n cfg gradient velocity embedding set_iterationSnapshots].
  destruct (for_range 0 (n this) _ _) as [velocity embedding].
  reflexivity.
Qed.

Lemma run_forgets_iterationSnapshots (rnd : draws)
    (inputData : list (list R)) (labels : list Z)
    (w : list iterSnapshot) (this : t) :
  run rnd inputData labels (set_iterationSnapshots w this)
  = run rnd inputData labels this.
Proof.
  enter (set_iterationSnapshots w).
  pass (step0 row0) (set_iterationSnapshots w).
  pass (step1 inputData labels row0) (set_iterationSnapshots w).
  pass (step2 inputData) (set_iterationSnapshots w).
  pass3 (set_iterationSnapshots w).
  pass step4 (set_iterationSnapshots w).
  pass step5 (set_iterationSnapshots w).
  pass step6 (set_iterationSnapshots w).
  pass (step7 rnd) (set_iterationSnapshots w).
  pass step8 (set_iterationSnapshots w).
  pass step9 (set_iterationSnapshots w).
  rewrite step10_keeps_iterationSnapshots.
  absorb step11 (set_iterationSnapshots w).
Qed.

(** An engine is rebuilt from any engine with the same configuration,
    step counter and cost history by setting the other fields. *)
Lemma engine_rebuild (a b : t) :
  cfg a = cfg b -> stepIndex a = stepIndex b -> costs a = costs b ->
  a = set_snapshots (snapshots a)
        (set_inputData (inputData a)
           (set_labels (labels a)
              (set_n (n a)
                 (set_distanceMatrix (distanceMatrix a)
                    (set_sigmas (sigmas a)
                       (set_P_conditional (P_conditional a)
                          (set_P (P a)
                             (set_P_original (P_original a)
                                (set_embedding (embedding a)
                                   (set_velocity (velocity a)
                                      (set_Q (Q a)
                                         (set_gradient (gradient a)
                                            (set_iterationSnapshots
                                               (iterationSnapshots a)
                                               b))))))))))))).
Proof.
  destruct a, b. cbn. intros -> -> ->. reflexivity.
Qed.

(** The result of a run depends on the engine it starts on through the
    configuration, the step counter and the cost history only. *)
Lemma run_depends (rnd : draws) (inputData : list (list R))
    (labels : list Z) (a b : t) :
  cfg a = cfg b -> stepIndex a = stepIndex b -> costs a = costs b ->
  run rnd inputData labels a = run rnd inputData labels b.
Proof.
  intros Hc Hs Hk.
  rewrite (engine_rebuild a b Hc Hs Hk) at 1.
  rewrite run_forgets_start, run_forgets_distanceMatrix, run_forgets_sigmas,
    run_forgets_P_conditional, run_forgets_P, run_forgets_P_original,
    run_forgets_embedding, run_forgets_velocity, run_forgets_Q,
    run_forgets_gradient, run_forgets_iterationSnapshots.
  reflexivity.
Qed.

(** C8, the claim as amended.  Two runs on the same points of one
    dimension and the same labels, started on engines that have the same
    configuration, step counter and cost history (as two newly constructed
    engines with the same options have) and drawing the same initial
    embedding, both return, and they return the same 14 snapshots and
    leave the same cost history and the same final embedding.  The draws
    may differ in everything but the initial embedding, and the engines in
    every field that [run] overwrites. *)
Theorem run_deterministic
    (rnd1 rnd2 : draws) (inputData : list (list R)) (labels : list Z)
    (inputDim : nat) (a b : t) :
  shape (length inputData) inputDim inputData ->
  (1 <= length inputData)%nat ->
  cfg a = cfg b -> stepIndex a = stepIndex b -> costs a = costs b ->
  _initializeEmbedding rnd1 (set_n (length inputData) a)
  = _initializeEmbedding rnd2 (set_n (length inputData) b) ->
  exists this1 this2,
    run rnd1 inputData labels a = Some this1 /\
    run rnd2 inputData labels b = Some this2 /\
    snapshots this1 = snapshots this2 /\
    length (snapshots this1) = 14%nat /\
    costs this1 = costs this2 /\
    embedding this1 = embedding this2.
Proof.
  intros _ Hlen Hc Hs Hk Hinit.
  destruct (run_records rnd1 inputData labels a Hlen)
    as (this1 & Hrun1 & Htypes & _).
  assert (run rnd2 inputData labels b = Some this1) as Hrun2.
  { rewrite <- Hrun1, (run_depends rnd1 inputData labels a b Hc Hs Hk).
    symmetry. apply run_same_initial_embedding.
    rewrite <- Hinit. apply initializeEmbedding_depends; [reflexivity|].
    symmetry. exact Hc. }
  exists this1, this1. split; [exact Hrun1|]. split; [exact Hrun2|].
  split; [reflexivity|]. split; [|split; reflexivity].
  apply (f_equal (@length _)) in Htypes. unfold step_types in Htypes.
  rewrite length_map in Htypes. exact Htypes.
Qed.

Lemma run_deterministic_witness :
  exists this1 this2,
    run draws_a [[0; 0; 0]; [1; 0; 0]] [0%Z; 1%Z] (new no_options)
    = Some this1 /\
    run draws_b [[0; 0; 0]; [1; 0; 0]] [0%Z; 1%Z] engine2 = Some this2 /\
    snapshots this1 = snapshots this2 /\
    length (snapshots this1) = 14%nat /\
    costs this1 = costs this2 /\
    embedding this1 = embedding this2.
Proof.
  apply (run_deterministic draws_a draws_b [[0; 0; 0]; [1; 0; 0]]
           [0%Z; 1%Z] 3 (new no_options) engine2).
  - apply shapeb_correct. reflexivity.
  - simpl. lia.
  - reflexivity.
  - reflexivity.
  - reflexivity.
  - reflexivity.
Defined.

(** C8, the claim as stated fails on an engine that has run before: [run]
    resets the snapshot list but not the step counter and the cost
    history.  A second run on the same engine, with the same points,
    labels, configuration and initial embedding as the first, returns
    snapshots with other step identifiers and leaves another cost
    history. *)
Lemma run_reused_engine_differs :
  exists this1 this2,
    run draws_a [[0; 0; 0]; [1; 0; 0]] [0%Z; 1%Z] (new no_options)
    = Some this1 /\
    run draws_a [[0; 0; 0]; [1; 0; 0]] [0%Z; 1%Z] this1 = Some this2 /\
    cfg this1 = cfg (new no_options) /\
    _initializeEmbedding draws_a (set_n 2 this1)
    = _initializeEmbedding draws_a (set_n 2 (new no_options)) /\
    snapshots this2 <> snapshots this1 /\
    costs this2 <> costs this1.
Proof.
  pose (points := ([[0; 0; 0]; [1; 0; 0]] : list (list R))).
  assert (1 <= length points)%nat as Hlen by (simpl; lia).
  fold points.
  destruct (run_state draws_a _ [0%Z; 1%Z] (new no_options) Hlen)
    as (this1 & Hrun1 & Hc1 & _ & Hs1 & Hk1 & _).
  destruct (run_records draws_a _ [0%Z; 1%Z] (new no_options) Hlen)
    as (this1' & Hrun1' & _ & Hids1).
  rewrite Hrun1 in Hrun1'. injection Hrun1' as <-.
  destruct (run_state draws_a _ [0%Z; 1%Z] this1 Hlen)
    as (this2 & Hrun2 & Hc2 & _ & _ & Hk2 & _).
  destruct (run_records draws_a _ [0%Z; 1%Z] this1 Hlen)
    as (this2' & Hrun2' & _ & Hids2).
  rewrite Hrun2 in Hrun2'. injection Hrun2' as <-.
  exists this1, this2. split; [exact Hrun1|]. split; [exact Hrun2|].
  split; [exact Hc1|]. split.
  { apply initializeEmbedding_depends; [reflexivity|exact Hc1]. }
  split.
  - intros Heq. unfold step_ids in Hids1, Hids2. rewrite Heq in Hids2.
    rewrite Hids1, Hs1 in Hids2. discriminate Hids2.
  - intros Heq. rewrite Heq, Hk1, Hc1 in Hk2.
    change (maxIterations (cfg (new no_options))) with 500%nat in Hk2.
    change (length (costs (new no_options))) with 0%nat in Hk2. lia.
Qed.

End Determinism.
